(** * Bazinga: incremental change detection for a test runner

    A shallow embedding of [bazinga/__init__.py] (the nose plugin
    [Bazinga]) and the properties of its change-detection engine.

    The plugin object is a record of its dictionaries and sets; every
    method is a function in a small state-and-exception monad over that
    record.  The filesystem, the digest function, the snakefood resolver,
    the unpickler and [inspect.getsourcefile] are external: they are the
    fields of a [World] record, fixed for the duration of a run.

    [updateGraph] and [dependenciesChanged] recurse through the graph;
    here they recurse on a budget, and a call that exhausts it ends in
    [OutOfFuel], an outcome of its own.  Any other outcome is the same
    for every larger budget ([updateGraph_fuel],
    [dependenciesChanged_fuel], [query_fuel]). *)

From stdpp Require Import base option list gmap sets strings.
From Stdlib Require Import Strings.Ascii Strings.Byte.

(** ** Data model *)

Abbreviation path := string (only parsing).
Abbreviation hash := string (only parsing).

(** The exceptions the plugin can let escape. *)
Inductive exn : Type :=
| IOError (p : path)              (* [open(path, 'rb')] failed in [file_hash] *)
| KeyError (k : string)           (* [self._graph[path]], [data['hashes']] *)
| UnboundLocalError (x : string)  (* a local read before assignment *)
| ResolverError (tag : string)    (* [find_dependencies] raised something other than TypeError *)
| UnpicklingError (tag : string)  (* [load(f)] raised *)
| TypeError (msg : string).       (* [inspect.getsourcefile] on a built-in module or class *)

(** What [find_dependencies(path, ...)] does for a path: return the list
    of files (the second component of its result is discarded by the
    plugin), raise [TypeError], or raise something else. *)
Inductive resolver_result : Type :=
| ResFiles (files : list path)
| ResTypeError
| ResRaises (tag : string).

(** What [load(f)] yields on the cache file: a dictionary whose
    ['hashes'] and ['graph'] entries may each be missing, or an
    exception. *)
Inductive load_result : Type :=
| Unpickled (hashes : option (gmap path hash)) (graph : option (gmap path (list path)))
| LoadRaises (tag : string).

(** What [inspect.getsourcefile(obj)] does: return a file name or
    [None], or raise (a [TypeError] when the object is a built-in
    module or class). *)
Inductive lookup_result : Type :=
| Returns (source : option path)
| LookupRaises (e : exn).

(** The objects nose hands to [wantModule] and [wantClass]. *)
Inductive pyobject : Type :=
| PyModule (name : string)
| PyClass (module name : string).

(** A finished test, as seen by [afterTest]: [test.passed] is [None]
    (never ran), [Some false] (failed or errored) or [Some true];
    [address_file] is [test.address()[0]], which nose may leave [None]. *)
Record test : Type := Test {
  passed : option bool;
  address_file : option path
}.

Record World : Type := {
  read_bytes : path → option (list byte);  (* [open(path,'rb').read()], [None] on IOError *)
  md5_hexdigest : list byte → hash;        (* [hashlib.md5(...).hexdigest()] *)
  isfile : path → bool;                    (* [os.path.isfile] *)
  find_dependencies : path → resolver_result;
  pickle_load : path → load_result;        (* [open(hash_file,'r')] then [load(f)] *)
  getsourcefile : pyobject → lookup_result (* [inspect.getsourcefile] *)
}.

(** The plugin's attributes.  [resolver_calls] is not an attribute of the
    Python object: it is a history of the calls made to
    [find_dependencies], most recent first, each with a flag telling
    whether the path was a member of [_ignored_files] when the call was
    made. *)
Record plugin : Type := Plugin {
  hash_file : path;
  _graph : gmap path (list path);
  _hashes : gmap path hash;
  _known_graph : gmap path (list path);
  _known_hashes : gmap path hash;
  _failed_test_modules : gset (option path);
  _file_status : gmap path bool;
  _ignored_files : gset path;
  resolver_calls : list (path * bool)
}.

(** The class-level defaults of [Bazinga]. *)
Definition initial : plugin :=
  {| hash_file := ".nosebazinga";
     _graph := ∅; _hashes := ∅; _known_graph := ∅; _known_hashes := ∅;
     _failed_test_modules := ∅; _file_status := ∅; _ignored_files := ∅;
     resolver_calls := [] |}.

Definition set_hash_file (f : path) (s : plugin) : plugin :=
  Plugin f (_graph s) (_hashes s) (_known_graph s) (_known_hashes s)
         (_failed_test_modules s) (_file_status s) (_ignored_files s) (resolver_calls s).
Definition set_graph (g : gmap path (list path)) (s : plugin) : plugin :=
  Plugin (hash_file s) g (_hashes s) (_known_graph s) (_known_hashes s)
         (_failed_test_modules s) (_file_status s) (_ignored_files s) (resolver_calls s).
Definition set_hashes (h : gmap path hash) (s : plugin) : plugin :=
  Plugin (hash_file s) (_graph s) h (_known_graph s) (_known_hashes s)
         (_failed_test_modules s) (_file_status s) (_ignored_files s) (resolver_calls s).
Definition set_known_graph (g : gmap path (list path)) (s : plugin) : plugin :=
  Plugin (hash_file s) (_graph s) (_hashes s) g (_known_hashes s)
         (_failed_test_modules s) (_file_status s) (_ignored_files s) (resolver_calls s).
Definition set_known_hashes (h : gmap path hash) (s : plugin) : plugin :=
  Plugin (hash_file s) (_graph s) (_hashes s) (_known_graph s) h
         (_failed_test_modules s) (_file_status s) (_ignored_files s) (resolver_calls s).
Definition set_failed (f : gset (option path)) (s : plugin) : plugin :=
  Plugin (hash_file s) (_graph s) (_hashes s) (_known_graph s) (_known_hashes s)
         f (_file_status s) (_ignored_files s) (resolver_calls s).
Definition set_file_status (m : gmap path bool) (s : plugin) : plugin :=
  Plugin (hash_file s) (_graph s) (_hashes s) (_known_graph s) (_known_hashes s)
         (_failed_test_modules s) m (_ignored_files s) (resolver_calls s).
Definition set_ignored (i : gset path) (s : plugin) : plugin :=
  Plugin (hash_file s) (_graph s) (_hashes s) (_known_graph s) (_known_hashes s)
         (_failed_test_modules s) (_file_status s) i (resolver_calls s).
Definition set_calls (c : list (path * bool)) (s : plugin) : plugin :=
  Plugin (hash_file s) (_graph s) (_hashes s) (_known_graph s) (_known_hashes s)
         (_failed_test_modules s) (_file_status s) (_ignored_files s) c.

(** ** The state-and-exception monad *)

Inductive outcome (A : Type) : Type :=
| Ok (a : A)        (* the call returned [a] *)
| Raise (e : exn)   (* the call raised [e] *)
| OutOfFuel.        (* the recursion budget of the model ran out *)
Arguments Ok {A} a.
Arguments Raise {A} e.
Arguments OutOfFuel {A}.

Definition M (A : Type) : Type := plugin → outcome A * plugin.

Definition ret {A} (a : A) : M A := λ s, (Ok a, s).
Definition raise {A} (e : exn) : M A := λ s, (Raise e, s).
Definition out_of_fuel {A} : M A := λ s, (OutOfFuel, s).
Definition bind {A B} (m : M A) (k : A → M B) : M B :=
  λ s, match m s with
       | (Ok a, s') => k a s'
       | (Raise e, s') => (Raise e, s')
       | (OutOfFuel, s') => (OutOfFuel, s')
       end.
Definition get : M plugin := λ s, (Ok s, s).
Definition modify (f : plugin → plugin) : M unit := λ s, (Ok tt, f s).

Declare Scope py_scope.
Delimit Scope py_scope with py.
Notation "x <- m ;; k" := (bind m (λ x, k))
  (at level 100, m at next level, right associativity) : py_scope.
Notation "m ;; k" := (bind m (λ _, k))
  (at level 100, right associativity) : py_scope.
Local Open Scope py_scope.

(** [for x in l: body(x)] *)
Fixpoint for_ {A} (l : list A) (body : A → M unit) : M unit :=
  match l with
  | [] => ret tt
  | x :: l' => body x ;; for_ l' body
  end.

(** [for x in l: acc = body(x, acc)] *)
Fixpoint for_acc {A B} (l : list A) (body : A → B → M B) (acc : B) : M B :=
  match l with
  | [] => ret acc
  | x :: l' => acc' <- body x acc ;; for_acc l' body acc'
  end.

(** [any(f(x) for x in l)]: stops at the first [True]. *)
Fixpoint any_ {A} (f : A → M bool) (l : list A) : M bool :=
  match l with
  | [] => ret false
  | x :: l' => b <- f x ;; if b then ret true else any_ f l'
  end.

(** [dict.setdefault(k, v)] and [dict.pop(k, None)], as used by [finalize]. *)
Definition setdefault {V} (k : path) (v : V) (m : gmap path V) : gmap path V :=
  match m !! k with
  | Some _ => m
  | None => <[k := v]> m
  end.

Definition pop {V} (k : option path) (m : gmap path V) : gmap path V :=
  match k with
  | Some p => delete p m
  | None => m
  end.

(** [os.path.join(a, b)] for two components. *)
Definition ends_with_slash (a : string) : bool :=
  match String.get (String.length a - 1) a with
  | Some c => bool_decide (c = "/"%char)
  | None => false
  end.

Definition join (a b : path) : path :=
  if String.prefix "/" b then b
  else if bool_decide (a = "") || ends_with_slash a then a +:+ b
  else a +:+ "/" +:+ b.

(** What [finalize] dumps into the cache file. *)
Record persisted : Type := Persisted {
  hashes : gmap path hash;
  graph : gmap path (list path)
}.

(** ** The plugin's methods *)

Section methods.
Context (w : World).

(** [file_hash(path)] *)
Definition file_hash (p : path) : M hash :=
  match read_bytes w p with
  | Some bytes => ret (md5_hexdigest w bytes)
  | None => raise (IOError p)
  end.

(** [Bazinga.configure]: the call to [Plugin.configure] of the base
    class is outside the embedding. *)
Definition configure (workingDir : path) : M unit :=
  s <- get ;;
  let f := join workingDir (hash_file s) in
  modify (set_hash_file f) ;;
  if isfile w f then
    match pickle_load w f with
    | LoadRaises tag => raise (UnpicklingError tag)
    | Unpickled h g =>
        match h with
        | None => raise (KeyError "hashes")
        | Some h =>
            modify (set_known_hashes h) ;;
            match g with
            | None => raise (KeyError "graph")
            | Some g => modify (set_known_graph g)
            end
        end
    end
  else ret tt.

(** [Bazinga.afterTest] *)
Definition afterTest (t : test) : M unit :=
  if bool_decide (passed t = Some false) then
    s <- get ;;
    modify (set_failed ({[ address_file t ]} ∪ _failed_test_modules s))
  else ret tt.

(** The body of the [for f in files] loop of [inspectDependencies]. *)
Definition filter_file (f : path) (valid_files : list path) : M (list path) :=
  s <- get ;;
  if negb (isfile w f) && bool_decide (f ∉ _ignored_files s) then
    modify (set_ignored ({[ f ]} ∪ _ignored_files s)) ;;
    ret valid_files
  else if bool_decide (f ∈ _ignored_files s) then
    ret valid_files
  else
    ret (valid_files ++ [f]).

(** [Bazinga.inspectDependencies].  When the resolver raises TypeError
    and the path is already ignored, the [except] block falls through
    and the loop reads the local [files], which was never bound. *)
Definition inspectDependencies (p : path) : M (list path) :=
  s <- get ;;
  modify (set_calls ((p, bool_decide (p ∈ _ignored_files s)) :: resolver_calls s)) ;;
  match find_dependencies w p with
  | ResFiles files => for_acc files filter_file []
  | ResTypeError =>
      s <- get ;;
      if bool_decide (p ∉ _ignored_files s) then
        modify (set_ignored ({[ p ]} ∪ _ignored_files s)) ;;
        ret []
      else raise (UnboundLocalError "files")
  | ResRaises tag => raise (ResolverError tag)
  end.

(** [Bazinga.fileChanged] *)
Definition fileChanged (p : path) : M bool :=
  s <- get ;;
  hsh <- match _hashes s !! p with
         | Some h => ret h
         | None =>
             h <- file_hash p ;;
             modify (λ s, set_hashes (<[p := h]> (_hashes s)) s) ;;
             ret h
         end ;;
  s <- get ;;
  ret (match _known_hashes s !! p with
       | None => true
       | Some k => bool_decide (hsh ≠ k)
       end).

(** [Bazinga.updateGraph] *)
Fixpoint updateGraph (fuel : nat) (p : path) : M unit :=
  match fuel with
  | 0 => out_of_fuel
  | S n =>
      s <- get ;;
      match _graph s !! p with
      | Some _ => ret tt
      | None =>
          c <- fileChanged p ;;
          s <- get ;;
          files <- match negb c, _known_graph s !! p with
                   | true, Some files => ret files
                   | _, _ => inspectDependencies p
                   end ;;
          modify (λ s, set_graph (<[p := files]> (_graph s)) s) ;;
          for_ files (updateGraph n)
      end
  end.

(** [Bazinga.dependenciesChanged] *)
Fixpoint dependenciesChanged (fuel : nat) (p : path) (parents : option (list path))
  : M bool :=
  match fuel with
  | 0 => out_of_fuel
  | S n =>
      let parents := default [] parents in
      s <- get ;;
      match _file_status s !! p with
      | Some status => ret status
      | None =>
          c <- fileChanged p ;;
          changed <- (if c then ret true
                      else
                        s <- get ;;
                        match _graph s !! p with
                        | None => raise (KeyError p)
                        | Some childs =>
                            let new_parents := parents ++ [p] in
                            any_ (λ f, dependenciesChanged n f (Some new_parents))
                                 (filter (λ f, f ∉ new_parents) childs)
                        end) ;;
          modify (λ s, set_file_status (<[p := changed]> (_file_status s)) s) ;;
          ret changed
      end
  end.

(** [Bazinga.finalize]: the loops mutate [_hashes] and [_graph] in
    place; the result is the dictionary handed to [dump].  Opening and
    writing the cache file are outside the embedding. *)
Definition finalize : M persisted :=
  s <- get ;;
  for_ (map_to_list (_known_hashes s))
       (λ kv, modify (λ s, set_hashes (setdefault kv.1 kv.2 (_hashes s)) s)) ;;
  for_ (map_to_list (_known_graph s))
       (λ kv, modify (λ s, set_graph (setdefault kv.1 kv.2 (_graph s)) s)) ;;
  for_ (elements (_failed_test_modules s))
       (λ m, modify (λ s, set_hashes (pop m (_hashes s)) s)) ;;
  s <- get ;;
  ret (Persisted (_hashes s) (_graph s)).

(** [Bazinga.wantModule]: Python's [None] is [None], [False] is
    [Some false]; an exception of [inspect.getsourcefile] escapes. *)
Definition wantModule (fuel : nat) (m : pyobject) : M (option bool) :=
  match getsourcefile w m with
  | LookupRaises e => raise e
  | Returns None => ret None
  | Returns (Some source) =>
      updateGraph fuel source ;;
      c <- dependenciesChanged fuel source None ;;
      if negb c then ret (Some false) else ret None
  end.

(** [Bazinga.wantClass] *)
Definition wantClass (fuel : nat) (cls : pyobject) : M (option bool) :=
  match getsourcefile w cls with
  | LookupRaises e => raise e
  | Returns None => ret None
  | Returns (Some source) =>
      updateGraph fuel source ;;
      c <- dependenciesChanged fuel source None ;;
      if negb c then ret (Some false) else ret None
  end.

End methods.

(** ** Runs *)

(** The change verdict of a query: what [wantModule] and [wantClass] do
    with a source path, [updateGraph(source)] followed by
    [dependenciesChanged(source)]. *)
Definition query (w : World) (fuel : nat) (p : path) : M bool :=
  updateGraph w fuel p ;; dependenciesChanged w fuel p None.

(** The state a run starts in: nothing visited yet. *)
Definition fresh (s : plugin) : Prop :=
  _graph s = ∅ ∧ _hashes s = ∅ ∧ _file_status s = ∅.

(** The state after [configure] loaded the maps [kh] and [kg]. *)
Definition start (f : path) (kh : gmap path hash) (kg : gmap path (list path)) : plugin :=
  Plugin f ∅ ∅ kg kh ∅ ∅ ∅ [].

(** The content hash a file has on disk, if it can be read. *)
Definition disk_hash (w : World) (p : path) : option hash :=
  md5_hexdigest w <$> read_bytes w p.

(** The verdict of [fileChanged] when the file's hash is [h]. *)
Definition own_change (s : plugin) (p : path) (h : hash) : bool :=
  match _known_hashes s !! p with
  | None => true
  | Some k => bool_decide (h ≠ k)
  end.

(** The calls nose makes between [configure] and [finalize]. *)
Inductive call : Type :=
| WantModule (fuel : nat) (m : pyobject)
| WantClass (fuel : nat) (cls : pyobject)
| AfterTest (t : test).

Definition do_call (w : World) (c : call) (s : plugin) : plugin :=
  match c with
  | WantModule fuel m => (wantModule w fuel m s).2
  | WantClass fuel cls => (wantClass w fuel cls s).2
  | AfterTest t => (afterTest t s).2
  end.

(** A run: the calls in order; a call that raises leaves the state as
    it was when the exception escaped. *)
Definition run (w : World) (cs : list call) (s : plugin) : plugin :=
  foldl (λ s c, do_call w c s) s cs.

(** A computation preserves [I] when, from a state satisfying [I], it
    ends in a state satisfying [I], whether it returns or not. *)
Definition preserves {A} (I : plugin → Prop) (m : M A) : Prop :=
  ∀ s, I s → I (m s).2.

(** [g] extends [f]: it agrees with [f] wherever [f] does not run out of
    recursion budget. *)
Definition extends {X A} (f g : X → M A) : Prop :=
  ∀ x s r s', f x s = (r, s') → r ≠ OutOfFuel → g x s = (r, s').

(** A run invariant: a predicate on plugin states closed under each
    way a query or [afterTest] changes the state: caching a file's hash,
    recording a reused or a freshly resolved edge list (or leaving
    [inspectDependencies] by an exception), memoizing a verdict, and
    recording a failed test. *)
Record run_invariant (w : World) (I : plugin → Prop) : Prop := {
  inv_hash : ∀ p s h,
    I s → _hashes s !! p = None → disk_hash w p = Some h →
    I (set_hashes (<[p := h]> (_hashes s)) s);
  inv_reuse : ∀ p s h files,
    I s → _graph s !! p = None → _hashes s !! p = Some h →
    own_change s p h = false → _known_graph s !! p = Some files →
    I (set_graph (<[p := files]> (_graph s)) s);
  inv_inspect : ∀ p s h,
    I s → _graph s !! p = None → _hashes s !! p = Some h →
    own_change s p h = true ∨ _known_graph s !! p = None →
    match inspectDependencies w p s with
    | (Ok files, s') => I (set_graph (<[p := files]> (_graph s')) s')
    | (_, s') => I s'
    end;
  inv_own : ∀ p s h,
    I s → _file_status s !! p = None → _hashes s !! p = Some h →
    own_change s p h = true →
    I (set_file_status (<[p := true]> (_file_status s)) s);
  inv_childs : ∀ p s h childs n parents b s',
    I s → _file_status s !! p = None → _hashes s !! p = Some h →
    own_change s p h = false → _graph s !! p = Some childs →
    any_ (λ f, dependenciesChanged w n f (Some (parents ++ [p])))
         (filter (λ f, f ∉ parents ++ [p]) childs) s = (Ok b, s') →
    I s' →
    I (set_file_status (<[p := b]> (_file_status s')) s');
  inv_failed : ∀ s f, I s → I (set_failed f s)
}.

(** ** Invariants and derived notions *)

(** The invariant behind stability: file [A], recorded with hash [hA]
    and no dependencies, is only ever seen unchanged, as a leaf, and
    never reaches the resolver. *)
Definition stable_inv (A : path) (hA : hash) (s : plugin) : Prop :=
  _known_hashes s !! A = Some hA ∧
  _known_graph s !! A = Some [] ∧
  (∀ h, _hashes s !! A = Some h → h = hA) ∧
  (∀ l, _graph s !! A = Some l → l = []) ∧
  (∀ b, _file_status s !! A = Some b → b = false) ∧
  (∀ c, c ∈ resolver_calls s → c.1 ≠ A).

(** An entry of the current graph, once written, stays as it is. *)
Definition recorded (A : path) (l : list path) (s : plugin) : Prop :=
  _graph s !! A = Some l.

(** The invariant of a cold start: no prior hash, and only "changed"
    verdicts memoized. *)
Definition cold_inv (s : plugin) : Prop :=
  _known_hashes s = ∅ ∧ (∀ p b, _file_status s !! p = Some b → b = true).

(** The invariant behind "an ignored path is not resolved again": an
    ignored path is already in the graph or is not a regular file, only
    regular files have been hashed, and no recorded resolver call was
    made on a path that was ignored at the time. *)
Definition ignored_inv (w : World) (s : plugin) : Prop :=
  (∀ p, p ∈ _ignored_files s → is_Some (_graph s !! p) ∨ isfile w p = false) ∧
  (∀ p, is_Some (_hashes s !! p) → isfile w p = true) ∧
  (∀ c, c ∈ resolver_calls s → c.2 = false).

(** The invariant behind the stale-edge failure: the unreadable path [D]
    is never hashed and never enters the graph, and the edge list [l]
    recorded for [A] stays as it is. *)
Definition stale_inv (A D : path) (l : list path) (s : plugin) : Prop :=
  _hashes s !! D = None ∧ _graph s !! D = None ∧ _graph s !! A = Some l.

(** What [wantModule] and [wantClass] answer for the outcome of the
    query on the unit's source path: [False] for an unchanged verdict,
    [None] for a changed one, and the exception if there is one. *)
Definition answer (r : outcome bool * plugin) : outcome (option bool) * plugin :=
  match r with
  | (Ok c, s') => (Ok (if c then None else Some false), s')
  | (Raise e, s') => (Raise e, s')
  | (OutOfFuel, s') => (OutOfFuel, s')
  end.

(** The merge as the specification words it: the entries of this run,
    plus every prior entry whose key this run's map lacks; for the
    hashes, every key in the failed set is then removed. *)
Definition merged_hashes (s : plugin) : gmap path hash :=
  filter (λ kv, Some kv.1 ∉ _failed_test_modules s) (_hashes s ∪ _known_hashes s).

Definition merged_graph (s : plugin) : gmap path (list path) :=
  _graph s ∪ _known_graph s.

(** ** Toy worlds for concrete scenarios *)

(** Files are given by name and content and the digest of a content is
    the content itself; a path in [special] can be read but is not a
    regular file (a device node, a pipe); the resolver answers from a
    table (no dependencies for a path not in it); the unpickler answers
    [cache]; a module or class named [n] has source file [n], the one
    named by the empty string has no known source, and the one named
    ["sys"] is built-in. *)
Definition toy_world (files : gmap path string) (special : gset path)
    (deps : gmap path resolver_result) (cache : load_result) : World :=
  {| read_bytes p := String.list_byte_of_string <$> files !! p;
     md5_hexdigest := String.string_of_list_byte;
     isfile p := bool_decide (is_Some (files !! p) ∧ p ∉ special);
     find_dependencies p := default (ResFiles []) (deps !! p);
     pickle_load _ := cache;
     getsourcefile o :=
       let n := match o with PyModule n => n | PyClass m _ => m end in
       if bool_decide (n = "") then Returns None
       else if bool_decide (n = "sys") then LookupRaises (TypeError "built-in")
       else Returns (Some n) |}.

Definition no_cache : load_result := Unpickled (Some ∅) (Some ∅).

(** A chain [A -> B -> C], all three recorded; [C] has changed on disk. *)
Definition chain_world : World :=
  toy_world (list_to_map [("A", "a"); ("B", "b"); ("C", "c2")]) ∅ ∅ no_cache.
Definition chain_start : plugin :=
  start ".nosebazinga"
    (list_to_map [("A", "a"); ("B", "b"); ("C", "c")])
    (list_to_map [("A", ["B"]); ("B", ["C"]); ("C", [])]).

(** A cycle [A -> B -> A], both recorded and unchanged. *)
Definition cycle_world : World :=
  toy_world (list_to_map [("A", "a"); ("B", "b")]) ∅ ∅ no_cache.
Definition cycle_start : plugin :=
  start ".nosebazinga"
    (list_to_map [("A", "a"); ("B", "b")])
    (list_to_map [("A", ["B"]); ("B", ["A"])]).

(** A leaf [A], recorded and unchanged, next to a new file [B] that
    imports it. *)
Definition leaf_world : World :=
  toy_world (list_to_map [("A", "a"); ("B", "b")]) ∅
    (list_to_map [("B", ResFiles ["A"])]) no_cache.
Definition leaf_start : plugin :=
  start ".nosebazinga" (list_to_map [("A", "a")]) (list_to_map [("A", [])]).

(** [A] is unchanged and was recorded as importing [D], which has since
    been deleted. *)
Definition stale_world : World :=
  toy_world (list_to_map [("A", "a")]) ∅ ∅ no_cache.
Definition stale_start : plugin :=
  start ".nosebazinga"
    (list_to_map [("A", "a"); ("D", "d")])
    (list_to_map [("A", ["D"]); ("D", [])]).

(** [A] imports [P], and the resolver fails structurally on [P]. *)
Definition broken_import_world : World :=
  toy_world (list_to_map [("A", "a"); ("P", "p")]) ∅
    (list_to_map [("A", ResFiles ["P"]); ("P", ResTypeError)]) no_cache.
Definition broken_import_start : plugin :=
  start ".nosebazinga" (list_to_map [("A", "a")]) (list_to_map [("A", ["P"])]).

(** [Q] imports [P]; [P] can be read but is not a regular file, and the
    resolver fails structurally on it. *)
Definition special_file_world : World :=
  toy_world (list_to_map [("Q", "q"); ("P", "p")]) {["P"]}
    (list_to_map [("Q", ResFiles ["P"]); ("P", ResTypeError)]) no_cache.

(** The cache file exists and cannot be unpickled. *)
Definition corrupt_cache_world : World :=
  toy_world (list_to_map [("/proj/.nosebazinga", "garbage"); ("/proj/a.py", "a")]) ∅ ∅
    (LoadRaises "truncated pickle").

(** [A] imports [B] and [C], [B] imports [A]; all recorded, [C] has
    changed on disk. *)
Definition diamond_world : World :=
  toy_world (list_to_map [("A", "a"); ("B", "b"); ("C", "c2")]) ∅ ∅ no_cache.
Definition diamond_start : plugin :=
  start ".nosebazinga"
    (list_to_map [("A", "a"); ("B", "b"); ("C", "c")])
    (list_to_map [("A", ["B"; "C"]); ("B", ["A"]); ("C", [])]).

(** ** Notions for whole runs *)

(** A query invariant: a predicate [I] on plugin states, with a
    predicate [Par] on the ancestor lists [dependenciesChanged] is
    called with, closed under each way [updateGraph] and
    [dependenciesChanged] change the state.  When a verdict is memoized
    for [p], nothing was memoized for [p] while its dependencies were
    inspected: [p] was among their ancestors. *)
Record query_invariant (w : World) (Par : list path → Prop) (I : plugin → Prop)
    : Prop := {
  qi_hash : ∀ p s h,
    I s → _hashes s !! p = None → disk_hash w p = Some h →
    I (set_hashes (<[p := h]> (_hashes s)) s);
  qi_reuse : ∀ p s h files,
    I s → _graph s !! p = None → _hashes s !! p = Some h →
    own_change s p h = false → _known_graph s !! p = Some files →
    I (set_graph (<[p := files]> (_graph s)) s);
  qi_inspect : ∀ p s h,
    I s → _graph s !! p = None → _hashes s !! p = Some h →
    own_change s p h = true ∨ _known_graph s !! p = None →
    match inspectDependencies w p s with
    | (Ok files, s') => I (set_graph (<[p := files]> (_graph s')) s')
    | (_, s') => I s'
    end;
  qi_own : ∀ p s h,
    I s → _file_status s !! p = None → _hashes s !! p = Some h →
    own_change s p h = true →
    I (set_file_status (<[p := true]> (_file_status s)) s);
  qi_parents : ∀ p s h parents,
    I s → Par parents → _hashes s !! p = Some h → own_change s p h = false →
    Par (parents ++ [p]);
  qi_childs : ∀ p s h childs n parents b s',
    I s → Par parents →
    _file_status s !! p = None → _hashes s !! p = Some h →
    own_change s p h = false → _graph s !! p = Some childs →
    any_ (λ f, dependenciesChanged w n f (Some (parents ++ [p])))
         (filter (λ f, f ∉ parents ++ [p]) childs) s = (Ok b, s') →
    I s' → _file_status s' !! p = None →
    I (set_file_status (<[p := b]> (_file_status s')) s')
}.

(** [s'] extends [s]: the configuration and the prior maps are the same,
    and everything [s] holds, [s'] holds with the same value. *)
Definition extends_state (s s' : plugin) : Prop :=
  hash_file s' = hash_file s ∧
  _known_graph s' = _known_graph s ∧
  _known_hashes s' = _known_hashes s ∧
  _graph s ⊆ _graph s' ∧
  _hashes s ⊆ _hashes s' ∧
  _file_status s ⊆ _file_status s' ∧
  _ignored_files s ⊆ _ignored_files s' ∧
  _failed_test_modules s ⊆ _failed_test_modules s' ∧
  resolver_calls s `suffix_of` resolver_calls s'.

(** The bookkeeping a run keeps: a cached hash is the digest of the
    file on disk; a path with a graph entry or a verdict has a cached
    hash; a path judged unchanged has a graph entry; the entry of an
    unchanged file that the prior graph records is the prior entry; any
    other entry holds regular files only. *)
Definition hashed_inv (w : World) (s : plugin) : Prop :=
  (∀ p h, _hashes s !! p = Some h → disk_hash w p = Some h) ∧
  (∀ p, is_Some (_graph s !! p) → is_Some (_hashes s !! p)) ∧
  (∀ p, is_Some (_file_status s !! p) → is_Some (_hashes s !! p)) ∧
  (∀ p, _file_status s !! p = Some false → is_Some (_graph s !! p)) ∧
  (∀ p l h l', _graph s !! p = Some l → _hashes s !! p = Some h →
     own_change s p h = false → _known_graph s !! p = Some l' → l = l') ∧
  (∀ p l h, _graph s !! p = Some l → _hashes s !! p = Some h →
     own_change s p h = true ∨ _known_graph s !! p = None →
     ∀ f, f ∈ l → isfile w f = true).

(** [p] has on disk the content the prior run recorded for it. *)
Definition unchanged_on_disk (w : World) (kh : gmap path hash) (p : path) : Prop :=
  ∃ h, disk_hash w p = Some h ∧ kh !! p = Some h.

(** [q] can be reached from [p] along the edges of the graph [g]. *)
Definition reachable (g : gmap path (list path)) : path → path → Prop :=
  rtc (λ a b, ∃ l, g !! a = Some l ∧ b ∈ l).

(** What the memoized verdicts mean, for the prior hashes [kh]: a path
    judged unchanged has a graph entry, is unchanged on disk, and so is
    every path of its edge list; a path judged changed reaches, along
    the edges of the current graph, a path whose own hash differs from
    the prior one (or has none). *)
Definition verdict_inv (w : World) (kh : gmap path hash) (s : plugin) : Prop :=
  _known_hashes s = kh ∧
  (∀ p h, _hashes s !! p = Some h → disk_hash w p = Some h) ∧
  (∀ p, _file_status s !! p = Some false → is_Some (_graph s !! p)) ∧
  (∀ p, _file_status s !! p = Some false → unchanged_on_disk w kh p) ∧
  (∀ p childs c, _file_status s !! p = Some false → _graph s !! p = Some childs →
     c ∈ childs → unchanged_on_disk w kh c) ∧
  (∀ p, _file_status s !! p = Some true →
     ∃ q h, reachable (_graph s) p q ∧ _hashes s !! q = Some h ∧
            own_change s q h = true).

(** The addresses [afterTest] records over the calls [cs]: those of the
    tests whose [passed] is [False]. *)
Definition failed_addresses (cs : list call) : list (option path) :=
  omap (λ c, match c with
             | AfterTest t =>
                 if bool_decide (passed t = Some false) then Some (address_file t)
                 else None
             | _ => None
             end) cs.

(** No call of the run exceeded its recursion budget. *)
Fixpoint within_budget (w : World) (cs : list call) (s : plugin) : Prop :=
  match cs with
  | [] => True
  | c :: cs =>
      match c with
      | WantModule n m => (wantModule w n m s).1 ≠ OutOfFuel
      | WantClass n cls => (wantClass w n cls s).1 ≠ OutOfFuel
      | AfterTest _ => True
      end ∧ within_budget w cs (do_call w c s)
  end.

(** [D] is a set of files that nothing touched since the prior run:
    each has on disk the content the prior hashes [kh] record, and an
    entry in the prior graph [kg] whose edges stay inside [D]. *)
Definition unchanged_closure (w : World) (kh : gmap path hash)
    (kg : gmap path (list path)) (D : gset path) : Prop :=
  ∀ q, q ∈ D →
    unchanged_on_disk w kh q ∧ ∃ l, kg !! q = Some l ∧ ∀ c, c ∈ l → c ∈ D.

(** What a run keeps about such a set: the prior maps are not touched,
    cached hashes are digests of the files on disk, the graph entry of
    a file of [D] is its prior entry, and no file of [D] is judged
    changed. *)
Definition settled_inv (w : World) (kh : gmap path hash)
    (kg : gmap path (list path)) (D : gset path) (s : plugin) : Prop :=
  _known_hashes s = kh ∧ _known_graph s = kg ∧
  (∀ q h, _hashes s !! q = Some h → disk_hash w q = Some h) ∧
  (∀ q l, q ∈ D → _graph s !! q = Some l → kg !! q = Some l) ∧
  (∀ q b, q ∈ D → _file_status s !! q = Some b → b = false).

(** Every visited file of [D] that is not in [P] has all the paths of
    its edge list visited. *)
Definition closed_except (D P : gset path) (s : plugin) : Prop :=
  ∀ q l c, q ∈ D → q ∉ P → _graph s !! q = Some l → c ∈ l →
    is_Some (_graph s !! c).

(** [U] holds every file a visit that starts in [U] can reach: the
    paths of the prior edge lists of its files, and the regular files
    the resolver reports for them. *)
Definition universe (w : World) (kg : gmap path (list path)) (U : gset path) : Prop :=
  ∀ q l c, q ∈ U → c ∈ l →
    (kg !! q = Some l → c ∈ U) ∧
    (find_dependencies w q = ResFiles l → isfile w c = true → c ∈ U).

(** The queried unit has its source, if any, in [U], and the recursion
    budget of the call exceeds the number of files of [U]. *)
Definition budgeted (w : World) (U : gset path) (c : call) : Prop :=
  match c with
  | WantModule n m | WantClass n m =>
      size U < n ∧ ∀ p, getsourcefile w m = Returns (Some p) → p ∈ U
  | AfterTest _ => True
  end.

(** Every call of the run returned: none raised, none exceeded its
    recursion budget. *)
Definition is_ok {A} (r : outcome A) : Prop :=
  match r with Ok _ => True | _ => False end.

Fixpoint all_returned (w : World) (cs : list call) (s : plugin) : Prop :=
  match cs with
  | [] => True
  | c :: cs =>
      match c with
      | WantModule n m => is_ok (wantModule w n m s).1
      | WantClass n cls => is_ok (wantClass w n cls s).1
      | AfterTest _ => True
      end ∧ all_returned w cs (do_call w c s)
  end.

(** Every visited file that is not in [P] has all the paths of its
    edge list visited, and every visited file has a cached hash. *)
Definition closed_graph (P : gset path) (s : plugin) : Prop :=
  (∀ q l c, q ∉ P → _graph s !! q = Some l → c ∈ l → is_Some (_graph s !! c)) ∧
  (∀ q, is_Some (_graph s !! q) → is_Some (_hashes s !! q)).

(** Every query of the run so far answered "unchanged" (or had no
    source to ask about). *)
Fixpoint all_unchanged (w : World) (cs : list call) (s : plugin) : Prop :=
  match cs with
  | [] => True
  | c :: cs =>
      match c with
      | WantModule n m =>
          getsourcefile w m = Returns None ∨ (wantModule w n m s).1 = Ok (Some false)
      | WantClass n cls =>
          getsourcefile w cls = Returns None ∨ (wantClass w n cls s).1 = Ok (Some false)
      | AfterTest _ => True
      end ∧ all_unchanged w cs (do_call w c s)
  end.

(** No path is judged changed, and the paths judged unchanged are
    closed under the edges of the graph, except for edges into [P]. *)
Definition unchanged_closed (P : list path) (s : plugin) : Prop :=
  (∀ q, _file_status s !! q ≠ Some true) ∧
  (∀ q l c, _file_status s !! q = Some false → _graph s !! q = Some l → c ∈ l →
     _file_status s !! c = Some false ∨ c ∈ P).

(** ** Further toy worlds *)

(** The project of [chain_world] at its next run: the files are as they
    were, and the cache file holds what the first run dumped. *)
Definition rerun_world : World :=
  toy_world
    (list_to_map [("A", "a"); ("B", "b"); ("C", "c2"); ("/proj/.nosebazinga", "x")])
    ∅ ∅
    (Unpickled (Some (list_to_map [("A", "a"); ("B", "b"); ("C", "c2")]))
               (Some (list_to_map [("A", ["B"]); ("B", ["C"]); ("C", [])]))).

(** [A] imports [F]; both are recorded and unchanged, but the prior
    graph has no entry for [F], and the resolver fails on [F]. *)
Definition failing_resolver_world : World :=
  toy_world (list_to_map [("A", "a"); ("F", "f")]) ∅
    (list_to_map [("F", ResRaises "SyntaxError")]) no_cache.
Definition failing_resolver_start : plugin :=
  start ".nosebazinga" (list_to_map [("A", "a"); ("F", "f")])
    (list_to_map [("A", ["F"])]).

(** [A] is unchanged and was recorded as importing [C], which has
    changed, and then [D], which has since been deleted. *)
Definition stale_scan_world : World :=
  toy_world (list_to_map [("A", "a"); ("C", "c2")]) ∅ ∅ no_cache.
Definition stale_scan_start : plugin :=
  start ".nosebazinga"
    (list_to_map [("A", "a"); ("C", "c"); ("D", "d")])
    (list_to_map [("A", ["C"; "D"]); ("C", []); ("D", [])]).

(** [A] is unchanged and was recorded as importing [D] and [E], both of
    which have since been deleted. *)
Definition two_stale_world : World :=
  toy_world (list_to_map [("A", "a")]) ∅ ∅ no_cache.
Definition two_stale_start : plugin :=
  start ".nosebazinga"
    (list_to_map [("A", "a"); ("D", "d"); ("E", "e")])
    (list_to_map [("A", ["D"; "E"]); ("D", []); ("E", [])]).

(** ** Tactics for the state record *)

Ltac simpl_state :=
  unfold set_graph, set_hashes, set_file_status, set_ignored, set_calls, set_failed,
    set_known_graph, set_known_hashes, set_hash_file in *;
  cbn [_graph _hashes _known_graph _known_hashes _file_status _ignored_files
       _failed_test_modules resolver_calls hash_file fst snd] in *.

(** ** Equations of the monad and of the methods *)

Section equations.
Context (w : World).

Lemma bind_ok {A B} (m : M A) (k : A → M B) s a s' :
  m s = (Ok a, s') → bind m k s = k a s'.
Proof. unfold bind. by intros ->. Qed.

Lemma bind_raise {A B} (m : M A) (k : A → M B) s e s' :
  m s = (Raise e, s') → bind m k s = (Raise e, s').
Proof. unfold bind. by intros ->. Qed.

Lemma bind_out_of_fuel {A B} (m : M A) (k : A → M B) s s' :
  m s = (OutOfFuel, s') → bind m k s = (OutOfFuel, s').
Proof. unfold bind. by intros ->. Qed.

Lemma fileChanged_cached s p h :
  _hashes s !! p = Some h →
  fileChanged w p s = (Ok (own_change s p h), s).
Proof. intros Hh. unfold fileChanged, bind, get, ret. by rewrite Hh. Qed.

Lemma fileChanged_hashed s p h :
  _hashes s !! p = None → disk_hash w p = Some h →
  fileChanged w p s = (Ok (own_change s p h), set_hashes (<[p := h]> (_hashes s)) s).
Proof.
  intros Hh Hd. unfold disk_hash in Hd.
  unfold fileChanged, file_hash, bind, get, ret, modify. rewrite Hh.
  destruct (read_bytes w p) as [b|]; simplify_eq/=. done.
Qed.

Lemma fileChanged_unreadable s p :
  _hashes s !! p = None → read_bytes w p = None →
  fileChanged w p s = (Raise (IOError p), s).
Proof.
  intros Hh Hd. unfold fileChanged, file_hash, bind, get, ret, modify, raise.
  by rewrite Hh, Hd.
Qed.

Lemma updateGraph_visited n p s files :
  _graph s !! p = Some files → updateGraph w (S n) p s = (Ok tt, s).
Proof. intros Hg. cbn [updateGraph]. unfold bind at 1, get. by rewrite Hg. Qed.

Lemma updateGraph_reuse n p s s1 files :
  _graph s !! p = None →
  fileChanged w p s = (Ok false, s1) →
  _known_graph s1 !! p = Some files →
  updateGraph w (S n) p s =
    for_ files (updateGraph w n) (set_graph (<[p := files]> (_graph s1)) s1).
Proof.
  intros Hg Hc Hk. cbn [updateGraph]. unfold bind at 1, get. rewrite Hg.
  rewrite (bind_ok _ _ _ _ _ Hc). unfold bind at 1. cbn [negb]. rewrite Hk.
  unfold bind at 1, ret at 1. unfold bind at 1, modify. done.
Qed.

Lemma updateGraph_inspect n p s c s1 files s2 :
  _graph s !! p = None →
  fileChanged w p s = (Ok c, s1) →
  c = true ∨ _known_graph s1 !! p = None →
  inspectDependencies w p s1 = (Ok files, s2) →
  updateGraph w (S n) p s =
    for_ files (updateGraph w n) (set_graph (<[p := files]> (_graph s2)) s2).
Proof.
  intros Hg Hc Hk Hi. cbn [updateGraph]. unfold bind at 1, get. rewrite Hg.
  rewrite (bind_ok _ _ _ _ _ Hc). unfold bind at 1.
  assert (match negb c, _known_graph s1 !! p with
          | true, Some files => ret files
          | _, _ => inspectDependencies w p
          end = inspectDependencies w p) as ->.
  { destruct Hk as [-> | ->]; [done | by destruct (negb c)]. }
  rewrite (bind_ok _ _ _ _ _ Hi). unfold bind at 1, modify. done.
Qed.

Lemma updateGraph_hash_fails n p s e s1 :
  _graph s !! p = None →
  fileChanged w p s = (Raise e, s1) →
  updateGraph w (S n) p s = (Raise e, s1).
Proof.
  intros Hg Hc. cbn [updateGraph]. unfold bind at 1, get. rewrite Hg.
  by rewrite (bind_raise _ _ _ _ _ Hc).
Qed.

Lemma dependenciesChanged_memo n p parents s b :
  _file_status s !! p = Some b →
  dependenciesChanged w (S n) p parents s = (Ok b, s).
Proof. intros Hf. cbn [dependenciesChanged]. unfold bind at 1, get. by rewrite Hf. Qed.

Lemma dependenciesChanged_own n p parents s s1 :
  _file_status s !! p = None →
  fileChanged w p s = (Ok true, s1) →
  dependenciesChanged w (S n) p parents s =
    (Ok true, set_file_status (<[p := true]> (_file_status s1)) s1).
Proof.
  intros Hf Hc. cbn [dependenciesChanged]. unfold bind at 1, get. rewrite Hf.
  rewrite (bind_ok _ _ _ _ _ Hc). done.
Qed.

Lemma dependenciesChanged_childs n p parents s s1 childs b s2 :
  _file_status s !! p = None →
  fileChanged w p s = (Ok false, s1) →
  _graph s1 !! p = Some childs →
  any_ (λ f, dependenciesChanged w n f (Some (default [] parents ++ [p])))
       (filter (λ f, f ∉ default [] parents ++ [p]) childs) s1 = (Ok b, s2) →
  dependenciesChanged w (S n) p parents s =
    (Ok b, set_file_status (<[p := b]> (_file_status s2)) s2).
Proof.
  intros Hf Hc Hg Ha. cbn [dependenciesChanged]. unfold bind at 1, get. rewrite Hf.
  rewrite (bind_ok _ _ _ _ _ Hc).
  unfold bind at 1. unfold bind at 1, get. rewrite Hg, Ha. done.
Qed.

End equations.

Section verdicts.
Context (w : World).

Lemma own_change_same s p h :
  _known_hashes s !! p = Some h → own_change s p h = false.
Proof.
  intros Hk. unfold own_change. rewrite Hk.
  by rewrite bool_decide_false by naive_solver.
Qed.

Lemma own_change_differs s p h k :
  _known_hashes s !! p = Some k → h ≠ k → own_change s p h = true.
Proof. intros Hk Hne. unfold own_change. rewrite Hk. by rewrite bool_decide_true. Qed.

Lemma own_change_novel s p h :
  _known_hashes s !! p = None → own_change s p h = true.
Proof. intros Hk. unfold own_change. by rewrite Hk. Qed.

Lemma fileChanged_same s p h :
  _hashes s !! p = None → disk_hash w p = Some h → _known_hashes s !! p = Some h →
  fileChanged w p s = (Ok false, set_hashes (<[p := h]> (_hashes s)) s).
Proof.
  intros Hh Hd Hk. rewrite (fileChanged_hashed w s p h Hh Hd).
  by rewrite own_change_same.
Qed.

Lemma fileChanged_cached_same s p h :
  _hashes s !! p = Some h → _known_hashes s !! p = Some h →
  fileChanged w p s = (Ok false, s).
Proof.
  intros Hh Hk. rewrite (fileChanged_cached w s p h Hh).
  by rewrite own_change_same.
Qed.

Lemma fileChanged_differs s p h k :
  _hashes s !! p = None → disk_hash w p = Some h → _known_hashes s !! p = Some k →
  h ≠ k →
  fileChanged w p s = (Ok true, set_hashes (<[p := h]> (_hashes s)) s).
Proof.
  intros Hh Hd Hk Hne. rewrite (fileChanged_hashed w s p h Hh Hd).
  by rewrite (own_change_differs s p h k).
Qed.

Lemma fileChanged_cached_differs s p h k :
  _hashes s !! p = Some h → _known_hashes s !! p = Some k → h ≠ k →
  fileChanged w p s = (Ok true, s).
Proof.
  intros Hh Hk Hne. rewrite (fileChanged_cached w s p h Hh).
  by rewrite (own_change_differs s p h k).
Qed.

Lemma inspectDependencies_files s p files :
  find_dependencies w p = ResFiles files →
  inspectDependencies w p s =
    for_acc files (filter_file w) []
      (set_calls ((p, bool_decide (p ∈ _ignored_files s)) :: resolver_calls s) s).
Proof. intros Hr. unfold inspectDependencies, bind, get, modify. by rewrite Hr. Qed.

End verdicts.

Ltac map_lookup := simpl_state; simplify_map_eq; done.

(** Symbolic evaluation of one call, by the equations above. *)
Ltac eval_fileChanged :=
  first
    [ apply fileChanged_same; [map_lookup | done | map_lookup]
    | eapply fileChanged_cached_same; map_lookup
    | eapply fileChanged_differs; [map_lookup | done | map_lookup | done]
    | eapply fileChanged_cached_differs; [map_lookup | map_lookup | done] ].

Ltac eval_filter :=
  cbn [default app];
  repeat first [ rewrite filter_cons_True by set_solver
               | rewrite filter_cons_False by set_solver ];
  rewrite ?filter_nil; cbn [any_].

Ltac eval_reuse :=
  erewrite updateGraph_reuse; [| map_lookup | eval_fileChanged | map_lookup];
  simpl_state; cbn [for_].

Ltac eval_visited :=
  erewrite bind_ok; [| eapply updateGraph_visited; map_lookup].

Ltac eval_memo :=
  erewrite bind_ok; [| eapply dependenciesChanged_memo; map_lookup].

Ltac eval_childs :=
  erewrite dependenciesChanged_childs;
    [| map_lookup | eval_fileChanged | map_lookup |].

Ltac eval_own :=
  erewrite dependenciesChanged_own; [| map_lookup | eval_fileChanged].

(** ** Symbolic evaluation of chains and cycles *)

Section scenarios.
Context (w : World).

Lemma query_cycle s A B hA hB n :
  fresh s →
  _known_graph s !! A = Some [B] → _known_graph s !! B = Some [A] →
  disk_hash w A = Some hA → _known_hashes s !! A = Some hA →
  disk_hash w B = Some hB → _known_hashes s !! B = Some hB →
  (query w (S (S (S n))) A s).1 = Ok false.
Proof.
  destruct s as [hf g h kg kh fl fs ig rc].
  intros (Hg & Hh & Hf) HkA HkB HdA HhA HdB HhB. simpl_state. subst g h fs.
  unfold query.
  destruct (decide (A = B)) as [<-|Hne].
  - erewrite bind_ok; last first.
    { eval_reuse. eval_visited. reflexivity. }
    eval_childs; [done|]. eval_filter. reflexivity.
  - erewrite bind_ok; last first.
    { eval_reuse.
      erewrite bind_ok; last first.
      { eval_reuse. eval_visited. reflexivity. }
      reflexivity. }
    eval_childs; [done|]. eval_filter.
    erewrite bind_ok; last first.
    { eval_childs; [reflexivity|]. eval_filter. reflexivity. }
    reflexivity.
Qed.

Lemma query_chain_A s A B C hA hB hC hC' n :
  fresh s →
  _known_graph s !! A = Some [B] → _known_graph s !! B = Some [C] →
  _known_graph s !! C = Some [] →
  disk_hash w A = Some hA → _known_hashes s !! A = Some hA →
  disk_hash w B = Some hB → _known_hashes s !! B = Some hB →
  disk_hash w C = Some hC' → _known_hashes s !! C = Some hC → hC' ≠ hC →
  find_dependencies w C = ResFiles [] →
  query w (S (S (S n))) A s =
    (Ok true,
     Plugin (hash_file s)
       (<[C := []]> (<[B := [C]]> (<[A := [B]]> ∅)))
       (<[C := hC']> (<[B := hB]> (<[A := hA]> ∅)))
       (_known_graph s) (_known_hashes s) (_failed_test_modules s)
       (<[A := true]> (<[B := true]> (<[C := true]> ∅)))
       (_ignored_files s)
       ((C, bool_decide (C ∈ _ignored_files s)) :: resolver_calls s)).
Proof.
  destruct s as [hf g h kg kh fl fs ig rc].
  intros (Hg & Hh & Hf) HkA HkB HkC HdA HhA HdB HhB HdC HhC Hne Hr.
  simpl_state. subst g h fs.
  assert (A ≠ C) by (intros ->; congruence).
  assert (B ≠ C) by (intros ->; congruence).
  assert (A ≠ B) by (intros ->; congruence).
  unfold query.
  erewrite bind_ok; last first.
  { eval_reuse.
    erewrite bind_ok; last first.
    { eval_reuse.
      erewrite bind_ok; last first.
      { erewrite updateGraph_inspect;
          [| map_lookup | eval_fileChanged | by left
           | rewrite (inspectDependencies_files _ _ _ _ Hr); reflexivity].
        simpl_state. reflexivity. }
      reflexivity. }
    reflexivity. }
  simpl_state.
  eval_childs.
  2: { eval_filter.
       erewrite bind_ok; last first.
       { eval_childs.
         2: { eval_filter.
              erewrite bind_ok; last first.
              { eval_own. reflexivity. }
              reflexivity. }
         reflexivity. }
       reflexivity. }
  simpl_state. reflexivity.
Qed.

Lemma query_chain_B s A B C hA hB hC hC' n :
  fresh s →
  _known_graph s !! A = Some [B] → _known_graph s !! B = Some [C] →
  _known_graph s !! C = Some [] →
  disk_hash w A = Some hA → _known_hashes s !! A = Some hA →
  disk_hash w B = Some hB → _known_hashes s !! B = Some hB →
  disk_hash w C = Some hC' → _known_hashes s !! C = Some hC → hC' ≠ hC →
  find_dependencies w C = ResFiles [] →
  query w (S (S n)) B s =
    (Ok true,
     Plugin (hash_file s)
       (<[C := []]> (<[B := [C]]> ∅))
       (<[C := hC']> (<[B := hB]> ∅))
       (_known_graph s) (_known_hashes s) (_failed_test_modules s)
       (<[B := true]> (<[C := true]> ∅))
       (_ignored_files s)
       ((C, bool_decide (C ∈ _ignored_files s)) :: resolver_calls s)).
Proof.
  destruct s as [hf g h kg kh fl fs ig rc].
  intros (Hg & Hh & Hf) HkA HkB HkC HdA HhA HdB HhB HdC HhC Hne Hr.
  simpl_state. subst g h fs.
  assert (B ≠ C) by (intros ->; congruence).
  unfold query.
  erewrite bind_ok; last first.
  { eval_reuse.
    erewrite bind_ok; last first.
    { erewrite updateGraph_inspect;
        [| map_lookup | eval_fileChanged | by left
         | rewrite (inspectDependencies_files _ _ _ _ Hr); reflexivity].
      simpl_state. reflexivity. }
    reflexivity. }
  simpl_state.
  eval_childs.
  2: { eval_filter.
       erewrite bind_ok; last first.
       { eval_own. reflexivity. }
       reflexivity. }
  simpl_state. reflexivity.
Qed.

Lemma query_chain_C s C hC hC' n :
  fresh s →
  disk_hash w C = Some hC' → _known_hashes s !! C = Some hC → hC' ≠ hC →
  find_dependencies w C = ResFiles [] →
  (query w (S n) C s).1 = Ok true.
Proof.
  destruct s as [hf g h kg kh fl fs ig rc].
  intros (Hg & Hh & Hf) HdC HhC Hne Hr.
  simpl_state. subst g h fs.
  unfold query.
  erewrite bind_ok; last first.
  { erewrite updateGraph_inspect;
      [| map_lookup | eval_fileChanged | by left
       | rewrite (inspectDependencies_files _ _ _ _ Hr); reflexivity].
    simpl_state. reflexivity. }
  simpl_state. eval_own. reflexivity.
Qed.

(** A memoized verdict is what a later query returns. *)
Lemma query_memo s p l b n :
  _graph s !! p = Some l → _file_status s !! p = Some b →
  query w (S n) p s = (Ok b, s).
Proof.
  intros Hg Hf. unfold query.
  rewrite (bind_ok _ _ _ _ _ (updateGraph_visited w n p s l Hg)).
  by apply dependenciesChanged_memo.
Qed.

Lemma dependenciesChanged_direct s p h k n parents :
  _file_status s !! p = None → _hashes s !! p = None →
  disk_hash w p = Some h → _known_hashes s !! p = Some k → h ≠ k →
  dependenciesChanged w (S n) p parents s =
    (Ok true,
     set_file_status (<[p := true]> (_file_status s))
       (set_hashes (<[p := h]> (_hashes s)) s)).
Proof.
  intros Hf Hh Hd Hk Hne.
  by rewrite (dependenciesChanged_own w n p parents s _ Hf
                (fileChanged_differs w s p h k Hh Hd Hk Hne)).
Qed.
End scenarios.

(** ** Closed forms of the leaf methods *)

Section closed_forms.
Context (w : World).

Lemma fileChanged_cases s p :
  (∃ h, _hashes s !! p = Some h ∧
        fileChanged w p s = (Ok (own_change s p h), s)) ∨
  (∃ h, _hashes s !! p = None ∧ disk_hash w p = Some h ∧
        fileChanged w p s =
          (Ok (own_change s p h), set_hashes (<[p := h]> (_hashes s)) s)) ∨
  (_hashes s !! p = None ∧ read_bytes w p = None ∧
   fileChanged w p s = (Raise (IOError p), s)).
Proof.
  destruct (_hashes s !! p) as [h|] eqn:Hh.
  - left. exists h. eauto using fileChanged_cached.
  - right. destruct (disk_hash w p) as [h|] eqn:Hd.
    + left. exists h. eauto using fileChanged_hashed.
    + right. unfold disk_hash in Hd. destruct (read_bytes w p) eqn:Hr; [done|].
      eauto using fileChanged_unreadable.
Qed.

(** The filtering loop of [inspectDependencies] in closed form: the
    files kept are the regular files that were not ignored, and every
    path that is not a regular file becomes ignored. *)
Lemma for_acc_filter_file files acc s :
  for_acc files (filter_file w) acc s =
    (Ok (acc ++ filter (λ f, isfile w f = true ∧ f ∉ _ignored_files s) files),
     set_ignored (list_to_set (filter (λ f, isfile w f = false) files)
                  ∪ _ignored_files s) s).
Proof.
  revert acc s. induction files as [|f files IH]; intros acc s.
  - cbn [for_acc]. rewrite !filter_nil, app_nil_r. unfold ret. f_equal.
    destruct s. unfold set_ignored. cbn. f_equal. set_solver.
  - cbn [for_acc]. unfold bind at 1. unfold filter_file at 1.
    unfold bind at 1, get.
    destruct (isfile w f) eqn:Hf; cbn [negb andb].
    + rewrite filter_cons_False with (x := f) (P := λ f, isfile w f = false) by congruence.
      destruct (decide (f ∈ _ignored_files s)) as [Hin|Hin].
      * rewrite bool_decide_true by done. unfold ret at 1. rewrite IH.
        rewrite filter_cons_False by naive_solver. done.
      * rewrite bool_decide_false by done. unfold ret at 1. rewrite IH.
        rewrite filter_cons_True by naive_solver.
        by rewrite <- app_assoc.
    + rewrite filter_cons_True with (x := f) (P := λ f, isfile w f = false) by done.
      rewrite filter_cons_False by (intros [? _]; congruence).
      destruct (decide (f ∈ _ignored_files s)) as [Hin|Hin].
      * rewrite bool_decide_false by naive_solver. rewrite bool_decide_true by done.
        unfold ret at 1. rewrite IH. f_equal.
        destruct s. unfold set_ignored. cbn. f_equal. set_solver.
      * rewrite bool_decide_true by done. unfold bind at 1, modify, ret at 1.
        rewrite IH. f_equal.
        -- f_equal. f_equal. apply list_filter_iff. intros f'. simpl_state.
           split; [set_solver|]. intros [Hf' ?]. split; [done|].
           assert (f' ≠ f) by congruence. set_solver.
        -- destruct s. simpl_state. f_equal. set_solver.
Qed.

Lemma inspectDependencies_cases s p :
  let s1 := set_calls ((p, bool_decide (p ∈ _ignored_files s)) :: resolver_calls s) s in
  inspectDependencies w p s =
    match find_dependencies w p with
    | ResFiles files =>
        (Ok (filter (λ f, isfile w f = true ∧ f ∉ _ignored_files s) files),
         set_ignored (list_to_set (filter (λ f, isfile w f = false) files)
                      ∪ _ignored_files s) s1)
    | ResTypeError =>
        if decide (p ∈ _ignored_files s)
        then (Raise (UnboundLocalError "files"), s1)
        else (Ok [], set_ignored ({[ p ]} ∪ _ignored_files s) s1)
    | ResRaises tag => (Raise (ResolverError tag), s1)
    end.
Proof.
  intros s1. unfold inspectDependencies. unfold bind at 1, get.
  unfold bind at 1, modify. fold s1.
  destruct (find_dependencies w p) as [files| |tag].
  - by rewrite for_acc_filter_file.
  - unfold bind at 1, get. subst s1. simpl_state.
    destruct (decide (p ∈ _ignored_files s)).
    + by rewrite bool_decide_false by naive_solver.
    + by rewrite bool_decide_true by naive_solver.
  - done.
Qed.
End closed_forms.

(** ** Run invariants are preserved *)

Section preservation.
Context (w : World).

Lemma fileChanged_ok s p c s1 :
  fileChanged w p s = (Ok c, s1) →
  ∃ h, _hashes s1 !! p = Some h ∧ c = own_change s1 p h ∧
       (s1 = s ∨ (_hashes s !! p = None ∧ disk_hash w p = Some h ∧
                  s1 = set_hashes (<[p := h]> (_hashes s)) s)).
Proof.
  destruct (fileChanged_cases w s p)
    as [(h & Hh & ->) | [(h & Hh & Hd & ->) | (Hh & Hd & ->)]];
    intros [= <- <-]; exists h.
  - eauto.
  - split_and!; [simpl_state; by simplify_map_eq|done|eauto].
Qed.

Lemma fileChanged_raise s p e s1 :
  fileChanged w p s = (Raise e, s1) →
  s1 = s ∧ e = IOError p ∧ _hashes s !! p = None ∧ read_bytes w p = None.
Proof.
  destruct (fileChanged_cases w s p)
    as [(h & Hh & ->) | [(h & Hh & Hd & ->) | (Hh & Hd & ->)]];
    intros [= <- <-]; eauto.
Qed.

Lemma fileChanged_not_out_of_fuel s p s1 :
  fileChanged w p s ≠ (OutOfFuel, s1).
Proof.
  destruct (fileChanged_cases w s p)
    as [(h & Hh & ->) | [(h & Hh & Hd & ->) | (Hh & Hd & ->)]]; done.
Qed.

Context (I : plugin → Prop) (HI : run_invariant w I).

Lemma fileChanged_preserves p : preserves I (fileChanged w p).
Proof.
  intros s Hs.
  destruct (fileChanged_cases w s p)
    as [(h & Hh & ->) | [(h & Hh & Hd & ->) | (Hh & Hd & ->)]]; cbn [snd]; try done.
  by apply (inv_hash w I HI).
Qed.

Lemma for__preserves {A} (l : list A) (body : A → M unit) :
  (∀ x, preserves I (body x)) → preserves I (for_ l body).
Proof.
  intros Hbody. induction l as [|x l IH]; intros s Hs; [done|].
  cbn [for_]. unfold bind. specialize (Hbody x s Hs).
  destruct (body x s) as [[[]|e|] s1]; cbn [snd] in *; [by apply IH|done..].
Qed.

Lemma any__preserves {A} (l : list A) (f : A → M bool) :
  (∀ x, preserves I (f x)) → preserves I (any_ f l).
Proof.
  intros Hf. induction l as [|x l IH]; intros s Hs; [done|].
  cbn [any_]. unfold bind. specialize (Hf x s Hs).
  destruct (f x s) as [[[]|e|] s1]; cbn [snd] in *; [done|by apply IH|done..].
Qed.

Lemma updateGraph_preserves n p : preserves I (updateGraph w n p).
Proof.
  revert p. induction n as [|n IH]; intros p s Hs; [done|].
  cbn [updateGraph]. unfold bind at 1, get.
  destruct (_graph s !! p) as [files|] eqn:Hg; [done|].
  unfold bind at 1.
  destruct (fileChanged w p s) as [[c|e|] s1] eqn:Hc; cbn [snd].
  - apply fileChanged_ok in Hc as (h & Hh & -> & Hs1).
    assert (I s1 ∧ _graph s1 !! p = None) as [HI1 Hg1].
    { destruct Hs1 as [->|(Hh0 & Hd & ->)]; [done|].
      split; [by apply (inv_hash w I HI)|done]. }
    unfold bind at 1, get.
    destruct (own_change s1 p h) eqn:Hown; cbn [negb].
    + pose proof (inv_inspect w I HI p s1 h HI1 Hg1 Hh (or_introl Hown)) as Hi.
      unfold bind at 1.
      destruct (inspectDependencies w p s1) as [[files|e|] s2]; cbn [snd]; try done.
      unfold bind at 1, modify. by apply for__preserves.
    + destruct (_known_graph s1 !! p) as [files|] eqn:Hk.
      * unfold bind at 1, ret at 1. unfold bind at 1, modify.
        apply for__preserves; [done|]. by eapply (inv_reuse w I HI).
      * pose proof (inv_inspect w I HI p s1 h HI1 Hg1 Hh (or_intror Hk)) as Hi.
        unfold bind at 1.
        destruct (inspectDependencies w p s1) as [[files|e|] s2]; cbn [snd]; try done.
        unfold bind at 1, modify. by apply for__preserves.
  - by apply fileChanged_raise in Hc as (-> & _).
  - by apply fileChanged_not_out_of_fuel in Hc.
Qed.

Lemma dependenciesChanged_preserves n p parents :
  preserves I (dependenciesChanged w n p parents).
Proof.
  revert p parents. induction n as [|n IH]; intros p parents s Hs; [done|].
  cbn [dependenciesChanged]. unfold bind at 1, get.
  destruct (_file_status s !! p) as [b|] eqn:Hf; [done|].
  unfold bind at 1.
  destruct (fileChanged w p s) as [[c|e|] s1] eqn:Hc; cbn [snd].
  - apply fileChanged_ok in Hc as (h & Hh & -> & Hs1).
    assert (I s1 ∧ _file_status s1 !! p = None) as [HI1 Hf1].
    { destruct Hs1 as [->|(Hh0 & Hd & ->)]; [done|].
      split; [by apply (inv_hash w I HI)|done]. }
    destruct (own_change s1 p h) eqn:Hown.
    + unfold bind at 1, ret at 1. unfold bind at 1, modify. cbn [snd].
      by eapply (inv_own w I HI).
    + unfold bind at 1. unfold bind at 1, get.
      destruct (_graph s1 !! p) as [childs|] eqn:Hg; [|done].
      pose proof (any__preserves
        (filter (λ f, f ∉ default [] parents ++ [p]) childs)
        (λ f, dependenciesChanged w n f (Some (default [] parents ++ [p])))
        (λ f, IH f _) s1 HI1) as Hany.
      destruct (any_ _ _ s1) as [[b|e|] s2] eqn:Ha; cbn [snd] in *; try done.
      unfold bind at 1, modify. cbn [snd].
      by apply (inv_childs w I HI p s1 h childs n (default [] parents) b s2).
  - by apply fileChanged_raise in Hc as (-> & _).
  - by apply fileChanged_not_out_of_fuel in Hc.
Qed.

Lemma query_preserves n p : preserves I (query w n p).
Proof.
  intros s Hs. unfold query, bind.
  pose proof (updateGraph_preserves n p s Hs) as Hu.
  destruct (updateGraph w n p s) as [[[]|e|] s1]; cbn [snd] in *; try done.
  by apply dependenciesChanged_preserves.
Qed.

Lemma wantModule_preserves n m : preserves I (wantModule w n m).
Proof.
  intros s Hs. unfold wantModule.
  destruct (getsourcefile w m) as [[p|]|e0]; [|done..]. unfold bind at 1.
  pose proof (updateGraph_preserves n p s Hs) as Hu.
  destruct (updateGraph w n p s) as [[[]|e|] s1]; cbn [snd] in *; try done.
  unfold bind at 1.
  pose proof (dependenciesChanged_preserves n p None s1 Hu) as Hd.
  destruct (dependenciesChanged w n p None s1) as [[[]|e|] s2]; cbn [snd] in *; done.
Qed.

Lemma wantClass_preserves n cls : preserves I (wantClass w n cls).
Proof.
  intros s Hs. unfold wantClass.
  destruct (getsourcefile w cls) as [[p|]|e0]; [|done..]. unfold bind at 1.
  pose proof (updateGraph_preserves n p s Hs) as Hu.
  destruct (updateGraph w n p s) as [[[]|e|] s1]; cbn [snd] in *; try done.
  unfold bind at 1.
  pose proof (dependenciesChanged_preserves n p None s1 Hu) as Hd.
  destruct (dependenciesChanged w n p None s1) as [[[]|e|] s2]; cbn [snd] in *; done.
Qed.

Lemma afterTest_preserves t : preserves I (afterTest t).
Proof.
  intros s Hs. unfold afterTest. case_bool_decide; [|done].
  unfold bind, get, modify. cbn [snd]. by apply (inv_failed w I HI).
Qed.

Lemma run_preserves cs s : I s → I (run w cs s).
Proof.
  revert s. induction cs as [|c cs IH]; intros s Hs; [done|].
  cbn [run foldl]. apply IH. destruct c; cbn [do_call].
  - by apply wantModule_preserves.
  - by apply wantClass_preserves.
  - by apply afterTest_preserves.
Qed.
End preservation.

(** ** The recursion budget *)

Section fuel.
Context (w : World).

Lemma for__extends {X} (l : list X) (f g : X → M unit) :
  extends f g → extends (λ _ : unit, for_ l f) (λ _, for_ l g).
Proof.
  intros Hfg. induction l as [|x l IH]; intros [] s r s'; [done|].
  cbn [for_]. unfold bind. intros Hrun Hr.
  destruct (f x s) as [[[]|e|] s1] eqn:Hf.
  - rewrite (Hfg x s _ _ Hf) by done. by apply (IH ()).
  - rewrite (Hfg x s _ _ Hf) by done. done.
  - by simplify_eq.
Qed.

Lemma any__extends {X} (l : list X) (f g : X → M bool) :
  extends f g → extends (λ _ : unit, any_ f l) (λ _, any_ g l).
Proof.
  intros Hfg. induction l as [|x l IH]; intros [] s r s'; [done|].
  cbn [any_]. unfold bind. intros Hrun Hr.
  destruct (f x s) as [[[]|e|] s1] eqn:Hf.
  - rewrite (Hfg x s _ _ Hf) by done. done.
  - rewrite (Hfg x s _ _ Hf) by done. by apply (IH ()).
  - rewrite (Hfg x s _ _ Hf) by done. done.
  - by simplify_eq.
Qed.

(** A larger recursion budget does not change an outcome that a smaller
    one already produced. *)
Lemma updateGraph_fuel n m :
  n ≤ m → extends (updateGraph w n) (updateGraph w m).
Proof.
  revert m. induction n as [|n IH]; intros m Hnm p s r s' Hrun Hr.
  { cbn in Hrun. unfold out_of_fuel in Hrun. by simplify_eq. }
  destruct m as [|m]; [lia|].
  cbn [updateGraph] in Hrun |- *.
  unfold bind at 1, get in Hrun. unfold bind at 1, get. destruct (_graph s !! p); [done|].
  unfold bind at 1 in Hrun. unfold bind at 1.
  destruct (fileChanged w p s) as [[c|e|] s1]; [|done..].
  unfold bind at 1, get in Hrun. unfold bind at 1, get.
  unfold bind at 1 in Hrun. unfold bind at 1.
  destruct (match negb c, _known_graph s1 !! p with
            | true, Some files => ret files
            | _, _ => inspectDependencies w p
            end s1) as [[files|e|] s2]; [|done..].
  unfold bind at 1, modify in Hrun. unfold bind at 1, modify.
  apply (for__extends files (updateGraph w n) (updateGraph w m)
           (IH m ltac:(lia)) () _ r s' Hrun Hr).
Qed.

Lemma dependenciesChanged_fuel n m parents :
  n ≤ m →
  extends (λ p, dependenciesChanged w n p parents)
          (λ p, dependenciesChanged w m p parents).
Proof.
  revert m parents. induction n as [|n IH]; intros m parents Hnm p s r s' Hrun Hr.
  { cbn in Hrun. unfold out_of_fuel in Hrun. by simplify_eq. }
  destruct m as [|m]; [lia|].
  cbn [dependenciesChanged] in Hrun |- *.
  unfold bind at 1, get in Hrun. unfold bind at 1, get. destruct (_file_status s !! p); [done|].
  unfold bind at 1 in Hrun. unfold bind at 1.
  destruct (fileChanged w p s) as [[c|e|] s1]; [|done..].
  destruct c; [done|].
  unfold bind at 1 in Hrun. unfold bind at 1.
  unfold bind at 1, get in Hrun. unfold bind at 1, get.
  destruct (_graph s1 !! p) as [childs|]; [|done].
  pose proof (any__extends
    (filter (λ f, f ∉ default [] parents ++ [p]) childs) _ _
    (IH m (Some (default [] parents ++ [p])) ltac:(lia)) () s1) as Hany.
  cbn beta in Hany.
  destruct (any_ _ _ s1) as [[b|e|] s2] eqn:Ha.
  - by rewrite (Hany _ _ eq_refl).
  - rewrite (Hany _ _ eq_refl) by done. done.
  - by simplify_eq.
Qed.

Lemma query_fuel n m : n ≤ m → extends (query w n) (query w m).
Proof.
  intros Hnm p s r s'. unfold query, bind. intros Hrun Hr.
  destruct (updateGraph w n p s) as [[[]|e|] s1] eqn:Hu.
  - rewrite (updateGraph_fuel n m Hnm p s _ _ Hu) by done.
    by apply (dependenciesChanged_fuel n m None Hnm).
  - by rewrite (updateGraph_fuel n m Hnm p s _ _ Hu).
  - by simplify_eq.
Qed.
End fuel.

(** ** The invariants of the claims *)

Section invariants.
Context (w : World).

Lemma stable_inv_run_invariant A hA :
  disk_hash w A = Some hA → run_invariant w (stable_inv A hA).
Proof.
  intros HdA. split.
  - intros p s h (Hkh & Hkg & Hh & Hg & Hf & Hc) Hnone Hd.
    split_and!; simpl_state; try done.
    intros h'. destruct (decide (p = A)) as [->|Hne].
    + rewrite lookup_insert_eq. congruence.
    + rewrite lookup_insert_ne by done. auto.
  - intros p s h files (Hkh & Hkg & Hh & Hg & Hf & Hc) Hnone Hsome Hown Hk.
    split_and!; simpl_state; try done.
    intros l. destruct (decide (p = A)) as [->|Hne].
    + rewrite lookup_insert_eq. congruence.
    + rewrite lookup_insert_ne by done. auto.
  - intros p s h (Hkh & Hkg & Hh & Hg & Hf & Hc) Hnone Hsome Hown.
    assert (p ≠ A) as Hne.
    { intros ->. destruct Hown as [Hown|Hown]; [|congruence].
      rewrite (Hh _ Hsome) in Hown. unfold own_change in Hown.
      rewrite Hkh in Hown. by rewrite bool_decide_false in Hown by naive_solver. }
    rewrite inspectDependencies_cases.
    assert (∀ c, c ∈ (p, bool_decide (p ∈ _ignored_files s)) :: resolver_calls s →
                 c.1 ≠ A) as Hc'.
    { intros c [->|?]%elem_of_cons; [done|auto]. }
    destruct (find_dependencies w p) as [files| |tag].
    + split_and!; simpl_state; try done.
      intros l. rewrite lookup_insert_ne by done. auto.
    + destruct (decide (p ∈ _ignored_files s)).
      * split_and!; simpl_state; done.
      * split_and!; simpl_state; try done.
        intros l. rewrite lookup_insert_ne by done. auto.
    + split_and!; simpl_state; done.
  - intros p s h (Hkh & Hkg & Hh & Hg & Hf & Hc) Hnone Hsome Hown.
    assert (p ≠ A) as Hne.
    { intros ->. rewrite (Hh _ Hsome) in Hown. unfold own_change in Hown.
      rewrite Hkh in Hown. by rewrite bool_decide_false in Hown by naive_solver. }
    split_and!; simpl_state; try done.
    intros b. rewrite lookup_insert_ne by done. auto.
  - intros p s h childs n parents b s' (Hkh & Hkg & Hh & Hg & Hf & Hc)
      Hnone Hsome Hown Hgp Hany (Hkh' & Hkg' & Hh' & Hg' & Hf' & Hc').
    split_and!; simpl_state; try done.
    intros b'. destruct (decide (p = A)) as [->|Hne].
    + rewrite (Hg _ Hgp) in Hany. rewrite filter_nil in Hany.
      unfold any_, ret in Hany. rewrite lookup_insert_eq. congruence.
    + rewrite lookup_insert_ne by done. auto.
  - intros s f (Hkh & Hkg & Hh & Hg & Hf & Hc). split_and!; simpl_state; done.
Qed.

Lemma recorded_run_invariant A l : run_invariant w (recorded A l).
Proof.
  unfold recorded. split.
  - by intros p s h Hs _ _.
  - intros p s h files Hs Hnone _ _ _. simpl_state.
    rewrite lookup_insert_ne; [done|]. intros ->. congruence.
  - intros p s h Hs Hnone _ _.
    assert (p ≠ A) by (intros ->; congruence).
    rewrite inspectDependencies_cases.
    destruct (find_dependencies w p) as [files| |tag];
      [|destruct (decide (p ∈ _ignored_files s))|];
      simpl_state; try done; by rewrite lookup_insert_ne.
  - by intros p s h Hs _ _ _.
  - by intros p s h childs n parents b s' _ _ _ _ _ _ Hs.
  - by intros s f Hs.
Qed.

Lemma cold_inv_own_change s p h : cold_inv s → own_change s p h = true.
Proof. intros [Hk _]. unfold own_change. by rewrite Hk, lookup_empty. Qed.

Lemma cold_inv_run_invariant : run_invariant w cold_inv.
Proof.
  split.
  - intros p s h [Hk Hf] _ _. split; simpl_state; done.
  - intros p s h files [Hk Hf] _ _ _ _. split; simpl_state; done.
  - intros p s h [Hk Hf] _ _ _. rewrite inspectDependencies_cases.
    destruct (find_dependencies w p) as [files| |tag];
      [|destruct (decide (p ∈ _ignored_files s))|]; split; simpl_state; done.
  - intros p s h [Hk Hf] _ _ _. split; simpl_state; [done|].
    intros q b. destruct (decide (p = q)) as [->|Hne].
    + rewrite lookup_insert_eq. congruence.
    + rewrite lookup_insert_ne by done. eauto.
  - intros p s h childs n parents b s' Hs _ _ Hown.
    by rewrite (cold_inv_own_change s p h Hs) in Hown.
  - intros s f [Hk Hf]. split; simpl_state; done.
Qed.

Lemma stale_inv_run_invariant A D l :
  read_bytes w D = None → run_invariant w (stale_inv A D l).
Proof.
  intros HD.
  assert (∀ p h, disk_hash w p = Some h → p ≠ D) as Hdisk.
  { intros p h Hd ->. unfold disk_hash in Hd. by rewrite HD in Hd. }
  assert (∀ s p h, stale_inv A D l s → _hashes s !! p = Some h → p ≠ D) as Hhashed.
  { intros s p h (Hh & _) Hp ->. congruence. }
  split.
  - intros p s h (Hh & Hg & Ha) _ Hd. split_and!; simpl_state; try done.
    rewrite lookup_insert_ne; [done|]. by eapply Hdisk.
  - intros p s h files Hs Hnone Hsome _ _.
    pose proof (Hhashed _ _ _ Hs Hsome). destruct Hs as (Hh & Hg & Ha).
    split_and!; simpl_state; try done.
    + by rewrite lookup_insert_ne.
    + rewrite lookup_insert_ne; [done|]. intros ->. congruence.
  - intros p s h Hs Hnone Hsome _.
    pose proof (Hhashed _ _ _ Hs Hsome). destruct Hs as (Hh & Hg & Ha).
    assert (p ≠ A) by (intros ->; congruence).
    rewrite inspectDependencies_cases.
    destruct (find_dependencies w p) as [files| |tag];
      [|destruct (decide (p ∈ _ignored_files s))|];
      split_and!; simpl_state; try done; by rewrite lookup_insert_ne.
  - intros p s h (Hh & Hg & Ha) _ _ _. split_and!; simpl_state; done.
  - intros p s h childs n parents b s' _ _ _ _ _ _ (Hh & Hg & Ha).
    split_and!; simpl_state; done.
  - intros s f (Hh & Hg & Ha). split_and!; simpl_state; done.
Qed.

Lemma ignored_inv_run_invariant :
  (∀ p, is_Some (read_bytes w p) → isfile w p = true) →
  run_invariant w (ignored_inv w).
Proof.
  intros Hreg.
  assert (∀ s p h, ignored_inv w s → _graph s !! p = None →
                   _hashes s !! p = Some h → p ∉ _ignored_files s) as Hfree.
  { intros s p h (Hi & Hh & _) Hg Hp Hin.
    destruct (Hi p Hin) as [[? ?]|Hnf]; [congruence|].
    rewrite Hh in Hnf by eauto. done. }
  split.
  - intros p s h (Hi & Hh & Hc) _ Hd. split_and!; simpl_state; try done.
    intros q. destruct (decide (p = q)) as [->|Hne].
    + intros _. apply Hreg. unfold disk_hash in Hd.
      destruct (read_bytes w q); [eauto|done].
    + rewrite lookup_insert_ne by done. auto.
  - intros p s h files (Hi & Hh & Hc) _ _ _ _. split_and!; simpl_state; try done.
    intros q Hq. destruct (Hi q Hq) as [Hs|?]; [left|by right].
    destruct (decide (p = q)) as [->|Hne].
    + rewrite lookup_insert_eq. eauto.
    + by rewrite lookup_insert_ne.
  - intros p s h Hs Hg Hp _. pose proof (Hfree _ _ _ Hs Hg Hp) as Hnin.
    destruct Hs as (Hi & Hh & Hc).
    assert (∀ c, c ∈ (p, bool_decide (p ∈ _ignored_files s)) :: resolver_calls s →
                 c.2 = false) as Hc'.
    { intros c [->|?]%elem_of_cons; [|auto]. cbn. by rewrite bool_decide_false. }
    assert (∀ files q, q ∈ _ignored_files s →
              is_Some (<[p := files]> (_graph s) !! q) ∨ isfile w q = false) as Hold.
    { intros files q Hq. destruct (Hi q Hq) as [Hs|?]; [left|by right].
      destruct (decide (p = q)) as [->|Hne].
      - rewrite lookup_insert_eq. eauto.
      - by rewrite lookup_insert_ne. }
    rewrite inspectDependencies_cases.
    destruct (find_dependencies w p) as [files| |tag].
    + split_and!; simpl_state; try done.
      intros q [Hq|Hq]%elem_of_union; [|by apply Hold].
      right. apply elem_of_list_to_set, list_elem_of_filter in Hq. tauto.
    + rewrite decide_False by done. split_and!; simpl_state; try done.
      intros q [Hq|Hq]%elem_of_union; [|by apply Hold].
      apply elem_of_singleton in Hq as ->. left. rewrite lookup_insert_eq. eauto.
    + split_and!; simpl_state; done.
  - intros p s h (Hi & Hh & Hc) _ _ _. split_and!; simpl_state; done.
  - intros p s h childs n parents b s' _ _ _ _ _ _ (Hi & Hh & Hc).
    split_and!; simpl_state; done.
  - intros s f (Hi & Hh & Hc). split_and!; simpl_state; done.
Qed.
End invariants.

(** ** The answers of [wantModule] and [wantClass] *)

Section answers.
Context (w : World).

Lemma wantModule_query fuel m s :
  wantModule w fuel m s =
    match getsourcefile w m with
    | LookupRaises e => (Raise e, s)
    | Returns None => (Ok None, s)
    | Returns (Some p) => answer (query w fuel p s)
    end.
Proof.
  unfold wantModule, query, answer. destruct (getsourcefile w m) as [[p|]|e0]; [|done..].
  unfold bind. destruct (updateGraph w fuel p s) as [[[]|e|] s1]; [|done..].
  destruct (dependenciesChanged w fuel p None s1) as [[[]|e|] s2]; done.
Qed.

Lemma wantClass_query fuel cls s :
  wantClass w fuel cls s =
    match getsourcefile w cls with
    | LookupRaises e => (Raise e, s)
    | Returns None => (Ok None, s)
    | Returns (Some p) => answer (query w fuel p s)
    end.
Proof.
  unfold wantClass, query, answer. destruct (getsourcefile w cls) as [[p|]|e0]; [|done..].
  unfold bind. destruct (updateGraph w fuel p s) as [[[]|e|] s1]; [|done..].
  destruct (dependenciesChanged w fuel p None s1) as [[[]|e|] s2]; done.
Qed.
End answers.

(** ** Stability of an unchanged leaf *)

Section stability.
Context (w : World) (A : path) (hA : hash).
Context (HdA : disk_hash w A = Some hA).

Lemma fileChanged_stable s :
  stable_inv A hA s →
  ∃ s1, fileChanged w A s = (Ok false, s1) ∧ stable_inv A hA s1 ∧
        _graph s1 = _graph s ∧ _file_status s1 = _file_status s.
Proof.
  intros Hs.
  pose proof (fileChanged_preserves w _ (stable_inv_run_invariant w A hA HdA) A s Hs)
    as Hpres.
  destruct Hs as (Hkh & Hkg & Hh & Hg & Hf & Hc).
  destruct (fileChanged_cases w s A)
    as [(h & Hsome & Heq) | [(h & Hnone & Hd & Heq) | (Hnone & Hd & Heq)]];
    rewrite Heq in Hpres |- *; cbn [snd] in Hpres.
  - rewrite (Hh _ Hsome), own_change_same by done. eauto.
  - assert (h = hA) as -> by congruence. rewrite own_change_same by done. eauto.
  - unfold disk_hash in HdA. by rewrite Hd in HdA.
Qed.

Lemma updateGraph_stable n s :
  stable_inv A hA s →
  ∃ s1, updateGraph w (S n) A s = (Ok tt, s1) ∧ stable_inv A hA s1 ∧
        _graph s1 !! A = Some [].
Proof.
  intros Hs. destruct (_graph s !! A) as [l|] eqn:Hg.
  - exists s. rewrite (updateGraph_visited w n A s l Hg). split_and!; [done..|].
    destruct Hs as (_ & _ & _ & Hgl & _). by rewrite <- (Hgl _ Hg).
  - destruct (fileChanged_stable s Hs) as (s1 & Hfc & Hs1 & Hg1 & _).
    assert (_known_graph s1 !! A = Some []) as Hk by apply Hs1.
    rewrite (updateGraph_reuse w n A s s1 [] Hg Hfc Hk). cbn [for_]. unfold ret.
    eexists. split; [done|]. split; [|simpl_state; by rewrite lookup_insert_eq].
    destruct (fileChanged_ok w s A false s1 Hfc) as (h & Hh & Hown & _).
    apply (inv_reuse w _ (stable_inv_run_invariant w A hA HdA) A s1 h []); try done.
    by rewrite Hg1.
Qed.

Lemma dependenciesChanged_stable n parents s :
  stable_inv A hA s → _graph s !! A = Some [] →
  ∃ s1, dependenciesChanged w (S n) A parents s = (Ok false, s1).
Proof.
  intros Hs Hg. destruct (_file_status s !! A) as [b|] eqn:Hf.
  - exists s. rewrite (dependenciesChanged_memo w n A parents s b Hf).
    destruct Hs as (_ & _ & _ & _ & Hfs & _). by rewrite (Hfs _ Hf).
  - destruct (fileChanged_stable s Hs) as (s1 & Hfc & Hs1 & Hg1 & _).
    eexists. eapply dependenciesChanged_childs; [done..| |].
    + by rewrite Hg1.
    + by rewrite filter_nil.
Qed.

Lemma query_stable n s :
  stable_inv A hA s →
  (query w (S n) A s).1 = Ok false ∧ _graph (query w (S n) A s).2 !! A = Some [].
Proof.
  intros Hs. unfold query.
  destruct (updateGraph_stable n s Hs) as (s1 & Hu & Hs1 & Hg1).
  rewrite (bind_ok _ _ _ _ _ Hu).
  pose proof (dependenciesChanged_preserves w _ (recorded_run_invariant w A [])
                (S n) A None s1 Hg1) as Hrec.
  destruct (dependenciesChanged_stable n None s1 Hs1 Hg1) as (s2 & Heq).
  by rewrite Heq in Hrec |- *.
Qed.

Lemma fresh_stable_inv s :
  fresh s → resolver_calls s = [] →
  _known_graph s !! A = Some [] → _known_hashes s !! A = Some hA →
  stable_inv A hA s.
Proof.
  intros (Hg & Hh & Hf) Hc Hkg Hkh. split_and!; try done.
  - intros h. by rewrite Hh, lookup_empty.
  - intros l. by rewrite Hg, lookup_empty.
  - intros b. by rewrite Hf, lookup_empty.
  - intros c. rewrite Hc. by intros ?%elem_of_nil.
Qed.
End stability.

(** C4 (stability).  In a run that starts from a cache recording file
    [A] with an empty dependency list and with the hash [A] still has on
    disk, at every point of the run (after any calls [cs]) the query for
    [A] returns the unchanged verdict and leaves [A]'s graph entry equal
    to the prior one, [wantModule] and [wantClass] answer [False] (skip)
    for a unit whose source is [A], and no call to the resolver was made
    for [A], before or during that query. *)
Theorem stability_unchanged_leaf (w : World) (A : path) (hA : hash) (s : plugin) :
  fresh s → resolver_calls s = [] →
  _known_graph s !! A = Some [] →
  _known_hashes s !! A = Some hA → disk_hash w A = Some hA →
  ∀ cs fuel, 0 < fuel →
    (query w fuel A (run w cs s)).1 = Ok false ∧
    _graph (query w fuel A (run w cs s)).2 !! A = _known_graph s !! A ∧
    (∀ m, getsourcefile w m = Returns (Some A) →
          (wantModule w fuel m (run w cs s)).1 = Ok (Some false) ∧
          (wantClass w fuel m (run w cs s)).1 = Ok (Some false)) ∧
    (∀ c, c ∈ resolver_calls (run w cs s) → c.1 ≠ A) ∧
    (∀ c, c ∈ resolver_calls (query w fuel A (run w cs s)).2 → c.1 ≠ A).
Proof.
  intros Hfresh Hcalls Hkg Hkh Hd cs fuel Hfuel.
  pose proof (stable_inv_run_invariant w A hA Hd) as HI.
  assert (stable_inv A hA (run w cs s)) as Hs.
  { apply (run_preserves w _ HI). by apply fresh_stable_inv. }
  destruct fuel as [|n]; [lia|].
  destruct (query_stable w A hA Hd n _ Hs) as [Hq Hg].
  split_and!.
  - done.
  - by rewrite Hkg.
  - intros m Hm. rewrite wantModule_query, wantClass_query, Hm.
    destruct (query w (S n) A (run w cs s)) as [[c|e|] s']; simplify_eq/=. done.
  - apply Hs.
  - apply (query_preserves w _ HI (S n) A _ Hs).
Qed.

(** C4, at [leaf_world]: the leaf is queried after the new file that
    imports it. *)
Lemma stability_unchanged_leaf_witness :
  (query leaf_world 2 "A"
     (run leaf_world [WantModule 3 (PyModule "B")] leaf_start)).1 = Ok false ∧
  Forall (λ c, c.1 ≠ "A")
    (resolver_calls (run leaf_world [WantModule 3 (PyModule "B")] leaf_start)).
Proof.
  destruct (stability_unchanged_leaf leaf_world "A" "a" leaf_start)
    with (cs := [WantModule 3 (PyModule "B")]) (fuel := 2) as (Hq & _ & _ & Hc & _);
    [split_and!; reflexivity|reflexivity..|lia|].
  split; [exact Hq|]. apply Forall_forall. exact Hc.
Defined.

(** ** Cold start *)

Section cold_start.
Context (w : World).

Lemma fileChanged_cold s p :
  cold_inv s → is_Some (read_bytes w p) → (fileChanged w p s).1 = Ok true.
Proof.
  intros Hs [bytes Hr].
  destruct (fileChanged_cases w s p)
    as [(h & Hsome & ->) | [(h & Hnone & Hd & ->) | (Hnone & Hd & ->)]]; cbn [fst].
  - by rewrite cold_inv_own_change.
  - by rewrite cold_inv_own_change.
  - congruence.
Qed.

Lemma dependenciesChanged_cold_verdict n p parents s b s' :
  cold_inv s → dependenciesChanged w n p parents s = (Ok b, s') → b = true.
Proof.
  intros Hs. destruct n as [|n]; [done|].
  cbn [dependenciesChanged]. unfold bind at 1, get.
  destruct (_file_status s !! p) as [b0|] eqn:Hf.
  - intros [= <- <-]. destruct Hs as [_ Hfs]. eauto.
  - unfold bind at 1. destruct (fileChanged w p s) as [[c|e|] s1] eqn:Hc; [|done..].
    apply fileChanged_ok in Hc as (h & Hh & -> & Hs1).
    assert (cold_inv s1) as Hcold.
    { destruct Hs1 as [->|(_ & _ & ->)]; [done|]. destruct Hs. by split. }
    rewrite (cold_inv_own_change s1 p h Hcold).
    unfold bind at 1, ret at 1. unfold bind at 1, modify, ret. congruence.
Qed.

Lemma dependenciesChanged_cold n p parents s :
  cold_inv s → is_Some (read_bytes w p) →
  (dependenciesChanged w (S n) p parents s).1 = Ok true.
Proof.
  intros Hs Hr. destruct (_file_status s !! p) as [b|] eqn:Hf.
  - rewrite (dependenciesChanged_memo w n p parents s b Hf). cbn [fst].
    destruct Hs as [_ Hfs]. by rewrite (Hfs _ _ Hf).
  - pose proof (fileChanged_cold s p Hs Hr) as Hc.
    destruct (fileChanged w p s) as [r s1] eqn:Heq. cbn [fst] in Hc. subst r.
    by rewrite (dependenciesChanged_own w n p parents s s1 Hf Heq).
Qed.

Lemma query_cold_verdict n p s b s' :
  cold_inv s → query w n p s = (Ok b, s') → b = true.
Proof.
  intros Hs. unfold query, bind.
  pose proof (updateGraph_preserves w _ (cold_inv_run_invariant w) n p s Hs) as Hu.
  destruct (updateGraph w n p s) as [[[]|e|] s1]; [|done..].
  by apply dependenciesChanged_cold_verdict.
Qed.

Lemma configure_absent wd s :
  isfile w (join wd (hash_file s)) = false →
  configure w wd s = (Ok tt, set_hash_file (join wd (hash_file s)) s).
Proof.
  intros Hf. unfold configure. unfold bind at 1, get. unfold bind at 1, modify.
  by rewrite Hf.
Qed.
End cold_start.

(** C7, as stated, fails: with the cache file present and not
    unpicklable, [configure] raises. *)
Lemma corrupt_cache_counterexample :
  isfile corrupt_cache_world (join "/proj" (hash_file initial)) = true ∧
  pickle_load corrupt_cache_world (join "/proj" (hash_file initial))
    = LoadRaises "truncated pickle" ∧
  (configure corrupt_cache_world "/proj" initial).1
    = Raise (UnpicklingError "truncated pickle").
Proof. split_and!; by vm_compute. Qed.

(** C7, amended (cold start).  When the cache file is absent,
    [configure] does not raise and leaves [_known_hashes] and
    [_known_graph] empty; from then on, at every point of the run, every
    readable file is judged changed by [fileChanged] and by
    [dependenciesChanged], and neither [wantModule] nor [wantClass] ever
    answers [False] (skip).  When the cache file is present and [load]
    raises on it, that exception escapes from [configure]. *)
Theorem cold_start_absent_cache (w : World) (wd : path) :
  (isfile w (join wd (hash_file initial)) = false →
   (configure w wd initial).1 = Ok tt ∧
   _known_hashes (configure w wd initial).2 = ∅ ∧
   _known_graph (configure w wd initial).2 = ∅ ∧
   ∀ cs,
     (∀ p, is_Some (read_bytes w p) →
           (fileChanged w p (run w cs (configure w wd initial).2)).1 = Ok true) ∧
     (∀ fuel p parents, 0 < fuel → is_Some (read_bytes w p) →
           (dependenciesChanged w fuel p parents
              (run w cs (configure w wd initial).2)).1 = Ok true) ∧
     (∀ fuel m,
           (wantModule w fuel m (run w cs (configure w wd initial).2)).1
             ≠ Ok (Some false) ∧
           (wantClass w fuel m (run w cs (configure w wd initial).2)).1
             ≠ Ok (Some false))) ∧
  (∀ tag,
     isfile w (join wd (hash_file initial)) = true →
     pickle_load w (join wd (hash_file initial)) = LoadRaises tag →
     (configure w wd initial).1 = Raise (UnpicklingError tag)).
Proof.
  split.
  - intros Habsent. rewrite (configure_absent w wd initial Habsent). cbn [fst snd].
    split_and!; [done..|]. intros cs.
    assert (cold_inv (run w cs (set_hash_file (join wd (hash_file initial)) initial)))
      as Hs.
    { apply (run_preserves w _ (cold_inv_run_invariant w)). split; [done|].
      intros p b. unfold initial. simpl_state. by rewrite lookup_empty. }
    split_and!.
    + intros p Hp. by apply fileChanged_cold.
    + intros [|n] p parents Hn Hp; [lia|]. by apply dependenciesChanged_cold.
    + intros fuel m. rewrite wantModule_query, wantClass_query.
      destruct (getsourcefile w m) as [[p|]|e0]; [|done..].
      destruct (query w fuel p _) as [[b|e|] s'] eqn:Hq; cbn; try done.
      by rewrite (query_cold_verdict w fuel p _ b s' Hs Hq).
  - intros tag Hpresent Hload. unfold configure.
    unfold bind at 1, get. unfold bind at 1, modify.
    by rewrite Hpresent, Hload.
Qed.

(** C7 amended, at [chain_world] (which has no cache file). *)
Lemma cold_start_absent_cache_witness :
  (configure chain_world "/proj" initial).1 = Ok tt ∧
  _known_hashes (configure chain_world "/proj" initial).2 = ∅.
Proof.
  destruct (proj1 (cold_start_absent_cache chain_world "/proj")) as (Hc & Hk & _);
    [by vm_compute|].
  exact (conj Hc Hk).
Defined.

(** ** Stale edges of a reused edge list *)

Section stale_edges.
Context (w : World) (A D : path) (l : list path).
Context (HD : read_bytes w D = None).

Lemma for__app {X} (l1 l2 : list X) (body : X → M unit) s :
  for_ (l1 ++ l2) body s = (for_ l1 body ;; for_ l2 body) s.
Proof.
  revert s. induction l1 as [|x l1 IH]; intros s; [done|].
  cbn [for_ app]. unfold bind in *.
  destruct (body x s) as [[[]|e|] s1]; [|done..]. apply IH.
Qed.

Lemma updateGraph_stale n s :
  stale_inv A D l s → updateGraph w (S n) D s = (Raise (IOError D), s).
Proof.
  intros (Hh & Hg & _). apply updateGraph_hash_fails; [done|].
  by apply fileChanged_unreadable.
Qed.

Lemma for__stale n l' s :
  stale_inv A D l s → D ∈ l' → ∀ v, (for_ l' (updateGraph w n) s).1 ≠ Ok v.
Proof.
  revert s. induction l' as [|x l' IH]; intros s Hs Hin v; [by apply elem_of_nil in Hin|].
  cbn [for_]. unfold bind.
  pose proof (updateGraph_preserves w _ (stale_inv_run_invariant w A D l HD) n x s Hs)
    as Hpres.
  destruct (updateGraph w n x s) as [[[]|e|] s1] eqn:Hu; cbn [fst snd] in *; [|done..].
  apply elem_of_cons in Hin as [<-|Hin]; [|by apply IH].
  destruct n as [|n]; [done|]. by rewrite (updateGraph_stale n s Hs) in Hu.
Qed.
End stale_edges.

(** ** The merge at the end of the run *)

Section merge.

Lemma for__modify {X} (l : list X) (f : X → plugin → plugin) s :
  for_ l (λ x, modify (f x)) s = (Ok tt, foldl (λ s x, f x s) s l).
Proof.
  revert s. induction l as [|x l IH]; intros s; [done|].
  cbn [for_ foldl]. unfold bind at 1, modify at 1. apply IH.
Qed.

Lemma foldl_set_hashes {X} (l : list X) (f : X → gmap path hash → gmap path hash) s :
  foldl (λ s x, set_hashes (f x (_hashes s)) s) s l =
    set_hashes (foldl (λ m x, f x m) (_hashes s) l) s.
Proof.
  revert s. induction l as [|x l IH]; intros s; [by destruct s|].
  cbn [foldl]. by rewrite IH.
Qed.

Lemma foldl_set_graph {X} (l : list X)
    (f : X → gmap path (list path) → gmap path (list path)) s :
  foldl (λ s x, set_graph (f x (_graph s)) s) s l =
    set_graph (foldl (λ m x, f x m) (_graph s) l) s.
Proof.
  revert s. induction l as [|x l IH]; intros s; [by destruct s|].
  cbn [foldl]. by rewrite IH.
Qed.

Lemma foldl_setdefault {V} (l : list (path * V)) (m : gmap path V) :
  foldl (λ m kv, setdefault kv.1 kv.2 m) m l = m ∪ list_to_map l.
Proof.
  revert m. induction l as [|[k v] l IH]; intros m.
  - cbn. by rewrite (right_id_L ∅ (∪)).
  - cbn [foldl fst snd list_to_map foldr]. rewrite IH. apply map_eq. intros i.
    rewrite !lookup_union. unfold setdefault.
    destruct (decide (i = k)) as [->|Hne].
    + rewrite lookup_insert_eq. destruct (m !! k) as [x|] eqn:Hm.
      * rewrite Hm. by destruct (list_to_map l !! k).
      * rewrite lookup_insert_eq. by destruct (list_to_map l !! k).
    + rewrite (lookup_insert_ne _ k i) by done.
      destruct (m !! k); [done|]. by rewrite lookup_insert_ne.
Qed.

Lemma setdefault_all {V} (m known : gmap path V) :
  foldl (λ m kv, setdefault kv.1 kv.2 m) m (map_to_list known) = m ∪ known.
Proof. by rewrite foldl_setdefault, list_to_map_to_list. Qed.

Lemma lookup_foldl_pop {V} (l : list (option path)) (m : gmap path V) k :
  foldl (λ m x, pop x m) m l !! k = if decide (Some k ∈ l) then None else m !! k.
Proof.
  revert m. induction l as [|x l IH]; intros m.
  - cbn. by rewrite decide_False by apply not_elem_of_nil.
  - cbn [foldl]. rewrite IH. destruct (decide (Some k ∈ l)) as [Hin|Hnin].
    + by rewrite decide_True by (by right).
    + destruct x as [p|]; cbn [pop].
      * destruct (decide (p = k)) as [->|Hne].
        -- rewrite lookup_delete_eq. by rewrite decide_True by left.
        -- rewrite lookup_delete_ne by done.
           rewrite decide_False; [done|]. intros [?|?]%elem_of_cons; congruence.
      * rewrite decide_False; [done|]. intros [?|?]%elem_of_cons; congruence.
Qed.

Lemma pop_all (failed : gset (option path)) (m : gmap path hash) :
  foldl (λ m x, pop x m) m (elements failed) = filter (λ kv, Some kv.1 ∉ failed) m.
Proof.
  apply map_eq. intros k. rewrite lookup_foldl_pop, map_lookup_filter.
  destruct (decide (Some k ∈ elements failed)) as [Hin|Hnin].
  - apply elem_of_elements in Hin. destruct (m !! k); cbn; [|done].
    by rewrite option_guard_False by (cbn; tauto).
  - rewrite elem_of_elements in Hnin. destruct (m !! k); cbn; [|done].
    by rewrite option_guard_True.
Qed.

Lemma for__hashes {X} (l : list X) (f : X → gmap path hash → gmap path hash) s :
  for_ l (λ x, modify (λ s, set_hashes (f x (_hashes s)) s)) s =
    (Ok tt, set_hashes (foldl (λ m x, f x m) (_hashes s) l) s).
Proof. rewrite for__modify. f_equal. apply (foldl_set_hashes l f). Qed.

Lemma for__graph {X} (l : list X)
    (f : X → gmap path (list path) → gmap path (list path)) s :
  for_ l (λ x, modify (λ s, set_graph (f x (_graph s)) s)) s =
    (Ok tt, set_graph (foldl (λ m x, f x m) (_graph s) l) s).
Proof. rewrite for__modify. f_equal. apply (foldl_set_graph l f). Qed.

Lemma finalize_closed_form s :
  finalize s =
    (Ok (Persisted (merged_hashes s) (merged_graph s)),
     set_graph (merged_graph s) (set_hashes (merged_hashes s) s)).
Proof.
  unfold finalize. unfold bind at 1, get.
  rewrite (bind_ok _ _ _ _ _
             (for__hashes _ (λ kv m, setdefault kv.1 kv.2 m) _)), setdefault_all.
  rewrite (bind_ok _ _ _ _ _
             (for__graph _ (λ kv m, setdefault kv.1 kv.2 m) _)), setdefault_all.
  rewrite (bind_ok _ _ _ _ _ (for__hashes _ (λ x m, pop x m) _)), pop_all.
  unfold bind, get, ret. by destruct s.
Qed.
End merge.

(** C3 (merge correctness).  [finalize] does not raise, and what it
    dumps is: for the hashes, this run's entries plus the prior entries
    for keys this run's map lacks, with every key of the failed set
    removed; for the graph, this run's entries plus the prior entries
    for keys this run's map lacks.  Key by key: no hash of a failed file
    survives; for any other key the hash computed this run is kept, and
    a prior hash is kept when the run computed none; a graph entry of
    this run is kept, and a prior one is kept when the run has none.
    A file recorded by [afterTest] for a failed test has no hash in what
    is dumped. *)
Theorem finalize_merge (s : plugin) :
  ∃ d, (finalize s).1 = Ok d ∧
    hashes d = merged_hashes s ∧
    graph d = merged_graph s ∧
    _hashes (finalize s).2 = hashes d ∧
    _graph (finalize s).2 = graph d ∧
    (∀ k, Some k ∈ _failed_test_modules s → hashes d !! k = None) ∧
    (∀ k v, Some k ∉ _failed_test_modules s →
            _hashes s !! k = Some v → hashes d !! k = Some v) ∧
    (∀ k, Some k ∉ _failed_test_modules s →
          _hashes s !! k = None → hashes d !! k = _known_hashes s !! k) ∧
    (∀ k v, _graph s !! k = Some v → graph d !! k = Some v) ∧
    (∀ k, _graph s !! k = None → graph d !! k = _known_graph s !! k) ∧
    (∀ t k, passed t = Some false → address_file t = Some k →
            ∃ d', (finalize (afterTest t s).2).1 = Ok d' ∧ hashes d' !! k = None).
Proof.
  rewrite finalize_closed_form. eexists. split; [done|]. cbn [fst snd hashes graph].
  split_and!; try done.
  - intros k Hk. apply map_lookup_filter_None. right. intros v _. cbn. tauto.
  - intros k v Hk Hv. apply map_lookup_filter_Some. split; [|done].
    apply lookup_union_Some_raw. by left.
  - intros k Hk Hnone. unfold merged_hashes. rewrite map_lookup_filter.
    rewrite (lookup_union_r _ _ _ Hnone).
    destruct (_known_hashes s !! k); cbn; [|done]. by rewrite option_guard_True.
  - intros k v Hv. apply lookup_union_Some_raw. by left.
  - intros k Hnone. unfold merged_graph. by rewrite lookup_union_r.
  - intros t k Hfailed Hk. rewrite finalize_closed_form. eexists. split; [done|].
    cbn [hashes]. apply map_lookup_filter_None. right. intros v _. cbn.
    unfold afterTest. rewrite bool_decide_true by done.
    unfold bind, get, modify. simpl_state. rewrite Hk. set_solver.
Qed.

(** ** Chains and cycles *)

Section chain.
Context (w : World).

Lemma query_chain_A_after_B s A B C hA hB hC hC' n :
  fresh s →
  _known_graph s !! A = Some [B] → _known_graph s !! B = Some [C] →
  _known_graph s !! C = Some [] →
  disk_hash w A = Some hA → _known_hashes s !! A = Some hA →
  disk_hash w B = Some hB → _known_hashes s !! B = Some hB →
  disk_hash w C = Some hC' → _known_hashes s !! C = Some hC → hC' ≠ hC →
  find_dependencies w C = ResFiles [] →
  (query w (S (S n)) A (query w (S (S n)) B s).2).1 = Ok true.
Proof.
  intros Hfresh HkA HkB HkC HdA HhA HdB HhB HdC HhC Hne Hr.
  rewrite (query_chain_B w s A B C hA hB hC hC' n) by done.
  destruct s as [hf g h kg kh fl fs ig rc]. simpl_state.
  assert (A ≠ C) by (intros ->; congruence).
  assert (B ≠ C) by (intros ->; congruence).
  assert (A ≠ B) by (intros ->; congruence).
  unfold query.
  erewrite bind_ok; last first.
  { eval_reuse. eval_visited. reflexivity. }
  eval_childs.
  2: { eval_filter. eval_memo. reflexivity. }
  reflexivity.
Qed.
End chain.

(** C1 (transitive propagation).  For a chain [A -> B -> C] recorded in
    the prior cache, where only [C]'s content has changed and [C] still
    has no dependencies: the query for [A], the query for [B] and the
    query for [C] each report "changed", asked first or after one
    another, so [wantModule] and [wantClass] do not answer [False]; and
    [dependenciesChanged] on [C] reports "changed" from the hash
    difference alone: in any state where [C] is not yet hashed or judged
    it returns [True] and only records [C]'s hash and verdict, whatever
    the graph holds for [C]. *)
Theorem chain_propagation (w : World) (s : plugin) (A B C : path)
    (hA hB hC hC' : hash) :
  fresh s →
  _known_graph s !! A = Some [B] → _known_graph s !! B = Some [C] →
  _known_graph s !! C = Some [] →
  disk_hash w A = Some hA → _known_hashes s !! A = Some hA →
  disk_hash w B = Some hB → _known_hashes s !! B = Some hB →
  disk_hash w C = Some hC' → _known_hashes s !! C = Some hC → hC' ≠ hC →
  find_dependencies w C = ResFiles [] →
  ∀ fuel, 3 ≤ fuel →
    (query w fuel A s).1 = Ok true ∧
    (query w fuel B s).1 = Ok true ∧
    (query w fuel C s).1 = Ok true ∧
    (query w fuel B (query w fuel A s).2).1 = Ok true ∧
    (query w fuel C (query w fuel A s).2).1 = Ok true ∧
    (query w fuel A (query w fuel B s).2).1 = Ok true ∧
    (∀ m p, getsourcefile w m = Returns (Some p) → p ∈ [A; B; C] →
            (wantModule w fuel m s).1 = Ok None ∧
            (wantClass w fuel m s).1 = Ok None) ∧
    (∀ s' parents,
        _known_hashes s' = _known_hashes s →
        _file_status s' !! C = None → _hashes s' !! C = None →
        dependenciesChanged w fuel C parents s' =
          (Ok true,
           set_file_status (<[C := true]> (_file_status s'))
             (set_hashes (<[C := hC']> (_hashes s')) s'))).
Proof.
  intros Hfresh HkA HkB HkC HdA HhA HdB HhB HdC HhC Hne Hr fuel Hfuel.
  destruct fuel as [|[|[|n]]]; try lia.
  assert (A ≠ C) by (intros ->; congruence).
  assert (B ≠ C) by (intros ->; congruence).
  assert (A ≠ B) by (intros ->; congruence).
  pose proof (query_chain_A w s A B C hA hB hC hC' n
                Hfresh HkA HkB HkC HdA HhA HdB HhB HdC HhC Hne Hr) as HA.
  pose proof (query_chain_B w s A B C hA hB hC hC' (S n)
                Hfresh HkA HkB HkC HdA HhA HdB HhB HdC HhC Hne Hr) as HB.
  pose proof (query_chain_C w s C hC hC' (S (S n)) Hfresh HdC HhC Hne Hr) as HC.
  split_and!.
  - by rewrite HA.
  - by rewrite HB.
  - done.
  - rewrite HA. cbn [snd]. erewrite query_memo; [done|map_lookup..].
  - rewrite HA. cbn [snd]. erewrite query_memo; [done|map_lookup..].
  - by apply (query_chain_A_after_B w s A B C hA hB hC hC' (S n)).
  - intros m p Hm Hp. rewrite wantModule_query, wantClass_query, Hm.
    apply elem_of_cons in Hp as [->|Hp]; [by rewrite HA|].
    apply elem_of_cons in Hp as [->|Hp]; [by rewrite HB|].
    apply list_elem_of_singleton in Hp as ->.
    destruct (query w (S (S (S n))) C s) as [r s']. cbn [fst] in HC. by subst r.
  - intros s' parents Hk Hf Hh.
    apply (dependenciesChanged_direct w s' C hC' hC); try done. by rewrite Hk.
Qed.

(** C1, at the chain of [chain_world]. *)
Lemma chain_propagation_witness :
  (query chain_world 3 "A" chain_start).1 = Ok true ∧
  (query chain_world 3 "B" chain_start).1 = Ok true ∧
  (query chain_world 3 "C" chain_start).1 = Ok true.
Proof.
  pose proof (chain_propagation chain_world chain_start "A" "B" "C" "a" "b" "c" "c2") as H.
  destruct H with (fuel := 3) as (HA & HB & HC & _);
    [split_and!; reflexivity|reflexivity..|discriminate|reflexivity|lia|].
  exact (conj HA (conj HB HC)).
Defined.

(** C2 (cycle termination).  For a cycle [A -> B -> A] recorded in the
    prior graph, neither file changed: with any recursion budget of at
    least 3 the query for [A] returns, with the unchanged verdict, and
    [wantModule] and [wantClass] answer [False] (skip). *)
Theorem cycle_terminates_unchanged (w : World) (s : plugin) (A B : path)
    (hA hB : hash) :
  fresh s →
  _known_graph s !! A = Some [B] → _known_graph s !! B = Some [A] →
  disk_hash w A = Some hA → _known_hashes s !! A = Some hA →
  disk_hash w B = Some hB → _known_hashes s !! B = Some hB →
  ∀ fuel, 3 ≤ fuel →
    (query w fuel A s).1 = Ok false ∧
    (∀ m, getsourcefile w m = Returns (Some A) →
          (wantModule w fuel m s).1 = Ok (Some false) ∧
          (wantClass w fuel m s).1 = Ok (Some false)).
Proof.
  intros Hfresh HkA HkB HdA HhA HdB HhB fuel Hfuel.
  destruct fuel as [|[|[|n]]]; try lia.
  pose proof (query_cycle w s A B hA hB n Hfresh HkA HkB HdA HhA HdB HhB) as Hq.
  split; [done|]. intros m Hm. rewrite wantModule_query, wantClass_query, Hm.
  destruct (query w (S (S (S n))) A s) as [r s']. cbn [fst] in Hq. by subst r.
Qed.

(** C2, at the cycle of [cycle_world]. *)
Lemma cycle_terminates_unchanged_witness :
  (query cycle_world 3 "A" cycle_start).1 = Ok false ∧
  (wantModule cycle_world 3 (PyModule "A") cycle_start).1 = Ok (Some false).
Proof.
  pose proof (cycle_terminates_unchanged cycle_world cycle_start "A" "B" "a" "b") as H.
  destruct H with (fuel := 3) as (HA & Hm);
    [split_and!; reflexivity|reflexivity..|lia|].
  split; [exact HA|]. by apply (Hm (PyModule "A")).
Defined.

(** ** The resolver adapter and the ignored set *)

Section adapter.
Context (w : World).

(** The first structural failure on a path marks it ignored and makes
    it a leaf. *)
Lemma inspectDependencies_TypeError_first s p :
  find_dependencies w p = ResTypeError → p ∉ _ignored_files s →
  inspectDependencies w p s =
    (Ok [],
     set_ignored ({[ p ]} ∪ _ignored_files s)
       (set_calls ((p, false) :: resolver_calls s) s)).
Proof.
  intros Hr Hp. rewrite inspectDependencies_cases, Hr.
  by rewrite decide_False, bool_decide_false by done.
Qed.

(** A structural failure on a path that is already ignored escapes as
    the unbound local [files]. *)
Lemma inspectDependencies_TypeError_again s p :
  find_dependencies w p = ResTypeError → p ∈ _ignored_files s →
  inspectDependencies w p s =
    (Raise (UnboundLocalError "files"),
     set_calls ((p, true) :: resolver_calls s) s).
Proof.
  intros Hr Hp. rewrite inspectDependencies_cases, Hr.
  by rewrite decide_True, bool_decide_true by done.
Qed.

(** The edges [inspectDependencies] returns are regular files that are
    not ignored when it returns. *)
Lemma inspectDependencies_edges s p files s' :
  inspectDependencies w p s = (Ok files, s') →
  ∀ f, f ∈ files → (f ∉ _ignored_files s') ∧ isfile w f = true.
Proof.
  rewrite inspectDependencies_cases.
  destruct (find_dependencies w p) as [fs| |tag].
  - intros [= <- <-] f [[Hf Hnin] _]%list_elem_of_filter. split; [|done].
    simpl_state. intros [Hin|Hin]%elem_of_union; [|done].
    apply elem_of_list_to_set, list_elem_of_filter in Hin. destruct Hin. congruence.
  - destruct (decide (p ∈ _ignored_files s)); [done|].
    intros [= <- <-] f Hf. by apply elem_of_nil in Hf.
  - done.
Qed.
End adapter.

(** C5 (structural failure on an already ignored path).  With ["P"]
    already in [_ignored_files] and the resolver raising [TypeError] on
    it, [inspectDependencies("P")] does not return an empty list: it
    raises [UnboundLocalError].  The same happens through [wantModule]
    when ["P"] was ignored as a non-regular path reported for ["Q"] and
    is then queried itself. *)
Theorem inspectDependencies_TypeError_on_ignored :
  find_dependencies broken_import_world "P" = ResTypeError ∧
  "P" ∈ _ignored_files (set_ignored {["P"]} initial) ∧
  (inspectDependencies broken_import_world "P" (set_ignored {["P"]} initial)).1
    = Raise (UnboundLocalError "files") ∧
  (wantModule special_file_world 3 (PyModule "Q") initial).1 = Ok None ∧
  "P" ∈ _ignored_files (wantModule special_file_world 3 (PyModule "Q") initial).2 ∧
  (wantModule special_file_world 3 (PyModule "P")
     (wantModule special_file_world 3 (PyModule "Q") initial).2).1
    = Raise (UnboundLocalError "files").
Proof.
  split_and!.
  - reflexivity.
  - set_solver.
  - by rewrite (inspectDependencies_TypeError_again broken_import_world _ "P")
      by (reflexivity || set_solver).
  - by vm_compute.
  - apply (bool_decide_unpack _). by vm_compute.
  - by vm_compute.
Qed.

(** C6, as stated, fails: after a cold query of ["A"], which imports
    ["P"] on which the resolver fails, ["P"] is ignored and is an edge
    of ["A"]; when ["P"] is ignored first and ["A"] is unchanged, the
    edge list copied from the prior graph holds the ignored ["P"]; and
    where a path can be read without being a regular file, the resolver
    is called on it after it was ignored. *)
Lemma ignored_path_edge_counterexample :
  ("P" ∈ _ignored_files
          (run broken_import_world [WantModule 3 (PyModule "A")] initial) ∧
   _graph (run broken_import_world [WantModule 3 (PyModule "A")] initial) !! "A"
     = Some ["P"]) ∧
  ("P" ∈ _ignored_files
          (run broken_import_world [WantModule 3 (PyModule "P")] broken_import_start) ∧
   _graph (run broken_import_world
             [WantModule 3 (PyModule "P"); WantModule 3 (PyModule "A")]
             broken_import_start) !! "A" = Some ["P"]) ∧
  ("P" ∈ _ignored_files
          (run special_file_world [WantModule 3 (PyModule "Q")] initial) ∧
   resolver_calls
     (run special_file_world
        [WantModule 3 (PyModule "Q"); WantModule 3 (PyModule "P")] initial)
     = [("P", true); ("Q", false)]).
Proof.
  split_and!; try (apply (bool_decide_unpack _)); by vm_compute.
Qed.

(** C6, amended.  Where every readable path is a regular file, in a run
    that starts with nothing visited and nothing ignored, the resolver
    is never called on a path that is ignored at the time of the call;
    every edge list [inspectDependencies] returns holds only regular
    files that are not ignored when it returns; and an edge list, once
    stored in the current graph, is never rewritten later in the run. *)
Theorem ignored_paths_not_resolved_again (w : World) (s : plugin) :
  (∀ p, is_Some (read_bytes w p) → isfile w p = true) →
  fresh s → _ignored_files s = ∅ → resolver_calls s = [] →
  (∀ cs c, c ∈ resolver_calls (run w cs s) → c.2 = false) ∧
  (∀ s1 p files s2,
      inspectDependencies w p s1 = (Ok files, s2) →
      ∀ f, f ∈ files → (f ∉ _ignored_files s2) ∧ isfile w f = true) ∧
  (∀ cs cs' p files,
      _graph (run w cs s) !! p = Some files →
      _graph (run w (cs ++ cs') s) !! p = Some files).
Proof.
  intros Hreg (Hg & Hh & Hf) Hi Hc. split_and!.
  - intros cs.
    apply (run_preserves w _ (ignored_inv_run_invariant w Hreg) cs s).
    split_and!.
    + intros p. rewrite Hi. set_solver.
    + intros p. rewrite Hh, lookup_empty. by intros [? ?].
    + intros c. rewrite Hc. by intros ?%elem_of_nil.
  - apply inspectDependencies_edges.
  - intros cs cs' p files Hp. unfold run. rewrite foldl_app.
    by apply (run_preserves w _ (recorded_run_invariant w p files)).
Qed.

Lemma toy_world_regular files deps cache p :
  is_Some (read_bytes (toy_world files ∅ deps cache) p) →
  isfile (toy_world files ∅ deps cache) p = true.
Proof.
  cbn. intros Hp%fmap_is_Some. apply bool_decide_eq_true. split; [done|set_solver].
Qed.

(** C6 amended, at [broken_import_world]: ["A"] is queried, then ["P"],
    on which the resolver failed while ["A"] was being resolved. *)
Lemma ignored_paths_not_resolved_again_witness :
  Forall (λ c, c.2 = false)
    (resolver_calls
       (run broken_import_world
          [WantModule 3 (PyModule "A"); WantModule 3 (PyModule "P")] initial)).
Proof.
  apply Forall_forall. intros c.
  refine (proj1 (ignored_paths_not_resolved_again broken_import_world initial
                   _ _ _ _) _ c).
  - apply toy_world_regular.
  - split_and!; reflexivity.
  - reflexivity.
  - reflexivity.
Defined.

(** ** Modules and classes *)

(** C10 (module and class queries agree).  For a module and a class
    with the same source lookup, [wantModule] and [wantClass] return the
    same value and leave the same state; when the source is unknown both
    answer [None] and do not touch the state. *)
Theorem wantModule_wantClass_agree (w : World) (fuel : nat) (m cls : pyobject)
    (s : plugin) :
  getsourcefile w m = getsourcefile w cls →
  wantModule w fuel m s = wantClass w fuel cls s ∧
  (getsourcefile w m = Returns None →
     wantModule w fuel m s = (Ok None, s) ∧ wantClass w fuel cls s = (Ok None, s)).
Proof.
  intros Heq. split.
  - unfold wantModule, wantClass. by rewrite Heq.
  - intros Hm. unfold wantModule, wantClass. by rewrite <- Heq, Hm.
Qed.

(** C10, at the module ["A"] and a class defined in it. *)
Lemma wantModule_wantClass_agree_witness :
  wantModule cycle_world 3 (PyModule "A") cycle_start
    = wantClass cycle_world 3 (PyClass "A" "TestA") cycle_start ∧
  wantModule cycle_world 3 (PyModule "") cycle_start
    = wantClass cycle_world 3 (PyClass "" "TestA") cycle_start.
Proof.
  split.
  - exact (proj1 (wantModule_wantClass_agree cycle_world 3 (PyModule "A")
                    (PyClass "A" "TestA") cycle_start eq_refl)).
  - exact (proj1 (wantModule_wantClass_agree cycle_world 3 (PyModule "")
                    (PyClass "" "TestA") cycle_start eq_refl)).
Defined.

(** ** The memo and the order of the queries *)

(** A verdict memoized while a cycle edge was cut depends on the order
    of the queries.  In [diamond_world], ["B"] imports ["A"], which
    imports the changed ["C"]: asked first, the query for ["B"] reports
    "changed"; asked after the query for ["A"], during which ["B"] was
    judged with its edge to ["A"] cut, it reports "unchanged". *)
Theorem memoized_verdict_depends_on_order :
  (query diamond_world 3 "B" diamond_start).1 = Ok true ∧
  (query diamond_world 3 "A" diamond_start).1 = Ok true ∧
  (query diamond_world 3 "B" (query diamond_world 3 "A" diamond_start).2).1 = Ok false ∧
  (wantModule diamond_world 3 (PyModule "B")
     (wantModule diamond_world 3 (PyModule "A") diamond_start).2).1 = Ok (Some false).
Proof. split_and!; by vm_compute. Qed.

(** ** Query invariants *)

Section query_invariants.
Context (w : World).

Lemma for__preserves_in {X} (I : plugin → Prop) (l : list X) (body : X → M unit) :
  (∀ x, x ∈ l → preserves I (body x)) → preserves I (for_ l body).
Proof.
  induction l as [|x l IH]; intros Hbody s Hs; [done|].
  cbn [for_]. unfold bind.
  pose proof (Hbody x ltac:(left) s Hs) as Hx.
  destruct (body x s) as [[[]|e|] s1]; cbn [snd] in *; [|done..].
  apply IH; [|done]. intros y Hy. apply Hbody. by right.
Qed.

Lemma any__preserves_in {X} (I : plugin → Prop) (l : list X) (f : X → M bool) :
  (∀ x, x ∈ l → preserves I (f x)) → preserves I (any_ f l).
Proof.
  induction l as [|x l IH]; intros Hf s Hs; [done|].
  cbn [any_]. unfold bind.
  pose proof (Hf x ltac:(left) s Hs) as Hx.
  destruct (f x s) as [[[]|e|] s1]; cbn [snd] in *; [done| |done..].
  apply IH; [|done]. intros y Hy. apply Hf. by right.
Qed.

(** While the dependencies of [p] are inspected, [p] is among the
    ancestors, and no verdict is memoized for it. *)
Lemma dependenciesChanged_guard n q parents p :
  p ∈ default [] parents → p ≠ q →
  ∀ s, _file_status (dependenciesChanged w n q parents s).2 !! p
       = _file_status s !! p.
Proof.
  revert q parents. induction n as [|n IH]; intros q parents Hp Hne s; [done|].
  cbn [dependenciesChanged]. unfold bind at 1, get.
  destruct (_file_status s !! q) as [b|] eqn:Hf; [done|].
  unfold bind at 1.
  destruct (fileChanged w q s) as [[c|e|] s1] eqn:Hc; cbn [snd].
  - assert (_file_status s1 = _file_status s) as Hs1.
    { apply fileChanged_ok in Hc as (h & _ & _ & [->|(_ & _ & ->)]); done. }
    rewrite <- Hs1. clear Hs1 Hc Hf.
    destruct c.
    + unfold bind at 1, ret at 1. unfold bind at 1, modify, ret. simpl_state.
      by rewrite lookup_insert_ne.
    + unfold bind at 1. unfold bind at 1, get.
      destruct (_graph s1 !! q) as [childs|]; [|done].
      pose proof (any__preserves_in
        (λ s', _file_status s' !! p = _file_status s1 !! p)
        (filter (λ f, f ∉ default [] parents ++ [q]) childs)
        (λ f, dependenciesChanged w n f (Some (default [] parents ++ [q])))) as Hany.
      cbn beta in Hany.
      assert (_file_status
                (any_ (λ f, dependenciesChanged w n f (Some (default [] parents ++ [q])))
                   (filter (λ f, f ∉ default [] parents ++ [q]) childs) s1).2 !! p
              = _file_status s1 !! p) as Hres.
      { apply Hany; [|done]. intros f [Hf _]%list_elem_of_filter s2 Hs2.
        rewrite IH; [done| |].
        - cbn. apply elem_of_app. by left.
        - intros ->. apply Hf, elem_of_app. by left. }
      destruct (any_ _ _ s1) as [[b|e|] s2]; cbn [snd] in *; try done.
      unfold bind at 1, modify, ret. simpl_state.
      by rewrite lookup_insert_ne.
  - by apply fileChanged_raise in Hc as (-> & _).
  - by apply fileChanged_not_out_of_fuel in Hc.
Qed.

Lemma any__guard n parents p (l : list path) s :
  p ∈ parents → p ∉ l →
  _file_status (any_ (λ f, dependenciesChanged w n f (Some parents)) l s).2 !! p
  = _file_status s !! p.
Proof.
  intros Hp Hl.
  apply (any__preserves_in (λ s', _file_status s' !! p = _file_status s !! p));
    [|done].
  intros f Hf s1 Hs1. rewrite dependenciesChanged_guard; [done..|].
  intros ->. done.
Qed.

Context (Par : list path → Prop) (I : plugin → Prop).
Context (HI : query_invariant w Par I).

Lemma fileChanged_keeps p : preserves I (fileChanged w p).
Proof.
  intros s Hs.
  destruct (fileChanged_cases w s p)
    as [(h & Hh & ->) | [(h & Hh & Hd & ->) | (Hh & Hd & ->)]]; cbn [snd]; try done.
  by apply (qi_hash w Par I HI).
Qed.

Lemma updateGraph_keeps n p : preserves I (updateGraph w n p).
Proof.
  revert p. induction n as [|n IH]; intros p s Hs; [done|].
  cbn [updateGraph]. unfold bind at 1, get.
  destruct (_graph s !! p) as [files|] eqn:Hg; [done|].
  unfold bind at 1.
  destruct (fileChanged w p s) as [[c|e|] s1] eqn:Hc; cbn [snd].
  - apply fileChanged_ok in Hc as (h & Hh & -> & Hs1).
    assert (I s1 ∧ _graph s1 !! p = None) as [HI1 Hg1].
    { destruct Hs1 as [->|(Hh0 & Hd & ->)]; [done|].
      split; [by apply (qi_hash w Par I HI)|done]. }
    unfold bind at 1, get.
    destruct (own_change s1 p h) eqn:Hown; cbn [negb].
    + pose proof (qi_inspect w Par I HI p s1 h HI1 Hg1 Hh (or_introl Hown)) as Hi.
      unfold bind at 1.
      destruct (inspectDependencies w p s1) as [[files|e|] s2]; cbn [snd]; try done.
      unfold bind at 1, modify. by apply for__preserves.
    + destruct (_known_graph s1 !! p) as [files|] eqn:Hk.
      * unfold bind at 1, ret at 1. unfold bind at 1, modify.
        apply for__preserves; [done|]. by eapply (qi_reuse w Par I HI).
      * pose proof (qi_inspect w Par I HI p s1 h HI1 Hg1 Hh (or_intror Hk)) as Hi.
        unfold bind at 1.
        destruct (inspectDependencies w p s1) as [[files|e|] s2]; cbn [snd]; try done.
        unfold bind at 1, modify. by apply for__preserves.
  - by apply fileChanged_raise in Hc as (-> & _).
  - by apply fileChanged_not_out_of_fuel in Hc.
Qed.

Lemma dependenciesChanged_keeps n p parents :
  Par (default [] parents) → preserves I (dependenciesChanged w n p parents).
Proof.
  revert p parents. induction n as [|n IH]; intros p parents Hpar s Hs; [done|].
  cbn [dependenciesChanged]. unfold bind at 1, get.
  destruct (_file_status s !! p) as [b|] eqn:Hf; [done|].
  unfold bind at 1.
  destruct (fileChanged w p s) as [[c|e|] s1] eqn:Hc; cbn [snd].
  - apply fileChanged_ok in Hc as (h & Hh & -> & Hs1).
    assert (I s1 ∧ _file_status s1 !! p = None) as [HI1 Hf1].
    { destruct Hs1 as [->|(Hh0 & Hd & ->)]; [done|].
      split; [by apply (qi_hash w Par I HI)|done]. }
    destruct (own_change s1 p h) eqn:Hown.
    + unfold bind at 1, ret at 1. unfold bind at 1, modify. cbn [snd].
      by eapply (qi_own w Par I HI).
    + unfold bind at 1. unfold bind at 1, get.
      destruct (_graph s1 !! p) as [childs|] eqn:Hg; [|done].
      pose proof (qi_parents w Par I HI p s1 h _ HI1 Hpar Hh Hown) as Hpar'.
      pose proof (any__preserves I
        (filter (λ f, f ∉ default [] parents ++ [p]) childs)
        (λ f, dependenciesChanged w n f (Some (default [] parents ++ [p])))
        (λ f, IH f (Some (default [] parents ++ [p])) Hpar') s1 HI1) as Hany.
      pose proof (any__guard n (default [] parents ++ [p]) p
        (filter (λ f, f ∉ default [] parents ++ [p]) childs) s1) as Hguard.
      destruct (any_ _ _ s1) as [[b|e|] s2] eqn:Ha; cbn [snd] in *; try done.
      unfold bind at 1, modify. cbn [snd].
      apply (qi_childs w Par I HI p s1 h childs n (default [] parents) b s2);
        try done.
      rewrite Hguard; [done| |].
      * apply elem_of_app. right. by left.
      * intros [Hnin _]%list_elem_of_filter. apply Hnin, elem_of_app. right. by left.
  - by apply fileChanged_raise in Hc as (-> & _).
  - by apply fileChanged_not_out_of_fuel in Hc.
Qed.

Context (Hroot : Par []).

Lemma query_keeps n p : preserves I (query w n p).
Proof.
  intros s Hs. unfold query, bind.
  pose proof (updateGraph_keeps n p s Hs) as Hu.
  destruct (updateGraph w n p s) as [[[]|e|] s1]; cbn [snd] in *; try done.
  by apply dependenciesChanged_keeps.
Qed.

Lemma wantModule_keeps n m : preserves I (wantModule w n m).
Proof.
  intros s Hs. rewrite wantModule_query.
  destruct (getsourcefile w m) as [[p|]|e0]; [|done..].
  pose proof (query_keeps n p s Hs) as Hq.
  by destruct (query w n p s) as [[[]|e|] s1].
Qed.

Lemma wantClass_keeps n cls : preserves I (wantClass w n cls).
Proof.
  intros s Hs. rewrite wantClass_query.
  destruct (getsourcefile w cls) as [[p|]|e0]; [|done..].
  pose proof (query_keeps n p s Hs) as Hq.
  by destruct (query w n p s) as [[[]|e|] s1].
Qed.

Lemma run_keeps cs s :
  (∀ s t, I s → I (afterTest t s).2) → I s → I (run w cs s).
Proof.
  intros Hafter. revert s. induction cs as [|c cs IH]; intros s Hs; [done|].
  cbn [run foldl]. apply IH. destruct c; cbn [do_call].
  - by apply wantModule_keeps.
  - by apply wantClass_keeps.
  - by apply Hafter.
Qed.
End query_invariants.

(** ** A run only adds to the state *)

Section append_only.
Context (w : World).

Lemma extends_state_refl s : extends_state s s.
Proof. by split_and!. Qed.

Lemma extends_state_trans s1 s2 s3 :
  extends_state s1 s2 → extends_state s2 s3 → extends_state s1 s3.
Proof.
  intros (H1 & H2 & H3 & H4 & H5 & H6 & H7 & H8 & H9)
         (K1 & K2 & K3 & K4 & K5 & K6 & K7 & K8 & K9).
  split_and!; try congruence; by etrans.
Qed.

Lemma extends_state_hash s p h :
  _hashes s !! p = None → extends_state s (set_hashes (<[p := h]> (_hashes s)) s).
Proof. intros Hp. split_and!; simpl_state; try done. by apply insert_subseteq. Qed.

Lemma extends_state_graph s p files :
  _graph s !! p = None → extends_state s (set_graph (<[p := files]> (_graph s)) s).
Proof. intros Hp. split_and!; simpl_state; try done. by apply insert_subseteq. Qed.

Lemma extends_state_status s p b :
  _file_status s !! p = None →
  extends_state s (set_file_status (<[p := b]> (_file_status s)) s).
Proof. intros Hp. split_and!; simpl_state; try done. by apply insert_subseteq. Qed.

Lemma extends_state_inspect s p :
  extends_state s (inspectDependencies w p s).2.
Proof.
  rewrite inspectDependencies_cases.
  destruct (find_dependencies w p) as [files| |tag];
    [|destruct (decide (p ∈ _ignored_files s))|];
    split_and!; simpl_state; try done; try set_solver; by apply suffix_cons_r.
Qed.

Lemma extends_state_query_invariant s0 :
  query_invariant w (λ _, True) (extends_state s0).
Proof.
  split.
  - intros p s h Hs Hp _. eapply extends_state_trans; [done|].
    by apply extends_state_hash.
  - intros p s h files Hs Hp _ _ _. eapply extends_state_trans; [done|].
    by apply extends_state_graph.
  - intros p s h Hs Hp _ _. pose proof (extends_state_inspect s p) as Hi.
    destruct (inspectDependencies w p s) as [[files|e|] s'] eqn:Heq; cbn [snd] in Hi;
      try by eapply extends_state_trans.
    eapply extends_state_trans; [done|]. eapply extends_state_trans; [done|].
    apply extends_state_graph. destruct Hi as (_ & _ & _ & Hg & _).
    revert Heq. rewrite inspectDependencies_cases.
    destruct (find_dependencies w p) as [fs| |tag];
      [|destruct (decide (p ∈ _ignored_files s))|]; intros [= <- <-]; done.
  - intros p s h Hs Hp _ _. eapply extends_state_trans; [done|].
    by apply extends_state_status.
  - done.
  - intros p s h childs n parents b s' _ _ _ _ _ _ _ Hs' Hp.
    eapply extends_state_trans; [done|]. by apply extends_state_status.
Qed.

Lemma extends_state_afterTest s0 s t :
  extends_state s0 s → extends_state s0 (afterTest t s).2.
Proof.
  intros Hs. unfold afterTest. case_bool_decide; [|done].
  unfold bind, get, modify. cbn [snd]. eapply extends_state_trans; [done|].
  split_and!; simpl_state; try done. set_solver.
Qed.
End append_only.

(** X2 (a run only adds).  Whatever the calls, and whether they return
    or raise, every later state of a run extends every earlier one: the
    cache file name and the prior maps are untouched; an entry of
    [_graph], [_hashes] or [_file_status], once written, keeps its
    value; nothing leaves [_ignored_files] or [_failed_test_modules]. *)
Theorem run_only_adds (w : World) (s : plugin) (cs cs' : list call) :
  extends_state (run w cs s) (run w (cs ++ cs') s).
Proof.
  unfold run at 2. rewrite foldl_app.
  apply (run_keeps w (λ _, True) _ (extends_state_query_invariant w _) I).
  - intros s1 t. apply extends_state_afterTest.
  - apply extends_state_refl.
Qed.

(** ** The bookkeeping of a run *)

Section bookkeeping.
Context (w : World).

Lemma query_invariant_and Par1 Par2 I1 I2 :
  query_invariant w Par1 I1 → query_invariant w Par2 I2 →
  query_invariant w (λ ps, Par1 ps ∧ Par2 ps) (λ s, I1 s ∧ I2 s).
Proof.
  intros H1 H2. split.
  - intros p s h [??] ??. split; [by apply (qi_hash _ _ _ H1)|by apply (qi_hash _ _ _ H2)].
  - intros p s h files [??] ????.
    split; [by eapply (qi_reuse _ _ _ H1)|by eapply (qi_reuse _ _ _ H2)].
  - intros p s h [Ha Hb] Hg Hh Ho.
    pose proof (qi_inspect _ _ _ H1 p s h Ha Hg Hh Ho).
    pose proof (qi_inspect _ _ _ H2 p s h Hb Hg Hh Ho).
    by destruct (inspectDependencies w p s) as [[files|e|] s'].
  - intros p s h [??] ???.
    split; [by eapply (qi_own _ _ _ H1)|by eapply (qi_own _ _ _ H2)].
  - intros p s h parents [??] [??] ??.
    split; [by eapply (qi_parents _ _ _ H1)|by eapply (qi_parents _ _ _ H2)].
  - intros p s h childs n parents b s' [Ia Ib] [Pa Pb] Hf Hh Ho Hg Hany [Ia' Ib'] Hf'.
    split.
    + exact (qi_childs _ _ _ H1 p s h childs n parents b s'
               Ia Pa Hf Hh Ho Hg Hany Ia' Hf').
    + exact (qi_childs _ _ _ H2 p s h childs n parents b s'
               Ib Pb Hf Hh Ho Hg Hany Ib' Hf').
Qed.

Lemma hashed_inv_query_invariant : query_invariant w (λ _, True) (hashed_inv w).
Proof.
  split.
  - intros p s h (H1 & H2 & H3 & H4 & H5 & H6) Hnone Hd.
    assert (_graph s !! p = None) as Hg.
    { destruct (_graph s !! p) eqn:E; [|done].
      destruct (H2 p) as [? ?]; [by eexists|congruence]. }
    split_and!; simpl_state.
    + intros q h'. destruct (decide (p = q)) as [<-|Hne].
      * rewrite lookup_insert_eq. congruence.
      * rewrite lookup_insert_ne by done. eauto.
    + intros q Hq. destruct (decide (p = q)) as [<-|Hne].
      * rewrite lookup_insert_eq. eauto.
      * rewrite lookup_insert_ne by done. eauto.
    + intros q Hq. destruct (decide (p = q)) as [<-|Hne].
      * rewrite lookup_insert_eq. eauto.
      * rewrite lookup_insert_ne by done. eauto.
    + done.
    + intros q l h' l' Hq. destruct (decide (p = q)) as [<-|Hne]; [congruence|].
      rewrite lookup_insert_ne by done. apply H5. done.
    + intros q l h' Hq. destruct (decide (p = q)) as [<-|Hne]; [congruence|].
      rewrite lookup_insert_ne by done. apply H6. done.
  - intros p s h files (H1 & H2 & H3 & H4 & H5 & H6) Hnone Hh Hown Hk.
    split_and!; simpl_state; try done.
    + intros q. destruct (decide (p = q)) as [<-|Hne]; [eauto|].
      rewrite lookup_insert_ne by done. eauto.
    + intros q Hq. destruct (decide (p = q)) as [<-|Hne].
      * rewrite lookup_insert_eq. eauto.
      * rewrite lookup_insert_ne by done. eauto.
    + intros q l h' l'. destruct (decide (p = q)) as [<-|Hne].
      * rewrite lookup_insert_eq. congruence.
      * rewrite lookup_insert_ne by done. apply H5.
    + intros q l h'. destruct (decide (p = q)) as [<-|Hne].
      * rewrite lookup_insert_eq. unfold own_change in *. simpl_state.
        intros _ Hh' [Ho|Ho]; [|congruence].
        assert (h' = h) as -> by congruence. congruence.
      * rewrite lookup_insert_ne by done. apply H6.
  - intros p s h (H1 & H2 & H3 & H4 & H5 & H6) Hnone Hh Hown.
    pose proof (inspectDependencies_edges w s p) as Hedges.
    rewrite inspectDependencies_cases in Hedges |- *.
    assert (∀ files s', hashed_inv w s' →
              _graph s' = _graph s → _hashes s' = _hashes s →
              _known_graph s' = _known_graph s → _known_hashes s' = _known_hashes s →
              _file_status s' = _file_status s →
              (∀ f, f ∈ files → isfile w f = true) →
              hashed_inv w (set_graph (<[p := files]> (_graph s')) s')) as Hstep.
    { intros files s' (K1 & K2 & K3 & K4 & K5 & K6) Eg Eh Ekg Ekh Ef Hfiles.
      split_and!; simpl_state; try done.
      - intros q. rewrite Eg. destruct (decide (p = q)) as [<-|Hne].
        + intros _. rewrite Eh. eauto.
        + rewrite lookup_insert_ne by done. rewrite <- Eg. eauto.
      - intros q Hq. rewrite Eg. destruct (decide (p = q)) as [<-|Hne].
        + rewrite lookup_insert_eq. eauto.
        + rewrite lookup_insert_ne by done. rewrite <- Eg. eauto.
      - intros q l h' l'. rewrite Eg. destruct (decide (p = q)) as [<-|Hne].
        + rewrite lookup_insert_eq, Eh, Ekg. intros [= <-] Hh' Ho Hk.
          assert (h' = h) as -> by congruence.
          unfold own_change in Ho, Hown. simpl_state. rewrite Ekh in Ho.
          destruct Hown as [Hown|Hown]; [|congruence]. rewrite Hown in Ho. done.
        + rewrite lookup_insert_ne by done. rewrite <- Eg. apply K5.
      - intros q l h'. rewrite Eg. destruct (decide (p = q)) as [<-|Hne].
        + rewrite lookup_insert_eq. intros [= <-] _ _. done.
        + rewrite lookup_insert_ne by done. rewrite <- Eg. apply K6. }
    assert (∀ s', _graph s' = _graph s → _hashes s' = _hashes s →
              _known_graph s' = _known_graph s → _known_hashes s' = _known_hashes s →
              _file_status s' = _file_status s → hashed_inv w s') as Hsame.
    { intros s' Eg Eh Ekg Ekh Ef. unfold hashed_inv, own_change.
      rewrite Eg, Eh, Ekg, Ekh, Ef. by split_and!. }
    destruct (find_dependencies w p) as [files| |tag].
    + apply Hstep; [by apply Hsame|done..|].
      intros f Hf. by apply (Hedges _ _ eq_refl f).
    + destruct (decide (p ∈ _ignored_files s)); [by apply Hsame|].
      apply Hstep; [by apply Hsame|done..|]. by intros f ?%elem_of_nil.
    + by apply Hsame.
  - intros p s h (H1 & H2 & H3 & H4 & H5 & H6) Hnone Hh Hown.
    split_and!; simpl_state; try done.
    + intros q. destruct (decide (p = q)) as [<-|Hne]; [eauto|].
      rewrite lookup_insert_ne by done. eauto.
    + intros q. destruct (decide (p = q)) as [<-|Hne].
      * by rewrite lookup_insert_eq.
      * rewrite lookup_insert_ne by done. eauto.
  - done.
  - intros p s h childs n parents b s' (H1 & H2 & H3 & H4 & H5 & H6)
      _ Hnone Hh Hown Hg Hany (K1 & K2 & K3 & K4 & K5 & K6) Hnone'.
    assert (is_Some (_graph s' !! p) ∧ is_Some (_hashes s' !! p)) as [Hg' Hh'].
    { pose proof (any__preserves (extends_state s)
        (filter (λ f, f ∉ parents ++ [p]) childs)
        (λ f, dependenciesChanged w n f (Some (parents ++ [p])))
        (λ f, dependenciesChanged_keeps w _ _
                (extends_state_query_invariant w s) n f _ I)
        s (extends_state_refl s)) as Hext.
      rewrite Hany in Hext. destruct Hext as (_ & _ & _ & Eg & Eh & _).
      split; eexists; [by eapply (lookup_weaken _ _ _ _ Hg)
                      |by eapply (lookup_weaken _ _ _ _ Hh)]. }
    split_and!; simpl_state; try done.
    + intros q. destruct (decide (p = q)) as [<-|Hne]; [eauto|].
      rewrite lookup_insert_ne by done. eauto.
    + intros q. destruct (decide (p = q)) as [<-|Hne]; [eauto|].
      rewrite lookup_insert_ne by done. eauto.
Qed.
End bookkeeping.

(** ** What the verdicts mean *)

Section verdict_meaning.
Context (w : World).

Lemma dependenciesChanged_memoizes n p parents s b s' :
  dependenciesChanged w n p parents s = (Ok b, s') → _file_status s' !! p = Some b.
Proof.
  destruct n as [|n]; [done|].
  cbn [dependenciesChanged]. unfold bind at 1, get.
  destruct (_file_status s !! p) as [b0|] eqn:Hf.
  { by intros [= <- <-]. }
  unfold bind at 1. destruct (fileChanged w p s) as [[c|e|] s1]; [|done..].
  unfold bind at 1.
  destruct ((if c then ret true else _) s1) as [[b1|e|] s2]; [|done..].
  unfold bind at 1, modify, ret. intros [= <- <-]. simpl_state.
  by rewrite lookup_insert_eq.
Qed.

Lemma dependenciesChanged_extends n p parents s :
  extends_state s (dependenciesChanged w n p parents s).2.
Proof.
  apply (dependenciesChanged_keeps w _ _ (extends_state_query_invariant w s));
    [done|apply extends_state_refl].
Qed.

Lemma updateGraph_extends n p s : extends_state s (updateGraph w n p s).2.
Proof.
  apply (updateGraph_keeps w _ _ (extends_state_query_invariant w s)).
  apply extends_state_refl.
Qed.

Lemma any__extends_state n parents l s :
  extends_state s (any_ (λ f, dependenciesChanged w n f parents) l s).2.
Proof.
  apply (any__preserves (extends_state s)); [|apply extends_state_refl].
  intros f s1 Hs1. eapply extends_state_trans; [done|].
  apply dependenciesChanged_extends.
Qed.

(** When [any] is false, every element was judged, unchanged. *)
Lemma any__false_status n parents l s s' :
  any_ (λ f, dependenciesChanged w n f parents) l s = (Ok false, s') →
  ∀ f, f ∈ l → _file_status s' !! f = Some false.
Proof.
  revert s. induction l as [|x l IH]; intros s Hany f Hf; [by apply elem_of_nil in Hf|].
  cbn [any_] in Hany. unfold bind in Hany.
  destruct (dependenciesChanged w n x parents s) as [[[]|e|] s1] eqn:Hx; try done.
  apply elem_of_cons in Hf as [->|Hf]; [|by eapply IH].
  apply dependenciesChanged_memoizes in Hx.
  pose proof (any__extends_state n parents l s1) as Hext. rewrite Hany in Hext.
  destruct Hext as (_ & _ & _ & _ & _ & Hst & _).
  by eapply lookup_weaken.
Qed.

(** When [any] is true, the element it stopped at was judged changed. *)
Lemma any__true_status n parents l s s' :
  any_ (λ f, dependenciesChanged w n f parents) l s = (Ok true, s') →
  ∃ f, f ∈ l ∧ _file_status s' !! f = Some true.
Proof.
  revert s. induction l as [|x l IH]; intros s Hany; [done|].
  cbn [any_] in Hany. unfold bind in Hany.
  destruct (dependenciesChanged w n x parents s) as [[[]|e|] s1] eqn:Hx; try done.
  - injection Hany as <-. exists x. split; [by left|].
    by apply dependenciesChanged_memoizes in Hx.
  - destruct (IH _ Hany) as (f & Hf & Hst). exists f. split; [by right|done].
Qed.

Lemma reachable_mono g g' p q : g ⊆ g' → reachable g p q → reachable g' p q.
Proof.
  intros Hg. unfold reachable. apply rtc_subrel.
  intros a b (l & Hl & Hb). exists l. split; [by eapply lookup_weaken|done].
Qed.

Lemma own_change_false_eq s p h :
  own_change s p h = false → _known_hashes s !! p = Some h.
Proof.
  unfold own_change. destruct (_known_hashes s !! p) as [k|]; [|done].
  intros Hb. apply bool_decide_eq_false in Hb. f_equal.
  destruct (decide (h = k)); [done|contradiction].
Qed.

Context (kh : gmap path hash).

Lemma verdict_inv_query_invariant :
  query_invariant w (λ ps, ∀ q, q ∈ ps → unchanged_on_disk w kh q) (verdict_inv w kh).
Proof.
  split.
  - intros p s h (Hk & H1 & H2 & H3 & H4 & H5) Hnone Hd.
    split_and!; simpl_state; try done.
    + intros q h'. destruct (decide (p = q)) as [<-|Hne].
      * rewrite lookup_insert_eq. congruence.
      * rewrite lookup_insert_ne by done. eauto.
    + intros q Hq. destruct (H5 q Hq) as (r & hr & Hreach & Hr & Ho).
      exists r, hr. split_and!; [done| |done].
      rewrite lookup_insert_ne; [done|]. intros ->. congruence.
  - intros p s h files (Hk & H1 & H2 & H3 & H4 & H5) Hnone Hh Hown Hkg.
    split_and!; simpl_state; try done.
    + intros q Hq. destruct (decide (p = q)) as [<-|Hne].
      * rewrite lookup_insert_eq. eauto.
      * rewrite lookup_insert_ne by done. eauto.
    + intros q childs c Hq. destruct (decide (p = q)) as [<-|Hne].
      * destruct (H2 p Hq) as [? ?]. congruence.
      * rewrite lookup_insert_ne by done. by apply H4.
    + intros q Hq. destruct (H5 q Hq) as (r & hr & Hreach & Hr & Ho).
      exists r, hr. split_and!; [|done..].
      eapply reachable_mono; [|done]. by apply insert_subseteq.
  - intros p s h (Hk & H1 & H2 & H3 & H4 & H5) Hnone Hh Hown.
    assert (∀ files s', _graph s' = _graph s → _hashes s' = _hashes s →
              _known_hashes s' = _known_hashes s →
              _file_status s' = _file_status s →
              verdict_inv w kh (set_graph (<[p := files]> (_graph s')) s')) as Hstep.
    { intros files s' Eg Eh Ekh Ef. unfold verdict_inv, own_change. simpl_state.
      rewrite Eg, Eh, Ekh, Ef. split_and!; try done.
      - intros q Hq. destruct (decide (p = q)) as [<-|Hne].
        + rewrite lookup_insert_eq. eauto.
        + rewrite lookup_insert_ne by done. eauto.
      - intros q childs c Hq. destruct (decide (p = q)) as [<-|Hne].
        + destruct (H2 p Hq) as [? ?]. congruence.
        + rewrite lookup_insert_ne by done. by apply H4.
      - intros q Hq. destruct (H5 q Hq) as (r & hr & Hreach & Hr & Ho).
        exists r, hr. split_and!; [|done..].
        eapply reachable_mono; [|done]. by apply insert_subseteq. }
    assert (∀ s', _graph s' = _graph s → _hashes s' = _hashes s →
              _known_hashes s' = _known_hashes s →
              _file_status s' = _file_status s → verdict_inv w kh s') as Hsame.
    { intros s' Eg Eh Ekh Ef. unfold verdict_inv, own_change.
      rewrite Eg, Eh, Ekh, Ef. by split_and!. }
    rewrite inspectDependencies_cases.
    destruct (find_dependencies w p) as [files| |tag].
    + by apply Hstep.
    + destruct (decide (p ∈ _ignored_files s)); [by apply Hsame|by apply Hstep].
    + by apply Hsame.
  - intros p s h (Hk & H1 & H2 & H3 & H4 & H5) Hnone Hh Hown.
    split_and!; simpl_state; try done.
    + intros q. destruct (decide (p = q)) as [<-|Hne].
      * by rewrite lookup_insert_eq.
      * rewrite lookup_insert_ne by done. eauto.
    + intros q. destruct (decide (p = q)) as [<-|Hne].
      * by rewrite lookup_insert_eq.
      * rewrite lookup_insert_ne by done. eauto.
    + intros q childs c. destruct (decide (p = q)) as [<-|Hne].
      * by rewrite lookup_insert_eq.
      * rewrite lookup_insert_ne by done. eauto.
    + intros q. destruct (decide (p = q)) as [<-|Hne].
      * intros _. exists p, h. split_and!; [apply rtc_refl|done..].
      * rewrite lookup_insert_ne by done. eauto.
  - intros p s h parents (Hk & H1 & H2 & H3 & H4 & H5) Hpar Hh Hown q
      [Hq|Hq%list_elem_of_singleton]%elem_of_app; [by apply Hpar|subst q].
    exists h. split; [by apply H1|]. rewrite <- Hk. by apply own_change_false_eq.
  - intros p s h childs n parents b s' (Hk & H1 & H2 & H3 & H4 & H5)
      Hpar Hnone Hh Hown Hg Hany (Kk & K1 & K2 & K3 & K4 & K5) Hnone'.
    pose proof (any__extends_state n (Some (parents ++ [p]))
                  (filter (λ f, f ∉ parents ++ [p]) childs) s) as Hext.
    rewrite Hany in Hext. cbn [snd] in Hext.
    destruct Hext as (_ & _ & _ & Eg & Eh & _).
    pose proof (lookup_weaken _ _ _ _ Hg Eg) as Hg'.
    pose proof (lookup_weaken _ _ _ _ Hh Eh) as Hh'.
    assert (unchanged_on_disk w kh p) as Hp.
    { exists h. split; [by apply H1|]. rewrite <- Hk. by apply own_change_false_eq. }
    split_and!; simpl_state; try done.
    + intros q. destruct (decide (p = q)) as [<-|Hne]; [eauto|].
      rewrite lookup_insert_ne by done. eauto.
    + intros q. destruct (decide (p = q)) as [<-|Hne]; [done|].
      rewrite lookup_insert_ne by done. eauto.
    + intros q childs' c. destruct (decide (p = q)) as [<-|Hne].
      * rewrite lookup_insert_eq. intros [= ->] Hc' Hc.
        assert (childs' = childs) as -> by congruence.
        destruct (decide (c ∈ parents ++ [p])) as [Hin|Hnin].
        -- apply elem_of_app in Hin as [Hin|Hin%list_elem_of_singleton];
             [by apply Hpar|by subst c].
        -- apply K3. eapply any__false_status; [done|].
           by apply list_elem_of_filter.
      * rewrite lookup_insert_ne by done. eauto.
    + intros q. destruct (decide (p = q)) as [<-|Hne].
      * rewrite lookup_insert_eq. intros [= ->].
        destruct (any__true_status _ _ _ _ _ Hany) as (f & [_ Hf]%list_elem_of_filter & Hst).
        destruct (K5 f Hst) as (r & hr & Hreach & Hr & Ho).
        exists r, hr. split_and!; [|done..].
        eapply rtc_l; [|done]. by exists childs.
      * rewrite lookup_insert_ne by done. eauto.
Qed.
End verdict_meaning.

Section run_facts.
Context (w : World).

Lemma fresh_hashed_inv s : fresh s → hashed_inv w s.
Proof.
  intros (Hg & Hh & Hf). unfold hashed_inv. rewrite Hg, Hh, Hf.
  split_and!; intros *; rewrite ?lookup_empty; try done; by intros [? ?].
Qed.

Lemma fresh_verdict_inv s : fresh s → verdict_inv w (_known_hashes s) s.
Proof.
  intros (Hg & Hh & Hf). unfold verdict_inv. rewrite Hg, Hh, Hf.
  split_and!; intros *; rewrite ?lookup_empty; done.
Qed.

Lemma afterTest_hashed_inv s t : hashed_inv w s → hashed_inv w (afterTest t s).2.
Proof.
  unfold afterTest. case_bool_decide; [|done]. unfold bind, get, modify. done.
Qed.

Lemma afterTest_verdict_inv kh s t :
  verdict_inv w kh s → verdict_inv w kh (afterTest t s).2.
Proof.
  unfold afterTest. case_bool_decide; [|done]. unfold bind, get, modify. done.
Qed.

Lemma run_verdict_inv s cs : fresh s → verdict_inv w (_known_hashes s) (run w cs s).
Proof.
  intros Hs.
  apply (run_keeps w _ _ (verdict_inv_query_invariant w (_known_hashes s))).
  - by intros q ?%elem_of_nil.
  - intros s1 t. apply afterTest_verdict_inv.
  - by apply fresh_verdict_inv.
Qed.

Lemma query_verdict_inv kh n p s :
  verdict_inv w kh s → verdict_inv w kh (query w n p s).2.
Proof.
  apply (query_keeps w _ _ (verdict_inv_query_invariant w kh)).
  by intros q ?%elem_of_nil.
Qed.

Lemma query_memoizes n p s b s' :
  query w n p s = (Ok b, s') → _file_status s' !! p = Some b.
Proof.
  unfold query, bind. destruct (updateGraph w n p s) as [[[]|e|] s1]; [|done..].
  apply dependenciesChanged_memoizes.
Qed.

Lemma pair_eta_fst {A B} (x : A * B) (a : A) : x.1 = a → x = (a, x.2).
Proof. destruct x as [a' b]. cbn. by intros ->. Qed.

Lemma run_hashed_inv s cs : fresh s → hashed_inv w (run w cs s).
Proof.
  intros Hs. apply (run_keeps w _ _ (hashed_inv_query_invariant w) I).
  - intros s1 t. apply afterTest_hashed_inv.
  - by apply fresh_hashed_inv.
Qed.

Lemma query_false_own s cs fuel p s' :
  fresh s → query w fuel p (run w cs s) = (Ok false, s') →
  unchanged_on_disk w (_known_hashes s) p.
Proof.
  intros Hs Hq.
  pose proof (query_verdict_inv _ fuel p _ (run_verdict_inv s cs Hs)) as Hinv.
  rewrite Hq in Hinv. cbn [snd] in Hinv.
  apply query_memoizes in Hq. destruct Hinv as (_ & _ & _ & H3 & _). by apply H3.
Qed.
End run_facts.

(** X3 (bookkeeping).  In a run that starts with nothing visited, at
    every point: a cached hash is the digest of the file on disk; every
    path with a graph entry or a verdict has a cached hash; a path judged
    unchanged has a graph entry; the graph entry of an unchanged file
    that the prior graph records is the prior entry; every other entry
    holds regular files only. *)
Theorem run_bookkeeping (w : World) (s : plugin) (cs : list call) :
  fresh s → hashed_inv w (run w cs s).
Proof.
  intros Hs. apply (run_keeps w _ _ (hashed_inv_query_invariant w) I).
  - intros s1 t. unfold afterTest. case_bool_decide; [|done].
    by unfold bind, get, modify.
  - destruct Hs as (Hg & Hh & Hf). unfold hashed_inv. rewrite Hg, Hh, Hf.
    split_and!; intros *; rewrite ?lookup_empty; try done; by intros [? ?].
Qed.

Lemma run_bookkeeping_witness :
  hashed_inv chain_world
    (run chain_world [WantModule 3 (PyModule "A"); WantClass 1 (PyClass "B" "T")]
       chain_start).
Proof. apply run_bookkeeping. split_and!; reflexivity. Defined.

(** X4 (an unchanged verdict is sound for the file and its direct
    dependencies).  In a run that starts with nothing visited, whenever
    the query for [p] returns "unchanged", [p] has on disk the content
    the prior run recorded, and so has every path in [p]'s edge list of
    the current graph. *)
Theorem unchanged_verdict_sound (w : World) (s : plugin) (cs : list call)
    (fuel : nat) (p : path) (s' : plugin) :
  fresh s →
  query w fuel p (run w cs s) = (Ok false, s') →
  unchanged_on_disk w (_known_hashes s) p ∧
  ∃ childs, _graph s' !! p = Some childs ∧
            ∀ c, c ∈ childs → unchanged_on_disk w (_known_hashes s) c.
Proof.
  intros Hs Hq.
  pose proof (query_verdict_inv w _ fuel p _ (run_verdict_inv w s cs Hs)) as Hinv.
  rewrite Hq in Hinv. cbn [snd] in Hinv.
  apply query_memoizes in Hq.
  destruct Hinv as (_ & _ & H2 & H3 & H4 & _).
  split; [by apply H3|]. destruct (H2 p Hq) as [childs Hg].
  exists childs. split; [done|]. intros c Hc. by eapply H4.
Qed.

Lemma unchanged_verdict_sound_witness :
  unchanged_on_disk cycle_world (_known_hashes cycle_start) "A" ∧
  unchanged_on_disk cycle_world (_known_hashes cycle_start) "B".
Proof.
  destruct (unchanged_verdict_sound cycle_world cycle_start [] 3 "A"
              (query cycle_world 3 "A" cycle_start).2)
    as (HA & childs & Hg & Hc).
  - split_and!; reflexivity.
  - apply pair_eta_fst. by vm_compute.
  - split; [exact HA|]. apply Hc.
    assert (childs = ["B"]) as ->; [|by left].
    assert (_graph (query cycle_world 3 "A" cycle_start).2 !! "A" = Some ["B"]) as Hv
      by (by vm_compute).
    congruence.
Defined.

(** X5 (a changed file is never skipped).  In a run that starts with
    nothing visited, if [p] does not have on disk the content the prior
    run recorded (it was modified, or not recorded, or cannot be read),
    then neither [wantModule] nor [wantClass] ever answers [False] for a
    unit whose source is [p]. *)
Theorem changed_file_never_skipped (w : World) (s : plugin) (p : path) :
  fresh s → ¬ unchanged_on_disk w (_known_hashes s) p →
  ∀ cs fuel m, getsourcefile w m = Returns (Some p) →
    (wantModule w fuel m (run w cs s)).1 ≠ Ok (Some false) ∧
    (wantClass w fuel m (run w cs s)).1 ≠ Ok (Some false).
Proof.
  intros Hs Hp cs fuel m Hm. rewrite wantModule_query, wantClass_query, Hm.
  destruct (query w fuel p (run w cs s)) as [[[]|e|] s'] eqn:Hq; cbn; try done.
  destruct Hp. by eapply query_false_own.
Qed.

Lemma changed_file_never_skipped_witness :
  (wantModule chain_world 3 (PyModule "C")
     (run chain_world [WantModule 3 (PyModule "A")] chain_start)).1 ≠ Ok (Some false) ∧
  (wantClass chain_world 0 (PyModule "C") chain_start).1 ≠ Ok (Some false).
Proof.
  split.
  - refine (proj1 (changed_file_never_skipped chain_world chain_start "C" _ _
                     [WantModule 3 (PyModule "A")] 3 (PyModule "C") eq_refl)).
    + split_and!; reflexivity.
    + intros (h & Hd & Hk). vm_compute in Hd, Hk. congruence.
  - refine (proj2 (changed_file_never_skipped chain_world chain_start "C" _ _
                     [] 0 (PyModule "C") eq_refl)).
    + split_and!; reflexivity.
    + intros (h & Hd & Hk). vm_compute in Hd, Hk. congruence.
Defined.

(** X6 (a changed verdict has a cause).  In a run that starts with
    nothing visited, whenever the query for [p] returns "changed", some
    path reachable from [p] along the edges of the current graph has a
    digest on disk that differs from the prior one, or has no prior
    hash. *)
Theorem changed_verdict_has_cause (w : World) (s : plugin) (cs : list call)
    (fuel : nat) (p : path) (s' : plugin) :
  fresh s →
  query w fuel p (run w cs s) = (Ok true, s') →
  ∃ q h, reachable (_graph s') p q ∧ disk_hash w q = Some h ∧
         own_change s q h = true.
Proof.
  intros Hs Hq.
  pose proof (query_verdict_inv w _ fuel p _ (run_verdict_inv w s cs Hs)) as Hinv.
  rewrite Hq in Hinv. cbn [snd] in Hinv.
  apply query_memoizes in Hq.
  destruct Hinv as (Hk & H1 & _ & _ & _ & H5).
  destruct (H5 p Hq) as (q & h & Hreach & Hh & Ho).
  exists q, h. split_and!; [done|by apply H1|].
  unfold own_change in *. by rewrite <- Hk.
Qed.

Lemma changed_verdict_has_cause_witness :
  ∃ q h, reachable (_graph (query chain_world 3 "A" chain_start).2) "A" q ∧
         disk_hash chain_world q = Some h ∧ own_change chain_start q h = true.
Proof.
  apply (changed_verdict_has_cause chain_world chain_start [] 3 "A").
  - split_and!; reflexivity.
  - apply pair_eta_fst. by vm_compute.
Defined.

(** ** Failed tests *)

Section failures.
Context (w : World).

Lemma failed_query_invariant F :
  query_invariant w (λ _, True) (λ s, _failed_test_modules s = F).
Proof.
  split; try done.
  intros p s h Hs _ _ _. rewrite inspectDependencies_cases.
  destruct (find_dependencies w p) as [files| |tag];
    [|destruct (decide (p ∈ _ignored_files s))|]; done.
Qed.

Lemma do_call_failed c s :
  _failed_test_modules (do_call w c s)
  = list_to_set (failed_addresses [c]) ∪ _failed_test_modules s.
Proof.
  destruct c as [n m|n cls|t]; cbn [do_call].
  - rewrite (wantModule_keeps w _ _ (failed_query_invariant _) I n m s eq_refl).
    cbn. by rewrite (left_id_L ∅ (∪)).
  - rewrite (wantClass_keeps w _ _ (failed_query_invariant _) I n cls s eq_refl).
    cbn. by rewrite (left_id_L ∅ (∪)).
  - unfold afterTest, failed_addresses, bind, get, modify. cbn.
    repeat case_bool_decide; try done; cbn; set_solver.
Qed.

Lemma run_failed_grows cs s :
  _failed_test_modules s ⊆ _failed_test_modules (run w cs s).
Proof.
  revert s. induction cs as [|c cs IH]; intros s; [done|].
  cbn [run foldl]. fold (run w cs (do_call w c s)).
  etrans; [|apply IH]. rewrite do_call_failed. set_solver.
Qed.
End failures.

(** X7 (what the failed set holds).  After the calls [cs] of a run,
    [_failed_test_modules] holds what it held before and the addresses
    of exactly the tests passed to [afterTest] with [passed] equal to
    [False]: a test that passed, or never ran ([passed] is [None]), adds
    nothing, and no query adds or removes anything. *)
Theorem failed_set_of_run (w : World) (cs : list call) (s : plugin) :
  _failed_test_modules (run w cs s)
  = list_to_set (failed_addresses cs) ∪ _failed_test_modules s.
Proof.
  revert s. induction cs as [|c cs IH]; intros s.
  - cbn. set_solver.
  - cbn [run foldl]. fold (run w cs (do_call w c s)). rewrite IH, do_call_failed.
    change (c :: cs) with ([c] ++ cs). unfold failed_addresses.
    rewrite omap_app, list_to_set_app_L. set_solver.
Qed.

(** X8 (a failed module is run again).  If [afterTest] saw a failed
    test of file [k] at any point of a run, [finalize] dumps no hash for
    [k]; and in a later run started from the dumped hashes, in any
    world, neither [wantModule] nor [wantClass] ever answers [False]
    for a unit whose source is [k]. *)
Theorem failed_module_is_run_again (w : World) (s : plugin) (cs1 cs2 : list call)
    (t : test) (k : path) (d : persisted) :
  passed t = Some false → address_file t = Some k →
  (finalize (run w (cs1 ++ AfterTest t :: cs2) s)).1 = Ok d →
  hashes d !! k = None ∧
  ∀ w' s' cs fuel m,
    fresh s' → _known_hashes s' = hashes d → getsourcefile w' m = Returns (Some k) →
    (wantModule w' fuel m (run w' cs s')).1 ≠ Ok (Some false) ∧
    (wantClass w' fuel m (run w' cs s')).1 ≠ Ok (Some false).
Proof.
  intros Hfailed Hk. rewrite finalize_closed_form. cbn [fst]. intros [= <-].
  cbn [hashes].
  assert (merged_hashes (run w (cs1 ++ AfterTest t :: cs2) s) !! k = None) as Hnone.
  { assert (Some k ∈ _failed_test_modules (run w (cs1 ++ AfterTest t :: cs2) s))
      as Hin.
    { unfold run. rewrite foldl_app. cbn [foldl do_call].
      apply (run_failed_grows w cs2). rewrite <- Hk.
      unfold afterTest. rewrite bool_decide_true by done.
      unfold bind, get, modify. cbn. set_solver. }
    apply map_lookup_filter_None. right. intros v _. cbn. set_solver. }
  split; [done|]. intros w' s' cs fuel m Hs' Hkh Hm.
  rewrite wantModule_query, wantClass_query, Hm.
  destruct (query w' fuel k (run w' cs s')) as [[[]|e|] s2] eqn:Hq; cbn; try done.
  destruct (query_false_own w' s' cs fuel k s2 Hs' Hq) as (h & _ & Hh).
  rewrite Hkh in Hh. cbn [hashes] in Hh. congruence.
Qed.

Lemma failed_module_is_run_again_witness :
  hashes (Persisted
            (merged_hashes
               (run cycle_world
                  ([WantModule 3 (PyModule "A")]
                   ++ AfterTest (Test (Some false) (Some "A")) :: [])
                  cycle_start))
            (merged_graph
               (run cycle_world
                  ([WantModule 3 (PyModule "A")]
                   ++ AfterTest (Test (Some false) (Some "A")) :: [])
                  cycle_start))) !! "A" = None.
Proof.
  refine (proj1 (failed_module_is_run_again cycle_world cycle_start
                   [WantModule 3 (PyModule "A")] []
                   (Test (Some false) (Some "A")) "A" _ eq_refl eq_refl _)).
  by rewrite finalize_closed_form.
Defined.

(** ** Asking twice *)

Section idempotence.
Context (w : World).

Lemma updateGraph_visits n p s s' :
  updateGraph w n p s = (Ok tt, s') → is_Some (_graph s' !! p).
Proof.
  destruct n as [|n]; [done|].
  cbn [updateGraph]. unfold bind at 1, get.
  destruct (_graph s !! p) as [files|] eqn:Hg.
  { intros [= <-]. by rewrite Hg. }
  unfold bind at 1. destruct (fileChanged w p s) as [[c|e|] s1]; [|done..].
  unfold bind at 1, get. unfold bind at 1.
  destruct (match negb c, _known_graph s1 !! p with
            | true, Some files => ret files
            | _, _ => inspectDependencies w p
            end s1) as [[files|e|] s2]; [|done..].
  unfold bind at 1, modify. intros Hfor.
  pose proof (for__preserves (extends_state (set_graph (<[p:=files]> (_graph s2)) s2))
                files (updateGraph w n)
                (λ x s3 Hs3, extends_state_trans _ _ _ Hs3 (updateGraph_extends w n x s3))
                _ (extends_state_refl _)) as Hext.
  rewrite Hfor in Hext. destruct Hext as (_ & _ & _ & Eg & _).
  exists files. eapply lookup_weaken; [|done]. simpl_state. apply lookup_insert_eq.
Qed.

Lemma fileChanged_twice p s c s1 :
  fileChanged w p s = (Ok c, s1) → fileChanged w p s1 = (Ok c, s1).
Proof.
  intros (h & Hh & -> & _)%fileChanged_ok. by apply fileChanged_cached.
Qed.
End idempotence.

(** X9 (asking twice).  Once the query for [p] has returned a verdict,
    asking again, with any recursion budget, returns the same verdict
    and changes nothing: the graph entry and the memoized verdict make
    the second call a pair of lookups. *)
Theorem query_twice (w : World) (n : nat) (p : path) (s : plugin) (b : bool)
    (s' : plugin) :
  query w n p s = (Ok b, s') →
  ∀ m, 0 < m → query w m p s' = (Ok b, s').
Proof.
  intros Hq [|m] Hm; [lia|].
  pose proof (query_memoizes w n p s b s' Hq) as Hst.
  revert Hq. unfold query at 1, bind.
  destruct (updateGraph w n p s) as [[[]|e|] s1] eqn:Hu; [|done..].
  intros Hd. apply updateGraph_visits in Hu as [l Hl].
  pose proof (dependenciesChanged_extends w n p None s1) as Hext.
  rewrite Hd in Hext. destruct Hext as (_ & _ & _ & Eg & _).
  by apply (query_memo w s' p l b m); [eapply lookup_weaken|].
Qed.

Lemma query_twice_witness :
  query chain_world 1 "A" (query chain_world 3 "A" chain_start).2
  = (Ok true, (query chain_world 3 "A" chain_start).2).
Proof.
  apply (query_twice chain_world 3 "A" chain_start true); [|lia].
  apply pair_eta_fst. by vm_compute.
Defined.

(** ** A closure that did not change *)

Section closure.
Context (w : World) (kh : gmap path hash) (kg : gmap path (list path)).
Context (D : gset path) (HD : unchanged_closure w kh kg D).

Local Abbreviation settled := (settled_inv w kh kg D).

Lemma settled_own_change s q h :
  settled s → q ∈ D → _hashes s !! q = Some h → own_change s q h = false.
Proof.
  intros (Hk & _ & H1 & _) Hq Hh.
  destruct (HD q Hq) as [(h' & Hd & Hkh) _].
  apply H1 in Hh. assert (h' = h) as -> by congruence.
  unfold own_change. rewrite Hk, Hkh. by apply bool_decide_eq_false_2; intros [].
Qed.

Lemma settled_query_invariant : query_invariant w (λ _, True) settled.
Proof.
  split.
  - intros p s h (Hk & Hg & H1 & H2 & H3) Hnone Hd.
    split_and!; simpl_state; try done.
    intros q h'. destruct (decide (p = q)) as [<-|Hne].
    + rewrite lookup_insert_eq. congruence.
    + rewrite lookup_insert_ne by done. eauto.
  - intros p s h files (Hk & Hg & H1 & H2 & H3) Hnone Hh Hown Hkg.
    split_and!; simpl_state; try done.
    intros q l Hq. destruct (decide (p = q)) as [<-|Hne].
    + rewrite lookup_insert_eq. congruence.
    + rewrite lookup_insert_ne by done. eauto.
  - intros p s h Hs Hnone Hh Hown.
    assert (p ∉ D) as Hp.
    { intros Hp. pose proof (settled_own_change s p h Hs Hp Hh) as Ho.
      destruct Hown as [Hown|Hown]; [congruence|].
      destruct Hs as (_ & Hg & _). destruct (HD p Hp) as [_ (l & Hl & _)].
      congruence. }
    destruct Hs as (Hk & Hg & H1 & H2 & H3).
    assert (∀ files s', _graph s' = _graph s → _hashes s' = _hashes s →
              _known_hashes s' = _known_hashes s →
              _known_graph s' = _known_graph s →
              _file_status s' = _file_status s →
              settled (set_graph (<[p := files]> (_graph s')) s')) as Hstep.
    { intros files s' Eg Eh Ekh Ekg Ef. unfold settled_inv. simpl_state.
      rewrite Eg, Eh, Ekh, Ekg, Ef. split_and!; try done.
      intros q l Hq. rewrite lookup_insert_ne by congruence. eauto. }
    assert (∀ s', _graph s' = _graph s → _hashes s' = _hashes s →
              _known_hashes s' = _known_hashes s →
              _known_graph s' = _known_graph s →
              _file_status s' = _file_status s → settled s') as Hsame.
    { intros s' Eg Eh Ekh Ekg Ef. unfold settled_inv.
      rewrite Eg, Eh, Ekh, Ekg, Ef. by split_and!. }
    rewrite inspectDependencies_cases.
    destruct (find_dependencies w p) as [files| |tag].
    + by apply Hstep.
    + destruct (decide (p ∈ _ignored_files s)); [by apply Hsame|by apply Hstep].
    + by apply Hsame.
  - intros p s h Hs Hnone Hh Hown.
    assert (p ∉ D) as Hp.
    { intros Hp. pose proof (settled_own_change s p h Hs Hp Hh). congruence. }
    destruct Hs as (Hk & Hg & H1 & H2 & H3).
    split_and!; simpl_state; try done.
    intros q b Hq. rewrite lookup_insert_ne by congruence. eauto.
  - done.
  - intros p s h childs n parents b s' (Hk & Hg & H1 & H2 & H3)
      _ Hnone Hh Hown Hgr Hany (Kk & Kg & K1 & K2 & K3) Hnone'.
    split_and!; simpl_state; try done.
    intros q b' Hq. destruct (decide (p = q)) as [<-|Hne].
    + rewrite lookup_insert_eq. intros [= <-].
      destruct b; [|done].
      destruct (any__true_status _ _ _ _ _ _ Hany)
        as (f & [_ Hf]%list_elem_of_filter & Hst).
      destruct (HD p Hq) as [_ (l & Hl & Hcl)].
      apply (K3 f true); [|done]. apply Hcl.
      assert (l = childs) as -> by (apply H2 in Hgr; [congruence|done]). done.
    + rewrite lookup_insert_ne by done. eauto.
Qed.

Lemma settled_afterTest s t : settled s → settled (afterTest t s).2.
Proof.
  unfold afterTest. case_bool_decide; [|done]. unfold bind, get, modify. done.
Qed.

Lemma settled_fresh s :
  fresh s → _known_hashes s = kh → _known_graph s = kg → settled s.
Proof.
  intros (Hg & Hh & Hf) Hk Hkg. unfold settled_inv. rewrite Hg, Hh, Hf.
  split_and!; try done; intros *; rewrite ?lookup_empty; done.
Qed.

Lemma settled_run s cs : settled s → settled (run w cs s).
Proof.
  intros Hs. apply (run_keeps w _ _ settled_query_invariant I); [|done].
  intros s1 t. apply settled_afterTest.
Qed.

Lemma inspectDependencies_graph p s :
  _graph (inspectDependencies w p s).2 = _graph s.
Proof.
  rewrite inspectDependencies_cases.
  destruct (find_dependencies w p) as [files| |tag];
    [|destruct (decide (p ∈ _ignored_files s))|]; done.
Qed.

Lemma fileChanged_graph p s : _graph (fileChanged w p s).2 = _graph s.
Proof.
  destruct (fileChanged_cases w s p)
    as [(h & Hh & ->) | [(h & Hh & Hd & ->) | (Hh & Hd & ->)]]; done.
Qed.

Lemma dependenciesChanged_graph n p parents s :
  _graph (dependenciesChanged w n p parents s).2 = _graph s.
Proof.
  revert p parents s. induction n as [|n IH]; intros p parents s; [done|].
  cbn [dependenciesChanged]. unfold bind at 1, get.
  destruct (_file_status s !! p) as [b|] eqn:Hf; [done|].
  unfold bind at 1. pose proof (fileChanged_graph p s) as Hc.
  destruct (fileChanged w p s) as [[c|e|] s1]; cbn [snd] in *; [|done..].
  rewrite <- Hc. clear Hc Hf. destruct c.
  - unfold bind at 1, ret at 1. unfold bind at 1, modify, ret. by simpl_state.
  - unfold bind at 1. unfold bind at 1, get.
    destruct (_graph s1 !! p) as [childs|]; [|done].
    pose proof (any__preserves (λ s', _graph s' = _graph s1)
      (filter (λ f, f ∉ default [] parents ++ [p]) childs)
      (λ f, dependenciesChanged w n f (Some (default [] parents ++ [p])))
      (λ f s2 Hs2, eq_trans (IH f _ s2) Hs2) s1 eq_refl) as Hany.
    by destruct (any_ _ _ s1) as [[b|e|] s2].
Qed.

Lemma for__updateGraph_extends n l s :
  extends_state s (for_ l (updateGraph w n) s).2.
Proof.
  apply (for__preserves (extends_state s)); [|apply extends_state_refl].
  intros x s1 Hs1. eapply extends_state_trans; [done|]. apply updateGraph_extends.
Qed.

Lemma closed_except_insert P p files s :
  _graph s !! p = None → closed_except D P s →
  closed_except D (P ∪ {[p]}) (set_graph (<[p := files]> (_graph s)) s).
Proof.
  intros Hp Hc q l c Hq Hnin. simpl_state.
  rewrite lookup_insert_ne by set_solver. intros Hl Hcl.
  destruct (Hc q l c) as [x Hx]; [done|set_solver|done..|].
  exists x. eapply lookup_weaken; [done|]. by apply insert_subseteq.
Qed.

Lemma closed_except_outside P p files s :
  p ∉ D → _graph s !! p = None → closed_except D P s →
  closed_except D P (set_graph (<[p := files]> (_graph s)) s).
Proof.
  intros HpD Hp Hc q l c Hq Hnin. simpl_state.
  rewrite lookup_insert_ne by congruence. intros Hl Hcl.
  destruct (Hc q l c) as [x Hx]; [done..|].
  exists x. eapply lookup_weaken; [done|]. by apply insert_subseteq.
Qed.

(** Visiting a file of [D]: unless the recursion budget runs out, the
    visit returns, and every file of [D] it reached has its edge list
    visited. *)
Lemma updateGraph_closure n p P s r s' :
  settled s → closed_except D P s → p ∈ D →
  updateGraph w n p s = (r, s') → r ≠ OutOfFuel →
  r = Ok tt ∧ closed_except D P s' ∧ is_Some (_graph s' !! p).
Proof.
  revert p P s r s'. induction n as [|n IH]; intros p P s r s' Hs Hc Hp.
  { by intros [= <- <-]. }
  cbn [updateGraph]. unfold bind at 1, get.
  destruct (_graph s !! p) as [files|] eqn:Hg.
  { intros [= <- <-] _. by rewrite Hg. }
  unfold bind at 1.
  pose proof (fileChanged_keeps w _ _ settled_query_invariant p s Hs) as Hs1.
  pose proof (fileChanged_graph p s) as Hg1.
  destruct (fileChanged w p s) as [[c|e|] s1] eqn:Hfc; cbn [snd] in *.
  2: { apply fileChanged_raise in Hfc as (_ & _ & _ & Hr).
       destruct (HD p Hp) as [(h & Hd & _) _]. unfold disk_hash in Hd.
       by rewrite Hr in Hd. }
  2: { by apply fileChanged_not_out_of_fuel in Hfc. }
  apply fileChanged_ok in Hfc as (h & Hh & -> & _).
  rewrite (settled_own_change s1 p h Hs1 Hp Hh). cbn [negb].
  destruct (HD p Hp) as [_ (l & Hl & Hcl)].
  unfold bind at 1, get.
  destruct Hs1 as (Hk1 & Hkg1 & Hs1). rewrite Hkg1, Hl.
  unfold bind at 1, ret at 1. unfold bind at 1, modify.
  assert (settled (set_graph (<[p := l]> (_graph s1)) s1)) as Hs2.
  { apply (qi_reuse w _ _ settled_query_invariant p s1 h l); try done.
    - congruence.
    - by apply (settled_own_change s1 p h).
    - congruence. }
  assert (closed_except D (P ∪ {[p]}) (set_graph (<[p := l]> (_graph s1)) s1)) as Hc2.
  { apply closed_except_insert; [congruence|].
    intros q l' c. rewrite Hg1. apply Hc. }
  assert (_graph (set_graph (<[p := l]> (_graph s1)) s1) !! p = Some l) as Hp2.
  { simpl_state. apply lookup_insert_eq. }
  revert Hs2 Hc2 Hp2. generalize (set_graph (<[p := l]> (_graph s1)) s1).
  clear Hg Hg1 Hh Hk1 Hkg1 Hs1 Hs Hc s s1.
  intros s Hs Hc Hps Hfor Hr.
  assert (r = Ok tt ∧ closed_except D (P ∪ {[p]}) s' ∧
          _graph s ⊆ _graph s' ∧ ∀ c, c ∈ l → is_Some (_graph s' !! c))
    as (-> & Hc' & Hsub & Hvis).
  { clear Hl Hps. revert s Hs Hc Hfor.
    induction l as [|x l IHl]; intros s Hs Hc.
    - intros [= <- <-]. split_and!; try done. by intros c ?%elem_of_nil.
    - cbn [for_]. unfold bind.
      pose proof (updateGraph_keeps w _ _ settled_query_invariant n x s Hs) as Hs1.
      pose proof (updateGraph_extends w n x s) as Hext.
      destruct (updateGraph w n x s) as [r1 s1] eqn:Hx. cbn [snd] in *.
      pose proof (IH x _ s r1 s1 Hs Hc (Hcl x ltac:(left)) Hx) as Hx'.
      destruct r1 as [[]|e|]; [|by destruct Hx'|by intros [= <- <-]].
      destruct Hx' as (_ & Hc1 & Hx1); [done|].
      intros Hfor.
      destruct (IHl (λ c Hin, Hcl c ltac:(by right)) s1 Hs1 Hc1 Hfor)
        as (-> & Hc' & Hsub & Hvis).
      destruct Hext as (_ & _ & _ & Eg & _).
      split_and!; try done; [by etrans|].
      intros c [->|Hin]%elem_of_cons; [|by apply Hvis].
      destruct Hx1 as [y Hy]. exists y. by eapply lookup_weaken. }
  pose proof (lookup_weaken _ _ _ _ Hps Hsub) as Hps'.
  split_and!; [done| |by eexists].
  intros q l' c Hq Hnin Hl' Hin.
  destruct (decide (q = p)) as [->|Hne].
  - assert (l' = l) as -> by congruence. by apply Hvis.
  - apply (Hc' q l' c); [done|set_solver|done..].
Qed.

(** Any visit that does not run out of recursion budget, even one that
    raises, leaves the visited part of [D] closed. *)
Lemma updateGraph_closed n p s r s' :
  settled s → closed_except D ∅ s →
  updateGraph w n p s = (r, s') → r ≠ OutOfFuel → closed_except D ∅ s'.
Proof.
  revert p s r s'. induction n as [|n IH]; intros p s r s' Hs Hc.
  { by intros [= <- <-]. }
  destruct (decide (p ∈ D)) as [Hp|Hp].
  { intros Hu Hr. by destruct (updateGraph_closure (S n) p ∅ s r s' Hs Hc Hp Hu Hr)
      as (_ & ? & _). }
  cbn [updateGraph]. unfold bind at 1, get.
  destruct (_graph s !! p) as [files|] eqn:Hg.
  { by intros [= <- <-] _. }
  unfold bind at 1.
  pose proof (fileChanged_keeps w _ _ settled_query_invariant p s Hs) as Hs1.
  pose proof (fileChanged_graph p s) as Hg1.
  destruct (fileChanged w p s) as [[c|e|] s1] eqn:Hfc; cbn [snd] in *.
  2: { intros [= <- <-] _. intros q l c. rewrite Hg1. apply Hc. }
  2: { by apply fileChanged_not_out_of_fuel in Hfc. }
  apply fileChanged_ok in Hfc as (h & Hh & -> & _).
  assert (closed_except D ∅ s1) as Hc1.
  { intros q l c. rewrite Hg1. apply Hc. }
  assert (_graph s1 !! p = None) as Hgp by congruence.
  clear Hg Hg1 Hc Hs s. unfold bind at 1, get. unfold bind at 1.
  assert (∀ files s2, closed_except D ∅ s2 → _graph s2 !! p = None →
            settled (set_graph (<[p := files]> (_graph s2)) s2) →
            for_ files (updateGraph w n) (set_graph (<[p := files]> (_graph s2)) s2)
              = (r, s') → r ≠ OutOfFuel →
            closed_except D ∅ s') as Hloop.
  { intros files s2 Hc2 Hg2.
    pose proof (closed_except_outside ∅ p files s2 Hp Hg2 Hc2) as Hc3.
    revert Hc3. generalize (set_graph (<[p := files]> (_graph s2)) s2).
    clear Hc2 Hg2 s2. intros s2 Hc2 Hs2 Hfor Hr. revert s2 Hc2 Hs2 Hfor.
    induction files as [|x files IHf]; intros s2 Hc2 Hs2.
    - by intros [= <- <-].
    - cbn [for_]. unfold bind.
      pose proof (updateGraph_keeps w _ _ settled_query_invariant n x s2 Hs2) as Hs3.
      destruct (updateGraph w n x s2) as [r1 s3] eqn:Hx. cbn [snd] in *.
      pose proof (IH x s2 r1 s3 Hs2 Hc2 Hx) as Hc3.
      destruct r1 as [[]|e|]; [|intros [= <- <-]; by apply Hc3|by intros [= <- <-]].
      apply IHf; [by apply Hc3|done]. }
  destruct (own_change s1 p h) eqn:Hown; cbn [negb];
    [|destruct (_known_graph s1 !! p) as [files|] eqn:Hk].
  2: { unfold ret at 1. unfold bind at 1, modify. intros Hfor Hr.
       apply (Hloop files s1); try done.
       by apply (qi_reuse w _ _ settled_query_invariant p s1 h files). }
  all: match goal with
       | |- context [inspectDependencies] =>
           assert (own_change s1 p h = true ∨ _known_graph s1 !! p = None) as Hor
             by (first [by left | by right])
       end;
    pose proof (qi_inspect w _ _ settled_query_invariant p s1 h Hs1 Hgp Hh Hor) as Hi;
    pose proof (inspectDependencies_graph p s1) as Hig;
    destruct (inspectDependencies w p s1) as [[files|e|] s2]; cbn [snd] in *;
    [ unfold bind at 1, modify; intros Hfor Hr;
      apply (Hloop files s2); try done;
      [intros q l c; rewrite Hig; apply Hc1|congruence]
    | intros [= <- <-] _; intros q l c; rewrite Hig; apply Hc1
    | by intros [= <- <-] ].
Qed.
End closure.

(** ** An unchanged closure is skipped *)

Section closure_answers.
Context (w : World) (kh : gmap path hash) (kg : gmap path (list path)).
Context (D : gset path) (HD : unchanged_closure w kh kg D).

Local Abbreviation settled := (settled_inv w kh kg D).

Lemma any__all_false {X} (J : plugin → Prop) (l : list X) (f : X → M bool) :
  (∀ x, x ∈ l → ∀ s, J s → (f x s).1 = Ok false ∧ J (f x s).2) →
  ∀ s, J s → (any_ f l s).1 = Ok false ∧ J (any_ f l s).2.
Proof.
  induction l as [|x l IH]; intros Hf s Hs; [done|].
  cbn [any_]. unfold bind.
  destruct (Hf x ltac:(left) s Hs) as [Hx Hs1].
  destruct (f x s) as [[[]|e|] s1]; cbn [fst snd] in *; try done.
  apply IH; [|done]. intros y Hy. apply Hf. by right.
Qed.

Lemma for__returns {X} (J : plugin → Prop) (l : list X) (body : X → M unit) :
  (∀ x, x ∈ l → ∀ s, J s → (body x s).1 ≠ OutOfFuel ∧ J (body x s).2) →
  ∀ s, J s → (for_ l body s).1 ≠ OutOfFuel.
Proof.
  induction l as [|x l IH]; intros Hf s Hs; [done|].
  cbn [for_]. unfold bind.
  destruct (Hf x ltac:(left) s Hs) as [Hx Hs1].
  destruct (body x s) as [[[]|e|] s1]; cbn [fst snd] in *; try done.
  apply IH; [|done]. intros y Hy. apply Hf. by right.
Qed.

(** Visiting a file of [D] needs a recursion budget of at most the
    number of files of [D] not visited yet, plus one. *)
Lemma updateGraph_returns n p s :
  settled s → p ∈ D → size (D ∖ dom (_graph s)) < n →
  (updateGraph w n p s).1 ≠ OutOfFuel.
Proof.
  revert p s. induction n as [|n IH]; intros p s Hs Hp Hn; [lia|].
  cbn [updateGraph]. unfold bind at 1, get.
  destruct (_graph s !! p) as [files|] eqn:Hg; [done|].
  unfold bind at 1.
  pose proof (fileChanged_keeps w _ _ (settled_query_invariant w kh kg D HD) p s Hs)
    as Hs1.
  pose proof (fileChanged_graph w p s) as Hg1.
  destruct (fileChanged w p s) as [[c|e|] s1] eqn:Hfc; cbn [snd] in *; [|done|].
  2: { by apply fileChanged_not_out_of_fuel in Hfc. }
  apply fileChanged_ok in Hfc as (h & Hh & -> & _).
  rewrite (settled_own_change w kh kg D HD s1 p h Hs1 Hp Hh). cbn [negb].
  destruct (HD p Hp) as [_ (l & Hl & Hcl)].
  unfold bind at 1, get.
  pose proof Hs1 as (Hk1 & Hkg1 & _). rewrite Hkg1, Hl.
  unfold bind at 1, ret at 1. unfold bind at 1, modify.
  apply (for__returns (λ s', settled s' ∧ size (D ∖ dom (_graph s')) < n)).
  - intros x Hx s2 [Hs2 Hn2]. split; [by apply IH; auto|].
    split; [by apply (updateGraph_keeps w _ _ (settled_query_invariant w kh kg D HD))|].
    pose proof (updateGraph_extends w n x s2) as (_ & _ & _ & Eg & _).
    eapply Nat.le_lt_trans; [|done]. apply subseteq_size.
    apply subseteq_dom in Eg. set_solver.
  - split.
    + apply (qi_reuse w _ _ (settled_query_invariant w kh kg D HD) p s1 h l);
        try done; [congruence| |congruence].
      by apply (settled_own_change w kh kg D HD).
    + simpl_state. rewrite dom_insert_L, Hg1.
      assert (D ∖ ({[p]} ∪ dom (_graph s)) ⊂ D ∖ dom (_graph s)) as Hlt.
      { apply not_elem_of_dom in Hg. set_solver. }
      apply subset_size in Hlt. lia.
Qed.

(** Judging a visited file of [D]: the verdict is "unchanged", within
    a recursion budget of the number of files of [D] that are not among
    the ancestors. *)
Lemma dependenciesChanged_unchanged n p parents s :
  settled s → closed_except D ∅ s → p ∈ D → is_Some (_graph s !! p) →
  p ∉ default [] parents →
  size (D ∖ list_to_set (default [] parents)) ≤ n →
  (dependenciesChanged w n p parents s).1 = Ok false.
Proof.
  revert p parents s.
  induction n as [|n IH]; intros p parents s Hs Hc Hp [childs Hg] Hnin Hn.
  { assert (size (D ∖ list_to_set (default [] parents)) ≠ 0); [|lia].
    apply size_non_empty_iff. set_solver. }
  cbn [dependenciesChanged]. unfold bind at 1, get.
  destruct (_file_status s !! p) as [b|] eqn:Hf.
  { destruct Hs as (_ & _ & _ & _ & H3). by rewrite (H3 p b Hp Hf). }
  unfold bind at 1.
  pose proof (fileChanged_keeps w _ _ (settled_query_invariant w kh kg D HD) p s Hs)
    as Hs1.
  pose proof (fileChanged_graph w p s) as Hg1.
  destruct (fileChanged w p s) as [[c|e|] s1] eqn:Hfc; cbn [snd] in *.
  2: { apply fileChanged_raise in Hfc as (_ & _ & _ & Hr).
       destruct (HD p Hp) as [(h & Hd & _) _]. unfold disk_hash in Hd.
       by rewrite Hr in Hd. }
  2: { by apply fileChanged_not_out_of_fuel in Hfc. }
  apply fileChanged_ok in Hfc as (h & Hh & -> & _).
  rewrite (settled_own_change w kh kg D HD s1 p h Hs1 Hp Hh).
  unfold bind at 1. unfold bind at 1, get. rewrite Hg1, Hg.
  assert (∀ c, c ∈ childs → c ∈ D) as Hcl.
  { destruct (HD p Hp) as [_ (l & Hl & Hcl)].
    destruct Hs as (_ & _ & _ & H2 & _). apply (H2 p childs Hp) in Hg.
    assert (l = childs) as <- by congruence. done. }
  destruct (any__all_false (λ s', settled s' ∧ _graph s' = _graph s)
              (filter (λ f, f ∉ default [] parents ++ [p]) childs)
              (λ f, dependenciesChanged w n f (Some (default [] parents ++ [p]))))
    with (s := s1) as [Hany _].
  - intros x [Hx Hxc]%list_elem_of_filter s2 [Hs2 Hg2]. split; [|split].
    + apply IH; try done.
      * intros q l c. rewrite Hg2. apply Hc.
      * by apply Hcl.
      * rewrite Hg2. by apply (Hc p childs x).
      * change (size (D ∖ list_to_set (default [] parents ++ [p])) ≤ n).
        assert (D ∖ list_to_set (default [] parents ++ [p])
                ⊂ D ∖ list_to_set (default [] parents)) as Hlt.
        { rewrite list_to_set_app_L. set_solver. }
        apply subset_size in Hlt. lia.
    + by apply (dependenciesChanged_keeps w _ _ (settled_query_invariant w kh kg D HD)).
    + by rewrite dependenciesChanged_graph.
  - done.
  - destruct (any_ _ _ s1) as [[b|e|] s2]; cbn [fst] in Hany; [|done..].
    by injection Hany as ->.
Qed.

Lemma query_unchanged n p s :
  settled s → closed_except D ∅ s → p ∈ D → size D < n →
  (query w n p s).1 = Ok false.
Proof.
  intros Hs Hc Hp Hn. unfold query, bind.
  pose proof (updateGraph_returns n p s Hs Hp) as Hr.
  pose proof (updateGraph_keeps w _ _ (settled_query_invariant w kh kg D HD) n p s Hs)
    as Hs1.
  destruct (updateGraph w n p s) as [r s1] eqn:Hu. cbn [fst snd] in *.
  destruct (updateGraph_closure w kh kg D HD n p ∅ s r s1 Hs Hc Hp Hu)
    as (-> & Hc1 & Hp1).
  { apply Hr. eapply Nat.le_lt_trans; [|done]. apply subseteq_size. set_solver. }
  apply dependenciesChanged_unchanged; try done.
  - by intros ?%elem_of_nil.
  - cbn. etrans; [apply subseteq_size|apply Nat.lt_le_incl, Hn]. set_solver.
Qed.

Lemma query_closed n p s :
  settled s → closed_except D ∅ s → (query w n p s).1 ≠ OutOfFuel →
  closed_except D ∅ (query w n p s).2.
Proof.
  intros Hs Hc. unfold query, bind.
  destruct (updateGraph w n p s) as [r s1] eqn:Hu.
  pose proof (updateGraph_closed w kh kg D HD n p s r s1 Hs Hc Hu) as Hc1.
  destruct r as [[]|e|]; cbn [fst snd]; [|by auto..].
  intros _ q l c. rewrite dependenciesChanged_graph. by apply Hc1.
Qed.

Lemma answer_fst_out_of_fuel r : (answer r).1 = OutOfFuel → r.1 = OutOfFuel.
Proof. by destruct r as [[[]|e|] s]. Qed.

Lemma answer_snd r : (answer r).2 = r.2.
Proof. by destruct r as [[[]|e|] s]. Qed.

Lemma run_closed cs s :
  settled s → closed_except D ∅ s → within_budget w cs s →
  closed_except D ∅ (run w cs s).
Proof.
  revert s. induction cs as [|c cs IH]; intros s Hs Hc; [done|].
  cbn [within_budget run foldl]. intros [Hb Hrest].
  apply IH; [|clear Hrest|done].
  { apply (settled_run w kh kg D HD s [c] Hs). }
  destruct c as [n m|n cls|t]; cbn [do_call].
  - revert Hb. rewrite wantModule_query.
    destruct (getsourcefile w m) as [[p|]|e0]; [|done..].
    intros Hb. rewrite answer_snd. apply query_closed; try done.
    intros Hq. apply Hb. by destruct (query w n p s) as [[[]|e|] s1].
  - revert Hb. rewrite wantClass_query.
    destruct (getsourcefile w cls) as [[p|]|e0]; [|done..].
    intros Hb. rewrite answer_snd. apply query_closed; try done.
    intros Hq. apply Hb. by destruct (query w n p s) as [[[]|e|] s1].
  - unfold afterTest. case_bool_decide; [|done]. unfold bind, get, modify. done.
Qed.

Lemma closure_query s cs n p :
  fresh s → _known_hashes s = kh → _known_graph s = kg →
  within_budget w cs s → p ∈ D → size D < n →
  (query w n p (run w cs s)).1 = Ok false.
Proof.
  intros Hs Hkh Hkg Hb Hp Hn.
  pose proof (settled_fresh w _ _ D s Hs Hkh Hkg) as Hs0.
  pose proof (settled_run w _ _ D HD s cs Hs0) as Hrun.
  assert (closed_except D ∅ s) as Hc0.
  { intros q l c _ _. destruct Hs as (-> & _). by rewrite lookup_empty. }
  pose proof (run_closed cs s Hs0 Hc0 Hb) as Hc.
  by apply query_unchanged.
Qed.
End closure_answers.

(** X10 (an unchanged closure is never judged changed).  Let [D] be a
    set of files each of which has on disk the content the prior run
    recorded, and whose prior edge lists stay inside [D].  In a run that
    starts with nothing visited, whatever was asked before, with whatever
    recursion budget, and whether or not earlier calls raised: the query
    for a file of [D] never returns "changed", so [wantModule] and
    [wantClass] never let a unit of [D] run by answering [None] for
    it. *)
Theorem unchanged_closure_never_changed (w : World) (s : plugin) (D : gset path)
    (cs : list call) (n : nat) (p : path) :
  fresh s → unchanged_closure w (_known_hashes s) (_known_graph s) D → p ∈ D →
  (query w n p (run w cs s)).1 ≠ Ok true ∧
  ∀ m, getsourcefile w m = Returns (Some p) →
    (wantModule w n m (run w cs s)).1 ≠ Ok None ∧
    (wantClass w n m (run w cs s)).1 ≠ Ok None.
Proof.
  intros Hs HD Hp.
  pose proof (settled_run w _ _ D HD s cs (settled_fresh w _ _ D s Hs eq_refl eq_refl))
    as Hrun.
  pose proof (query_keeps w _ _ (settled_query_invariant w _ _ D HD) I n p _ Hrun)
    as Hq.
  assert ((query w n p (run w cs s)).1 ≠ Ok true) as Hne.
  { destruct (query w n p (run w cs s)) as [[b|e|] s'] eqn:Heq; cbn [fst snd] in *;
      try done.
    apply query_memoizes in Heq. destruct Hq as (_ & _ & _ & _ & H3).
    by rewrite (H3 p b Hp Heq). }
  split; [done|]. intros m Hm. rewrite wantModule_query, wantClass_query, Hm.
  by destruct (query w n p (run w cs s)) as [[[]|e|] s'].
Qed.

Lemma cycle_unchanged_closure :
  unchanged_closure cycle_world (_known_hashes cycle_start)
    (_known_graph cycle_start) {["A"; "B"]}.
Proof.
  intros q Hq.
  assert (q = "A" ∨ q = "B") as [->| ->] by set_solver.
  - split; [exists "a"; split; reflexivity|].
    exists ["B"]. split; [reflexivity|]. set_solver.
  - split; [exists "b"; split; reflexivity|].
    exists ["A"]. split; [reflexivity|]. set_solver.
Qed.

Lemma unchanged_closure_never_changed_witness :
  (query cycle_world 1 "B"
     (run cycle_world [WantModule 1 (PyModule "A")] cycle_start)).1 ≠ Ok true.
Proof.
  refine (proj1 (unchanged_closure_never_changed cycle_world cycle_start {["A"; "B"]}
                   [WantModule 1 (PyModule "A")] 1 "B" _ cycle_unchanged_closure _)).
  - split_and!; reflexivity.
  - set_solver.
Defined.

(** X11 (an unchanged closure is skipped).  With [D] as above, in a
    run that starts with nothing visited and in which no earlier call
    exceeded its recursion budget (the earlier calls may concern any
    file, changed or not, and may have raised): given a recursion budget
    larger than the number of files of [D], [wantModule] and [wantClass]
    return [False] (skip) for every unit whose source is in [D]; they
    neither raise nor answer [None]. *)
Theorem unchanged_closure_is_skipped (w : World) (s : plugin) (D : gset path)
    (cs : list call) (n : nat) (m : pyobject) (p : path) :
  fresh s → unchanged_closure w (_known_hashes s) (_known_graph s) D →
  within_budget w cs s →
  getsourcefile w m = Returns (Some p) → p ∈ D → size D < n →
  (wantModule w n m (run w cs s)).1 = Ok (Some false) ∧
  (wantClass w n m (run w cs s)).1 = Ok (Some false).
Proof.
  intros Hs HD Hb Hm Hp Hn.
  pose proof (closure_query w _ _ D HD s cs n p Hs eq_refl eq_refl Hb Hp Hn) as Hq.
  rewrite wantModule_query, wantClass_query, Hm.
  destruct (query w n p (run w cs s)) as [[[]|e|] s'] eqn:Heq; cbn [fst] in Hq;
    try done.
Qed.

Lemma unchanged_closure_is_skipped_witness :
  (wantModule cycle_world 3 (PyModule "B")
     (run cycle_world [WantModule 3 (PyModule "A")] cycle_start)).1 = Ok (Some false).
Proof.
  refine (proj1 (unchanged_closure_is_skipped cycle_world cycle_start {["A"; "B"]}
                   [WantModule 3 (PyModule "A")] 3 (PyModule "B") "B"
                   _ cycle_unchanged_closure _ eq_refl _ _)).
  - split_and!; reflexivity.
  - split; [by vm_compute|done].
  - set_solver.
  - vm_compute. lia.
Defined.

(** ** Termination *)

Section termination.
Context (w : World).

Lemma any__returns {X} (J : plugin → Prop) (l : list X) (f : X → M bool) :
  (∀ x, x ∈ l → ∀ s, J s → (f x s).1 ≠ OutOfFuel ∧ J (f x s).2) →
  ∀ s, J s → (any_ f l s).1 ≠ OutOfFuel.
Proof.
  induction l as [|x l IH]; intros Hf s Hs; [done|].
  cbn [any_]. unfold bind.
  destruct (Hf x ltac:(left) s Hs) as [Hx Hs1].
  destruct (f x s) as [[[]|e|] s1]; cbn [fst snd] in *; try done.
  apply IH; [|done]. intros y Hy. apply Hf. by right.
Qed.

(** Judging a file needs a recursion budget of at most the number of
    visited files that are not among the ancestors, plus one. *)
Lemma dependenciesChanged_returns n p parents s :
  p ∉ default [] parents →
  size (dom (_graph s) ∖ list_to_set (default [] parents)) < n →
  (dependenciesChanged w n p parents s).1 ≠ OutOfFuel.
Proof.
  revert p parents s. induction n as [|n IH]; intros p parents s Hnin Hn; [lia|].
  cbn [dependenciesChanged]. unfold bind at 1, get.
  destruct (_file_status s !! p) as [b|] eqn:Hf; [done|].
  unfold bind at 1. pose proof (fileChanged_graph w p s) as Hg1.
  destruct (fileChanged w p s) as [[c|e|] s1] eqn:Hfc; cbn [snd] in *; [|done|].
  2: { by apply fileChanged_not_out_of_fuel in Hfc. }
  destruct c.
  { unfold bind at 1, ret at 1. by unfold bind at 1, modify, ret. }
  unfold bind at 1. unfold bind at 1, get.
  destruct (_graph s1 !! p) as [childs|] eqn:Hg; [|done].
  assert ((any_ (λ f, dependenciesChanged w n f (Some (default [] parents ++ [p])))
             (filter (λ f, f ∉ default [] parents ++ [p]) childs) s1).1 ≠ OutOfFuel)
    as Hany.
  { apply (any__returns (λ s', _graph s' = _graph s)); [|done].
    intros x [Hx _]%list_elem_of_filter s2 Hg2. split.
    - apply IH; [done|].
      change (size (dom (_graph s2) ∖ list_to_set (default [] parents ++ [p])) < n).
      rewrite Hg2.
      assert (dom (_graph s) ∖ list_to_set (default [] parents ++ [p])
              ⊂ dom (_graph s) ∖ list_to_set (default [] parents)) as Hlt.
      { rewrite list_to_set_app_L. rewrite Hg1 in Hg.
        apply (elem_of_dom_2 (_graph s)) in Hg. set_solver. }
      apply subset_size in Hlt. lia.
    - by rewrite dependenciesChanged_graph. }
  by destruct (any_ _ _ s1) as [[b|e|] s2].
Qed.

Context (kg : gmap path (list path)) (U : gset path).
Context (HU : universe w kg U).

(** The edge list [updateGraph] records for a file of [U]. *)
Lemma updateGraph_files c p s1 r s2 :
  (match negb c, _known_graph s1 !! p with
   | true, Some files => ret files
   | _, _ => inspectDependencies w p
   end) s1 = (r, s2) →
  _known_graph s1 = kg → p ∈ U →
  _graph s2 = _graph s1 ∧ _known_graph s2 = kg ∧ r ≠ OutOfFuel ∧
  ∀ files, r = Ok files → ∀ x, x ∈ files → x ∈ U.
Proof.
  intros Hr Hk Hp.
  assert (inspectDependencies w p s1 = (r, s2) →
          _graph s2 = _graph s1 ∧ _known_graph s2 = kg ∧ r ≠ OutOfFuel ∧
          ∀ files, r = Ok files → ∀ x, x ∈ files → x ∈ U) as Hi.
  { rewrite inspectDependencies_cases.
    destruct (find_dependencies w p) as [l| |tag] eqn:Hl;
      [|destruct (decide (p ∈ _ignored_files s1))|]; intros [= <- <-];
      split_and!; try done.
    - intros files [= <-] x [[Hx _] Hin]%list_elem_of_filter.
      by apply (proj2 (HU p l x Hp Hin)).
    - intros files [= <-] x Hx. by apply elem_of_nil in Hx. }
  destruct (negb c); [|by apply Hi].
  destruct (_known_graph s1 !! p) as [files|] eqn:Hkg; [|by apply Hi].
  injection Hr as <- <-. split_and!; try done.
  intros files' [= <-] x Hx. apply (proj1 (HU p files x Hp Hx)). congruence.
Qed.

(** The visited files stay inside [U], and visiting needs a recursion
    budget of at most the number of files of [U] not visited yet, plus
    one. *)
Lemma updateGraph_universe n p s r s' :
  _known_graph s = kg → dom (_graph s) ⊆ U → p ∈ U →
  updateGraph w n p s = (r, s') →
  (_known_graph s' = kg ∧ dom (_graph s') ⊆ U) ∧
  (size (U ∖ dom (_graph s)) < n → r ≠ OutOfFuel).
Proof.
  revert p s r s'. induction n as [|n IH]; intros p s r s' Hk Hdom Hp.
  { intros [= <- <-]. split; [done|lia]. }
  cbn [updateGraph]. unfold bind at 1, get.
  destruct (_graph s !! p) as [files|] eqn:Hg.
  { by intros [= <- <-]. }
  unfold bind at 1. pose proof (fileChanged_graph w p s) as Hg1.
  assert (_known_graph (fileChanged w p s).2 = kg) as Hk1.
  { destruct (fileChanged_cases w s p)
      as [(h & Hh & ->) | [(h & Hh & Hd & ->) | (Hh & Hd & ->)]]; done. }
  destruct (fileChanged w p s) as [[c|e|] s1] eqn:Hfc; cbn [snd] in *.
  2: { intros [= <- <-]. split; [by rewrite Hg1|done]. }
  2: { by apply fileChanged_not_out_of_fuel in Hfc. }
  unfold bind at 1, get. unfold bind at 1.
  destruct ((match negb c, _known_graph s1 !! p with
             | true, Some files => ret files
             | _, _ => inspectDependencies w p
             end) s1) as [r2 s2] eqn:Hr.
  destruct (updateGraph_files c p s1 r2 s2 Hr Hk1 Hp) as (Hg2 & Hk2 & Hne & Hfiles).
  destruct r2 as [files|e|]; [|intros [= <- <-]; split; [by rewrite Hg2, Hg1|done]|done].
  specialize (Hfiles files eq_refl).
  unfold bind at 1, modify.
  assert (dom (<[p := files]> (_graph s2)) ⊆ U) as Hdom2.
  { rewrite dom_insert_L, Hg2, Hg1. set_solver. }
  intros Hfor. split.
  - pose proof (for__preserves_in
        (λ s', _known_graph s' = kg ∧ dom (_graph s') ⊆ U) files (updateGraph w n))
      as Hpres.
    specialize (Hpres ltac:(intros x Hx s3 [Hk3 Hd3];
      destruct (updateGraph w n x s3) as [r3 s4] eqn:Hx3;
      by destruct (IH x s3 r3 s4 Hk3 Hd3 (Hfiles x Hx) Hx3))
      (set_graph (<[p := files]> (_graph s2)) s2) (conj Hk2 Hdom2)).
    by rewrite Hfor in Hpres.
  - intros Hn.
    change r with (r, s').1. rewrite <- Hfor.
    apply (for__returns
        (λ s', (_known_graph s' = kg ∧ dom (_graph s') ⊆ U) ∧
               size (U ∖ dom (_graph s')) < n)).
    + intros x Hx s3 [[Hk3 Hd3] Hn3].
      pose proof (updateGraph_extends w n x s3) as (_ & _ & _ & Eg & _).
      destruct (updateGraph w n x s3) as [r3 s4] eqn:Hx3. cbn [fst snd] in *.
      destruct (IH x s3 r3 s4 Hk3 Hd3 (Hfiles x Hx) Hx3) as [HT Hr3].
      split; [by apply Hr3|]. split; [done|].
      eapply Nat.le_lt_trans; [|done]. apply subseteq_size.
      apply subseteq_dom in Eg. set_solver.
    + split; [done|]. simpl_state. rewrite dom_insert_L, Hg2, Hg1.
      assert (U ∖ ({[p]} ∪ dom (_graph s)) ⊂ U ∖ dom (_graph s)) as Hlt.
      { apply not_elem_of_dom in Hg. set_solver. }
      apply subset_size in Hlt. lia.
Qed.

Lemma query_universe n p s :
  _known_graph s = kg → dom (_graph s) ⊆ U → p ∈ U →
  (_known_graph (query w n p s).2 = kg ∧ dom (_graph (query w n p s).2) ⊆ U) ∧
  (size U < n → (query w n p s).1 ≠ OutOfFuel).
Proof.
  intros Hk Hdom Hp. unfold query, bind.
  destruct (updateGraph w n p s) as [r s1] eqn:Hu.
  destruct (updateGraph_universe n p s r s1 Hk Hdom Hp Hu) as [[Hk1 Hd1] Hret].
  destruct r as [[]|e|]; cbn [fst snd] in *.
  - split.
    + rewrite dependenciesChanged_graph. split; [|done].
      pose proof (dependenciesChanged_extends w n p None s1) as (_ & -> & _). done.
    + intros Hn. apply dependenciesChanged_returns; [by intros ?%elem_of_nil|].
      eapply Nat.le_lt_trans; [|done]. apply subseteq_size. set_solver.
  - done.
  - split; [done|]. intros Hn. destruct Hret; [|done].
    eapply Nat.le_lt_trans; [|done]. apply subseteq_size. set_solver.
Qed.
End termination.

(** X12 (termination).  Let [U] be a finite set of files closed under
    the prior edge lists and under the regular files the resolver
    reports, and containing every file visited so far.  If every queried
    unit has its source in [U] and every call is given a recursion budget
    larger than the number of files of [U], no call of the run exceeds
    its budget, whatever cycles the import graph has, whichever files
    changed, and whether or not calls raise. *)
Theorem run_within_budget (w : World) (s : plugin) (U : gset path) (cs : list call) :
  dom (_graph s) ⊆ U → universe w (_known_graph s) U →
  Forall (budgeted w U) cs → within_budget w cs s.
Proof.
  intros Hdom HU Hcs. remember (_known_graph s) as kg eqn:Hk. symmetry in Hk.
  revert s Hk Hdom. induction Hcs as [|c cs Hc Hcs IH]; intros s Hk Hdom; [done|].
  cbn [within_budget].
  assert (∀ n m, budgeted w U (WantModule n m) →
            (answer (match getsourcefile w m with
                     | Returns (Some p) => query w n p s
                     | _ => (Ok false, s)
                     end)).1 ≠ OutOfFuel ∧
            _known_graph (match getsourcefile w m with
                          | Returns (Some p) => query w n p s
                          | _ => (Ok false, s)
                          end).2 = kg ∧
            dom (_graph (match getsourcefile w m with
                         | Returns (Some p) => query w n p s
                         | _ => (Ok false, s)
                         end).2) ⊆ U) as Hq.
  { intros n m [Hn Hm]. destruct (getsourcefile w m) as [[p|]|e0]; [|done..].
    destruct (query_universe w kg U HU n p s Hk Hdom (Hm p eq_refl)) as [[Hk1 Hd1] Hr].
    split; [|done]. specialize (Hr Hn).
    by destruct (query w n p s) as [[[]|e|] s1]. }
  destruct c as [n m|n cls|t]; cbn [do_call].
  - destruct (Hq n m Hc) as (Hr & Hk1 & Hd1).
    rewrite wantModule_query.
    destruct (getsourcefile w m) as [[p|]|e0]; [|split; [done|by apply IH]..].
    split; [done|]. apply IH; by rewrite answer_snd.
  - destruct (Hq n cls Hc) as (Hr & Hk1 & Hd1).
    rewrite wantClass_query.
    destruct (getsourcefile w cls) as [[p|]|e0]; [|split; [done|by apply IH]..].
    split; [done|]. apply IH; by rewrite answer_snd.
  - split; [done|]. apply IH; unfold afterTest; case_bool_decide; done.
Qed.

Lemma run_within_budget_witness :
  within_budget chain_world
    [WantModule 4 (PyModule "A"); AfterTest (Test (Some false) (Some "A"));
     WantClass 4 (PyClass "B" "T")] chain_start.
Proof.
  apply (run_within_budget chain_world chain_start {["A"; "B"; "C"]}).
  - set_solver.
  - intros q l c Hq Hc.
    assert (q = "A" ∨ q = "B" ∨ q = "C") as [->|[->| ->]] by set_solver.
    all: split; [intros [= <-]; set_solver|intros [= <-]; set_solver].
  - repeat constructor; cbn; try (vm_compute; lia).
    all: intros p; repeat case_bool_decide; try done; intros [= <-]; set_solver.
Defined.

(** ** Where exceptions come from *)

Section raising.
Context (w : World).

Lemma closed_graph_weaken P s s' :
  closed_graph P s → _graph s' = _graph s → _hashes s ⊆ _hashes s' →
  closed_graph P s'.
Proof.
  intros [Hc Hh] Eg Eh. split; rewrite Eg; [done|].
  intros q Hq. destruct (Hh q Hq) as [h Hqh]. exists h. by eapply lookup_weaken.
Qed.

(** A visit that returns leaves the graph closed, except for the files
    whose own visit is still under way. *)
Lemma updateGraph_ok_closed n p P s s' :
  closed_graph P s → updateGraph w n p s = (Ok tt, s') →
  closed_graph P s' ∧ is_Some (_graph s' !! p).
Proof.
  revert p P s s'. induction n as [|n IH]; intros p P s s' Hc; [done|].
  cbn [updateGraph]. unfold bind at 1, get.
  destruct (_graph s !! p) as [files|] eqn:Hg.
  { intros [= <-]. by rewrite Hg. }
  unfold bind at 1. pose proof (fileChanged_graph w p s) as Hg1.
  destruct (fileChanged w p s) as [[c|e|] s1] eqn:Hfc; cbn [snd] in *; [|done..].
  apply fileChanged_ok in Hfc as (h & Hh & _ & Hs1).
  unfold bind at 1, get. unfold bind at 1.
  destruct ((match negb c, _known_graph s1 !! p with
             | true, Some files => ret files
             | _, _ => inspectDependencies w p
             end) s1) as [[files|e|] s2] eqn:Hr; [|done..].
  assert (_graph s2 = _graph s1 ∧ _hashes s2 = _hashes s1) as [Hg2 Hh2].
  { assert (inspectDependencies w p s1 = (Ok files, s2) →
            _graph s2 = _graph s1 ∧ _hashes s2 = _hashes s1) as Hi.
    { rewrite inspectDependencies_cases.
      destruct (find_dependencies w p) as [l| |tag];
        [|destruct (decide (p ∈ _ignored_files s1))|]; by intros [= <- <-]. }
    destruct (negb c); [|by apply Hi].
    destruct (_known_graph s1 !! p); [|by apply Hi]. by injection Hr as <- <-. }
  unfold bind at 1, modify.
  assert (closed_graph (P ∪ {[p]}) (set_graph (<[p := files]> (_graph s2)) s2)) as Hc2.
  { destruct Hc as [Hc Hk]. split; simpl_state.
    - intros q l y Hq. rewrite lookup_insert_ne by set_solver.
      rewrite Hg2, Hg1. intros Hl Hcl.
      destruct (Hc q l y) as [x Hx]; [set_solver|done..|].
      exists x. rewrite lookup_insert_ne; [done|]. intros ->. congruence.
    - intros q. rewrite Hh2. destruct (decide (p = q)) as [<-|Hne]; [by eexists|].
      rewrite lookup_insert_ne by done. rewrite Hg2, Hg1. intros Hq.
      destruct (Hk q Hq) as [x Hx]. exists x.
      destruct Hs1 as [->|(_ & _ & ->)]; [done|]. simpl_state.
      rewrite lookup_insert_ne; [done|]. congruence. }
  assert (_graph (set_graph (<[p := files]> (_graph s2)) s2) !! p = Some files) as Hp2.
  { simpl_state. apply lookup_insert_eq. }
  revert Hc2 Hp2. generalize (set_graph (<[p := files]> (_graph s2)) s2).
  clear Hg Hg1 Hh Hc Hs1 Hr Hg2 Hh2 s s1 s2 c.
  intros s Hc Hps Hfor.
  assert (closed_graph (P ∪ {[p]}) s' ∧ _graph s ⊆ _graph s' ∧
          ∀ c, c ∈ files → is_Some (_graph s' !! c)) as (Hc' & Hsub & Hvis).
  { clear Hps. revert s Hc Hfor.
    induction files as [|x l IHl]; intros s Hc.
    - intros [= <-]. split_and!; try done. by intros c ?%elem_of_nil.
    - cbn [for_]. unfold bind.
      pose proof (updateGraph_extends w n x s) as Hext.
      destruct (updateGraph w n x s) as [[[]|e|] s1] eqn:Hx; [|done..].
      cbn [snd] in *. destruct (IH x _ s s1 Hc Hx) as (Hc1 & Hx1).
      intros Hfor. destruct (IHl s1 Hc1 Hfor) as (Hc' & Hsub & Hvis).
      destruct Hext as (_ & _ & _ & Eg & _).
      split_and!; try done; [by etrans|].
      intros c [->|Hin]%elem_of_cons; [|by apply Hvis].
      destruct Hx1 as [y Hy]. exists y. by eapply lookup_weaken. }
  pose proof (lookup_weaken _ _ _ _ Hps Hsub) as Hps'.
  split; [|by eexists]. destruct Hc' as [Hc' Hk']. split; [|done].
  intros q l' c Hq Hl' Hin.
  destruct (decide (q = p)) as [->|Hne].
  - assert (l' = files) as -> by congruence. by apply Hvis.
  - apply (Hc' q l' c); [set_solver|done..].
Qed.

Lemma any__no_raise {X} (J : plugin → Prop) (l : list X) (f : X → M bool) :
  (∀ x, x ∈ l → ∀ s, J s → (∀ e, (f x s).1 ≠ Raise e) ∧ J (f x s).2) →
  ∀ s, J s → ∀ e, (any_ f l s).1 ≠ Raise e.
Proof.
  induction l as [|x l IH]; intros Hf s Hs e; [done|].
  cbn [any_]. unfold bind.
  destruct (Hf x ltac:(left) s Hs) as [Hx Hs1].
  destruct (f x s) as [[[]|e'|] s1]; cbn [fst snd] in *; try done.
  apply IH; [|done]. intros y Hy. apply Hf. by right.
Qed.

(** Judging a visited file of a closed graph never raises: every hash
    it needs is cached, and every graph entry it reads is present. *)
Lemma dependenciesChanged_no_raise n p parents s :
  closed_graph ∅ s → is_Some (_graph s !! p) →
  ∀ e, (dependenciesChanged w n p parents s).1 ≠ Raise e.
Proof.
  revert p parents s. induction n as [|n IH]; intros p parents s Hc [childs Hg] e;
    [done|].
  cbn [dependenciesChanged]. unfold bind at 1, get.
  destruct (_file_status s !! p) as [b|] eqn:Hf; [done|].
  destruct (proj2 Hc p ltac:(by eexists)) as [h Hh].
  unfold bind at 1. rewrite (fileChanged_cached w s p h Hh).
  destruct (own_change s p h).
  { unfold bind at 1, ret at 1. by unfold bind at 1, modify, ret. }
  unfold bind at 1. unfold bind at 1, get. rewrite Hg.
  pose proof (any__no_raise (λ s', closed_graph ∅ s' ∧ _graph s' = _graph s)
                (filter (λ f, f ∉ default [] parents ++ [p]) childs)
                (λ f, dependenciesChanged w n f (Some (default [] parents ++ [p]))))
    as Hany.
  assert (∀ e, (any_ (λ f, dependenciesChanged w n f
                             (Some (default [] parents ++ [p])))
                  (filter (λ f, f ∉ default [] parents ++ [p]) childs) s).1 ≠ Raise e)
    as Hne.
  { apply Hany; [|done]. intros x [_ Hx]%list_elem_of_filter s1 [Hc1 Hg1]. split.
    - apply IH; [done|]. rewrite Hg1. by apply (proj1 Hc p childs x).
    - pose proof (dependenciesChanged_graph w n x (Some (default [] parents ++ [p])) s1)
        as Hg2.
      pose proof (dependenciesChanged_extends w n x
                    (Some (default [] parents ++ [p])) s1)
        as (_ & _ & _ & _ & Eh & _).
      split; [|congruence]. by apply (closed_graph_weaken ∅ s1). }
  specialize (Hne e).
  by destruct (any_ _ _ s) as [[b|e'|] s2].
Qed.

Lemma query_ok_closed n p s b s' :
  closed_graph ∅ s → query w n p s = (Ok b, s') → closed_graph ∅ s'.
Proof.
  intros Hc. unfold query, bind.
  destruct (updateGraph w n p s) as [[[]|e|] s1] eqn:Hu; [|done..].
  destruct (updateGraph_ok_closed n p ∅ s s1 Hc Hu) as [Hc1 _].
  intros Hd.
  pose proof (dependenciesChanged_graph w n p None s1) as Hg2.
  pose proof (dependenciesChanged_extends w n p None s1) as (_ & _ & _ & _ & Eh & _).
  rewrite Hd in Hg2, Eh. by apply (closed_graph_weaken ∅ s1).
Qed.

Lemma run_closed_graph cs s :
  closed_graph ∅ s → all_returned w cs s → closed_graph ∅ (run w cs s).
Proof.
  revert s. induction cs as [|c cs IH]; intros s Hc; [done|].
  cbn [all_returned run foldl]. intros [Hb Hrest]. apply IH; [clear Hrest|done].
  destruct c as [n m|n cls|t]; cbn [do_call].
  - revert Hb. rewrite wantModule_query.
    destruct (getsourcefile w m) as [[p|]|e0]; [|done..].
    destruct (query w n p s) as [[b|e|] s1] eqn:Hq; cbn; [|done..].
    intros _. by eapply query_ok_closed.
  - revert Hb. rewrite wantClass_query.
    destruct (getsourcefile w cls) as [[p|]|e0]; [|done..].
    destruct (query w n p s) as [[b|e|] s1] eqn:Hq; cbn; [|done..].
    intros _. by eapply query_ok_closed.
  - unfold afterTest. case_bool_decide; [|done]. unfold bind, get, modify. done.
Qed.
End raising.

(** X13 (exceptions come from the visit, not from the verdict).  In a
    run that starts with nothing visited and whose earlier calls all
    returned: once [updateGraph(source)] has returned,
    [dependenciesChanged(source)] never raises.  Every hash it asks
    for is cached and every graph entry it reads is present, so the
    [KeyError] of [self._graph[path]] cannot occur; with a recursion
    budget larger than the number of visited files it returns a
    verdict. *)
Theorem verdict_never_raises (w : World) (s : plugin) (cs : list call)
    (n : nat) (p : path) (s1 : plugin) :
  fresh s → all_returned w cs s →
  updateGraph w n p (run w cs s) = (Ok tt, s1) →
  (∀ e, (dependenciesChanged w n p None s1).1 ≠ Raise e) ∧
  (size (dom (_graph s1)) < n →
   ∃ b, (dependenciesChanged w n p None s1).1 = Ok b).
Proof.
  intros Hs Hcs Hu.
  assert (closed_graph ∅ s) as Hc0.
  { destruct Hs as (Hg & _). split; intros *; rewrite Hg, lookup_empty; [done|].
    by intros [? ?]. }
  pose proof (run_closed_graph w cs s Hc0 Hcs) as Hc.
  destruct (updateGraph_ok_closed w n p ∅ _ s1 Hc Hu) as [Hc1 Hp1].
  pose proof (dependenciesChanged_no_raise w n p None s1 Hc1 Hp1) as Hne.
  split; [done|]. intros Hn.
  pose proof (dependenciesChanged_returns w n p None s1) as Hret.
  destruct (dependenciesChanged w n p None s1) as [[b|e|] s2]; cbn [fst] in *.
  - by exists b.
  - by destruct (Hne e).
  - destruct Hret; [by intros ?%elem_of_nil| |done].
    eapply Nat.le_lt_trans; [|done]. apply subseteq_size. set_solver.
Qed.

Lemma verdict_never_raises_witness :
  ∃ b, (dependenciesChanged chain_world 4 "B" None
          (updateGraph chain_world 4 "B"
             (run chain_world [WantModule 4 (PyModule "A")] chain_start)).2).1 = Ok b.
Proof.
  refine (proj2 (verdict_never_raises chain_world chain_start
                   [WantModule 4 (PyModule "A")] 4 "B" _ _ _ _) _).
  - split_and!; reflexivity.
  - split; [by vm_compute|done].
  - apply pair_eta_fst. by vm_compute.
  - vm_compute. lia.
Defined.

(** ** From one run to the next *)

Section next_run.
Context (w : World).

Lemma configure_loaded wd h g :
  isfile w (join wd (hash_file initial)) = true →
  pickle_load w (join wd (hash_file initial)) = Unpickled (Some h) (Some g) →
  configure w wd initial = (Ok tt, start (join wd (hash_file initial)) h g).
Proof.
  intros Hf Hl. unfold configure. unfold bind at 1, get.
  unfold bind at 1, modify at 1. rewrite Hf, Hl. by unfold bind, modify.
Qed.

Lemma merged_hashes_visited s q h :
  _hashes s !! q = Some h → Some q ∉ _failed_test_modules s →
  merged_hashes s !! q = Some h.
Proof.
  intros Hh Hf. unfold merged_hashes. apply map_lookup_filter_Some. split; [|done].
  by apply lookup_union_Some_l.
Qed.
End next_run.

(** X14 (what a run dumps makes the next run skip).  Let a run from a
    state with nothing visited end with [finalize] dumping [d], and let
    [D] be a set of files that the run hashed, none of them the address
    of a failed test, closed under the edges of the dumped graph.  If
    the next run loads [d] at [configure] and the files of [D] have the
    same content on disk as before, then, as long as no earlier call of
    the next run exceeded its recursion budget, [wantModule] and
    [wantClass] answer [False] (skip) for every unit whose source is in
    [D], given a recursion budget larger than the number of files of
    [D]. *)
Theorem next_run_skips (w w2 : World) (s : plugin) (cs : list call) (d : persisted)
    (D : gset path) (wd : path) (cs2 : list call) (n : nat) (m : pyobject)
    (p : path) :
  fresh s →
  (finalize (run w cs s)).1 = Ok d →
  (∀ q, q ∈ D →
     is_Some (_hashes (run w cs s) !! q) ∧
     (Some q ∉ _failed_test_modules (run w cs s)) ∧
     disk_hash w2 q = disk_hash w q ∧
     ∃ l, graph d !! q = Some l ∧ ∀ c, c ∈ l → c ∈ D) →
  isfile w2 (join wd (hash_file initial)) = true →
  pickle_load w2 (join wd (hash_file initial))
    = Unpickled (Some (hashes d)) (Some (graph d)) →
  within_budget w2 cs2 (configure w2 wd initial).2 →
  getsourcefile w2 m = Returns (Some p) → p ∈ D → size D < n →
  (configure w2 wd initial).1 = Ok tt ∧
  (wantModule w2 n m (run w2 cs2 (configure w2 wd initial).2)).1 = Ok (Some false) ∧
  (wantClass w2 n m (run w2 cs2 (configure w2 wd initial).2)).1 = Ok (Some false).
Proof.
  intros Hs Hfin HD Hfile Hload. rewrite (configure_loaded w2 wd _ _ Hfile Hload).
  cbn [fst snd]. intros Hb Hm Hp Hn. split; [done|].
  revert Hfin. rewrite finalize_closed_form. cbn [fst]. intros [= <-].
  cbn [hashes graph] in *.
  assert (unchanged_closure w2 (merged_hashes (run w cs s))
            (merged_graph (run w cs s)) D) as HD'.
  { intros q Hq. destruct (HD q Hq) as ([h Hh] & Hnf & Hdisk & Hl). split; [|done].
    exists h. split; [|by apply merged_hashes_visited].
    rewrite Hdisk. by apply (run_hashed_inv w s cs Hs). }
  assert (∀ f h g, fresh (start f h g)) as Hfresh by (intros; by split_and!).
  pose proof (closure_query w2 _ _ D HD' _ cs2 n p
                (Hfresh _ _ _) eq_refl eq_refl Hb Hp Hn) as Hq.
  rewrite wantModule_query, wantClass_query, Hm.
  destruct (query w2 n p _) as [[[]|e|] s'] eqn:Heq; cbn [fst] in Hq; try done.
Qed.

Lemma next_run_skips_witness :
  (configure rerun_world "/proj" initial).1 = Ok tt ∧
  (wantModule rerun_world 4 (PyModule "A")
     (run rerun_world [] (configure rerun_world "/proj" initial).2)).1
  = Ok (Some false).
Proof.
  destruct (next_run_skips chain_world rerun_world chain_start
              [WantModule 4 (PyModule "A")]
              (Persisted
                 (merged_hashes (run chain_world [WantModule 4 (PyModule "A")]
                                   chain_start))
                 (merged_graph (run chain_world [WantModule 4 (PyModule "A")]
                                  chain_start)))
              {["A"; "B"; "C"]} "/proj" [] 4 (PyModule "A") "A")
    as (Hc & Hm & _).
  - split_and!; reflexivity.
  - by rewrite finalize_closed_form.
  - intros q Hq.
    assert (q = "A" ∨ q = "B" ∨ q = "C") as [->|[->| ->]] by set_solver.
    + split_and!; [eexists; by vm_compute|by vm_compute|by vm_compute|].
      exists ["B"]. split; [by vm_compute|set_solver].
    + split_and!; [eexists; by vm_compute|by vm_compute|by vm_compute|].
      exists ["C"]. split; [by vm_compute|set_solver].
    + split_and!; [eexists; by vm_compute|by vm_compute|by vm_compute|].
      exists []. split; [by vm_compute|set_solver].
  - by vm_compute.
  - by vm_compute.
  - done.
  - by vm_compute.
  - set_solver.
  - vm_compute. lia.
  - exact (conj Hc Hm).
Defined.

(** ** Skipping is sound until something changed *)

Section skip_sound.
Context (w : World).

Lemma updateGraph_status n p s :
  _file_status (updateGraph w n p s).2 = _file_status s.
Proof.
  revert p s. induction n as [|n IH]; intros p s; [done|].
  cbn [updateGraph]. unfold bind at 1, get.
  destruct (_graph s !! p) as [files|] eqn:Hg; [done|].
  unfold bind at 1.
  assert (_file_status (fileChanged w p s).2 = _file_status s) as Hf1.
  { destruct (fileChanged_cases w s p)
      as [(h & Hh & ->) | [(h & Hh & Hd & ->) | (Hh & Hd & ->)]]; done. }
  destruct (fileChanged w p s) as [[c|e|] s1]; cbn [snd] in *; [|done..].
  unfold bind at 1, get. unfold bind at 1.
  assert (_file_status ((match negb c, _known_graph s1 !! p with
                         | true, Some files => ret files
                         | _, _ => inspectDependencies w p
                         end) s1).2 = _file_status s1) as Hf2.
  { assert (_file_status (inspectDependencies w p s1).2 = _file_status s1) as Hi.
    { rewrite inspectDependencies_cases.
      destruct (find_dependencies w p) as [l| |tag];
        [|destruct (decide (p ∈ _ignored_files s1))|]; done. }
    destruct (negb c); [|done]. by destruct (_known_graph s1 !! p). }
  destruct ((match negb c, _known_graph s1 !! p with
             | true, Some files => ret files
             | _, _ => inspectDependencies w p
             end) s1) as [[files|e|] s2]; cbn [snd] in *; [|congruence..].
  unfold bind at 1, modify.
  apply (for__preserves (λ s', _file_status s' = _file_status s)).
  - intros x s3 Hs3. by rewrite IH.
  - simpl_state. congruence.
Qed.

(** A verdict "unchanged" keeps the set of paths judged unchanged
    closed, up to the ancestors whose own verdict is still pending. *)
Lemma dependenciesChanged_closed n p parents s s' :
  unchanged_closed (default [] parents) s →
  dependenciesChanged w n p parents s = (Ok false, s') →
  unchanged_closed (default [] parents) s'.
Proof.
  revert p parents s s'. induction n as [|n IH]; intros p parents s s' Hc; [done|].
  cbn [dependenciesChanged]. unfold bind at 1, get.
  destruct (_file_status s !! p) as [b|] eqn:Hf.
  { by intros [= -> <-]. }
  unfold bind at 1.
  assert (_file_status (fileChanged w p s).2 = _file_status s) as Hf1.
  { destruct (fileChanged_cases w s p)
      as [(h & Hh & ->) | [(h & Hh & Hd & ->) | (Hh & Hd & ->)]]; done. }
  pose proof (fileChanged_graph w p s) as Hg1.
  destruct (fileChanged w p s) as [[c|e|] s1]; cbn [snd] in *; [|done..].
  destruct c.
  { unfold bind at 1, ret at 1. by unfold bind at 1, modify, ret. }
  unfold bind at 1. unfold bind at 1, get.
  destruct (_graph s1 !! p) as [childs|] eqn:Hg; [|done].
  destruct (any_ (λ f, dependenciesChanged w n f (Some (default [] parents ++ [p])))
              (filter (λ f, f ∉ default [] parents ++ [p]) childs) s1)
    as [[b|e|] s2] eqn:Hany; [|done..].
  unfold bind at 1, modify, ret. intros [= -> <-].
  pose proof (any__false_status w n _ _ s1 s2 Hany) as Hfalse.
  assert (unchanged_closed (default [] parents ++ [p]) s2 ∧
          _graph s2 = _graph s1) as [[Hnt Hcl] Hg2].
  { assert (unchanged_closed (default [] parents ++ [p]) s1) as Hc1.
    { destruct Hc as [Hnt Hcl]. split; rewrite Hf1; [done|]. rewrite Hg1.
      intros q l c Hq Hl Hin. destruct (Hcl q l c Hq Hl Hin); [by left|].
      right. apply elem_of_app. by left. }
    clear Hfalse Hg Hc Hf Hf1 Hg1. revert s1 Hc1 Hany.
    induction (filter (λ f, f ∉ default [] parents ++ [p]) childs) as [|x l IHl];
      intros s1 Hc1.
    - by intros [= <-].
    - cbn [any_]. unfold bind.
      pose proof (dependenciesChanged_graph w n x (Some (default [] parents ++ [p])) s1)
        as Hgx.
      destruct (dependenciesChanged w n x (Some (default [] parents ++ [p])) s1)
        as [[[]|e|] s3] eqn:Hx; [done| |done..].
      intros Hany.
      destruct (IHl s3) as [Hc3 Hg3];
        [exact (IH x (Some (default [] parents ++ [p])) s1 s3 Hc1 Hx)|done|].
      split; [done|]. cbn [snd] in Hgx. congruence. }
  split; simpl_state.
  - intros q. destruct (decide (p = q)) as [<-|Hne].
    + by rewrite lookup_insert_eq.
    + by rewrite lookup_insert_ne.
  - intros q l c.
    assert (c ∈ default [] parents ++ [p] →
            <[p := false]> (_file_status s2) !! c = Some false ∨
            c ∈ default [] parents) as Hpend.
    { intros [Hin|Hin%list_elem_of_singleton]%elem_of_app; [by right|].
      subst c. left. apply lookup_insert_eq. }
    assert (_file_status s2 !! c = Some false →
            <[p := false]> (_file_status s2) !! c = Some false) as Hkeep.
    { intros Hst. destruct (decide (p = c)) as [<-|Hne]; [apply lookup_insert_eq|].
      by rewrite lookup_insert_ne. }
    destruct (decide (p = q)) as [<-|Hne].
    + intros _ Hl Hin. rewrite Hg2 in Hl. assert (l = childs) as -> by congruence.
      destruct (decide (c ∈ default [] parents ++ [p])) as [Hp|Hp]; [by apply Hpend|].
      left. apply Hkeep, Hfalse. by apply list_elem_of_filter.
    + rewrite lookup_insert_ne by done. intros Hq Hl Hin.
      destruct (Hcl q l c Hq Hl Hin) as [Hst|Hp]; [left; by apply Hkeep|].
      by apply Hpend.
Qed.

Lemma query_closed_unchanged n p s s' :
  (∀ q, _file_status s !! q = Some false → is_Some (_graph s !! q)) →
  unchanged_closed [] s → query w n p s = (Ok false, s') → unchanged_closed [] s'.
Proof.
  intros Hgr Hc. unfold query, bind.
  pose proof (updateGraph_status n p s) as Hst.
  pose proof (updateGraph_extends w n p s) as (_ & _ & _ & Eg & _).
  destruct (updateGraph w n p s) as [[[]|e|] s1]; cbn [snd] in *; [|done..].
  apply (dependenciesChanged_closed n p None).
  destruct Hc as [Hnt Hcl]. split; rewrite Hst; [done|].
  intros q l c Hq Hl. destruct (Hgr q Hq) as [l' Hl'].
  pose proof (lookup_weaken _ _ _ _ Hl' Eg). assert (l' = l) as -> by congruence.
  by apply (Hcl q l c).
Qed.

Lemma run_unchanged_closed cs s :
  fresh s → all_unchanged w cs s → unchanged_closed [] (run w cs s).
Proof.
  intros Hs.
  assert (unchanged_closed [] s) as Hc.
  { destruct Hs as (_ & _ & Hf). split; intros *; by rewrite Hf, lookup_empty. }
  assert (∀ cs1 cs2, cs1 ++ cs2 = cs → all_unchanged w cs2 (run w cs1 s) →
            unchanged_closed [] (run w cs1 s) →
            unchanged_closed [] (run w cs s)) as Hgen.
  { intros cs1 cs2. revert cs1. induction cs2 as [|c cs2 IH]; intros cs1 Heq.
    - rewrite app_nil_r in Heq. by subst cs1.
    - cbn [all_unchanged]. intros [Hb Hrest] Hc1.
      apply (IH (cs1 ++ [c])); [by rewrite <- app_assoc| |].
      + unfold run in *. by rewrite foldl_app.
      + unfold run in *. rewrite foldl_app. cbn [foldl].
        fold (run w cs1 s) in *.
        pose proof (run_verdict_inv w s cs1 Hs) as (_ & _ & Hgr & _).
        destruct c as [n m|n cls|t]; cbn [do_call].
        * revert Hb. rewrite wantModule_query.
          destruct (getsourcefile w m) as [[p|]|e0]; [|done..]. intros [?|Hb]; [done|].
          destruct (query w n p (run w cs1 s)) as [[[]|e|] s1] eqn:Hq; try done.
          by apply (query_closed_unchanged n p (run w cs1 s)).
        * revert Hb. rewrite wantClass_query.
          destruct (getsourcefile w cls) as [[p|]|e0]; [|done..]. intros [?|Hb]; [done|].
          destruct (query w n p (run w cs1 s)) as [[[]|e|] s1] eqn:Hq; try done.
          by apply (query_closed_unchanged n p (run w cs1 s)).
        * unfold afterTest. case_bool_decide; [|done]. by unfold bind, get, modify. }
  intros Hall. by apply (Hgen [] cs).
Qed.

End skip_sound.

(** X15 (a skip is sound until something changed).  In a run that
    starts with nothing visited and in which every query so far
    answered "unchanged": when the query for [p] answers "unchanged",
    every file reachable from [p] along the edges of the current graph
    has on disk the content the prior run recorded.  (Once a query has
    answered "changed" this can fail: a verdict memoized while a cycle
    edge was cut can be stale.) *)
Theorem skip_is_sound_until_first_change (w : World) (s : plugin) (cs : list call)
    (n : nat) (p : path) (s' : plugin) (q : path) :
  fresh s → all_unchanged w cs s →
  query w n p (run w cs s) = (Ok false, s') →
  reachable (_graph s') p q →
  unchanged_on_disk w (_known_hashes s) q.
Proof.
  intros Hs Hall Hq Hreach.
  pose proof (run_unchanged_closed w cs s Hs Hall) as Hc.
  pose proof (run_verdict_inv w s cs Hs) as Hv.
  pose proof (query_verdict_inv w _ n p _ Hv) as Hv'. rewrite Hq in Hv'.
  cbn [snd] in Hv'. destruct Hv' as (_ & _ & Hgr' & Hun & _).
  apply (query_closed_unchanged w n p _ s') in Hc;
    [|by destruct Hv as (_ & _ & ? & _)|done].
  apply query_memoizes in Hq. apply Hun.
  induction Hreach as [|a b c (l & Hl & Hb) _ IH]; [done|].
  apply IH. destruct Hc as [_ Hcl].
  by destruct (Hcl a l b Hq Hl Hb) as [?|?%elem_of_nil].
Qed.

Lemma skip_is_sound_until_first_change_witness :
  unchanged_on_disk cycle_world (_known_hashes cycle_start) "B".
Proof.
  apply (skip_is_sound_until_first_change cycle_world cycle_start
           [WantModule 3 (PyModule "B")] 3 "A"
           (query cycle_world 3 "A"
              (run cycle_world [WantModule 3 (PyModule "B")] cycle_start)).2 "B").
  - split_and!; reflexivity.
  - split; [right; by vm_compute|done].
  - apply pair_eta_fst. by vm_compute.
  - eapply rtc_l; [|apply rtc_refl]. exists ["B"]. split; [by vm_compute|set_solver].
Defined.

(** ** The resolver is called once *)

Section resolved_once.
Context (w : World) (p : path) (calls : list (path * bool)).

Lemma resolved_query_invariant :
  query_invariant w (λ _, True)
    (λ s, is_Some (_graph s !! p) ∧
          filter (λ c, c.1 = p) (resolver_calls s) = calls).
Proof.
  split; try done.
  - intros q s h files [[l Hl] Hc] Hq _ _ _. split; [|done]. simpl_state.
    exists l. rewrite lookup_insert_ne; [done|]. intros ->. congruence.
  - intros q s h [[l Hl] Hc] Hq _ _.
    assert (q ≠ p) as Hne by (intros ->; congruence).
    rewrite inspectDependencies_cases.
    destruct (find_dependencies w q) as [files| |tag];
      [|destruct (decide (q ∈ _ignored_files s))|]; simpl_state;
      rewrite ?filter_cons_False by done;
      rewrite ?lookup_insert_ne by done; eauto.
Qed.
End resolved_once.

(** X16 (the resolver is called at most once on a visited file).  Once
    [p] has an entry in the current graph, no later call of the run
    passes [p] to the resolver again: the calls made on [p] are the ones
    made before. *)
Theorem visited_file_not_resolved_again (w : World) (s : plugin)
    (cs cs' : list call) (p : path) :
  is_Some (_graph (run w cs s) !! p) →
  filter (λ c, c.1 = p) (resolver_calls (run w (cs ++ cs') s))
  = filter (λ c, c.1 = p) (resolver_calls (run w cs s)).
Proof.
  intros Hp. unfold run at 1. rewrite foldl_app. fold (run w cs s).
  fold (run w cs' (run w cs s)).
  apply (run_keeps w _ _ (resolved_query_invariant w p _) I cs' (run w cs s)); [|done].
  intros s1 t. unfold afterTest. case_bool_decide; [|done].
  by unfold bind, get, modify.
Qed.

Lemma visited_file_not_resolved_again_witness :
  filter (λ c, c.1 = "C")
    (resolver_calls (run chain_world
                       ([WantModule 3 (PyModule "A")] ++ [WantClass 3 (PyClass "C" "T")])
                       chain_start))
  = [("C", false)].
Proof.
  rewrite (visited_file_not_resolved_again chain_world chain_start
             [WantModule 3 (PyModule "A")] [WantClass 3 (PyClass "C" "T")] "C").
  - by vm_compute.
  - eexists. by vm_compute.
Defined.

(** X17 (a larger recursion budget changes nothing).  A call that
    returned or raised within its recursion budget gives the same
    result, and leaves the same state, with any larger budget. *)
Theorem larger_budget_same_result (w : World) (n k : nat) (m : pyobject)
    (s : plugin) :
  n ≤ k →
  ((wantModule w n m s).1 ≠ OutOfFuel → wantModule w k m s = wantModule w n m s) ∧
  ((wantClass w n m s).1 ≠ OutOfFuel → wantClass w k m s = wantClass w n m s).
Proof.
  intros Hnk. rewrite !wantModule_query, ?wantClass_query.
  destruct (getsourcefile w m) as [[p|]|e0]; [|done..].
  assert ((answer (query w n p s)).1 ≠ OutOfFuel →
          answer (query w k p s) = answer (query w n p s)) as Hq; [|done].
  destruct (query w n p s) as [r s'] eqn:Hn. intros Hr.
  rewrite (query_fuel w n k Hnk p s r s' Hn); [done|].
  intros ->. by apply Hr.
Qed.

Lemma larger_budget_same_result_witness :
  wantModule cycle_world 7 (PyModule "A") cycle_start
  = wantModule cycle_world 3 (PyModule "A") cycle_start.
Proof.
  apply (larger_budget_same_result cycle_world 3 7 (PyModule "A") cycle_start);
    [lia|by vm_compute].
Defined.

(** After a visit that raised, the graph can lack the entry of a file
    whose hash is cached, and a later query then raises [KeyError]. *)
Lemma KeyError_after_failed_visit :
  (wantModule failing_resolver_world 3 (PyModule "A") failing_resolver_start).1
  = Raise (ResolverError "SyntaxError") ∧
  (wantModule failing_resolver_world 3 (PyModule "A")
     (run failing_resolver_world [WantModule 3 (PyModule "A")]
        failing_resolver_start)).1
  = Raise (KeyError "F").
Proof. split; by vm_compute. Qed.

(** ** A cache without its graph *)

(** [configure] assigns [_known_hashes] before it reads [data['graph']]:
    when the cache holds hashes and no graph, the [KeyError] escapes
    with the prior hashes already set. *)
Lemma configure_partial_cache (w : World) (wd : path) (h : gmap path hash) :
  isfile w (join wd (hash_file initial)) = true →
  pickle_load w (join wd (hash_file initial)) = Unpickled (Some h) None →
  (configure w wd initial).1 = Raise (KeyError "graph") ∧
  _known_hashes (configure w wd initial).2 = h ∧
  _known_graph (configure w wd initial).2 = ∅.
Proof.
  intros Hf Hl.
  assert (configure w wd initial =
            (Raise (KeyError "graph"),
             set_known_hashes h (set_hash_file (join wd (hash_file initial)) initial)))
    as ->; [|done].
  unfold configure. unfold bind at 1, get.
  unfold bind at 1, modify at 1. rewrite Hf, Hl. by unfold bind, modify, raise.
Qed.

(** ** A stale edge, at any point of a run *)

Section stale_run.
Context (w : World).

Lemma run_extends s cs : extends_state s (run w cs s).
Proof.
  apply (run_keeps w (λ _, True) _ (extends_state_query_invariant w s) I).
  - intros s1 t. apply extends_state_afterTest.
  - apply extends_state_refl.
Qed.

Lemma query_extends n p s : extends_state s (query w n p s).2.
Proof.
  apply (query_keeps w (λ _, True) _ (extends_state_query_invariant w s) I).
  apply extends_state_refl.
Qed.

(** A path that cannot be read is never hashed, visited or judged. *)
Lemma unreadable_unvisited D t :
  read_bytes w D = None → hashed_inv w t →
  _hashes t !! D = None ∧ _graph t !! D = None ∧ _file_status t !! D = None.
Proof.
  intros HD (H1 & H2 & H3 & _).
  assert (_hashes t !! D = None) as Hh.
  { destruct (_hashes t !! D) as [h|] eqn:Hh; [|done].
    apply H1 in Hh. unfold disk_hash in Hh. by rewrite HD in Hh. }
  split_and!; [done| |].
  - destruct (_graph t !! D) as [x|] eqn:Hg; [|done].
    destruct (H2 D ltac:(by eexists)) as [h Hh']. congruence.
  - destruct (_file_status t !! D) as [x|] eqn:Hf; [|done].
    destruct (H3 D ltac:(by eexists)) as [h Hh']. congruence.
Qed.

(** Reaching such a path, in the visit or in the scan, raises the
    [IOError] of hashing it and changes nothing. *)
Lemma unreadable_raises D t n parents :
  read_bytes w D = None → hashed_inv w t →
  updateGraph w (S n) D t = (Raise (IOError D), t) ∧
  dependenciesChanged w (S n) D parents t = (Raise (IOError D), t).
Proof.
  intros HD Ht. destruct (unreadable_unvisited D t HD Ht) as (Hh & Hg & Hf).
  pose proof (fileChanged_unreadable w t D Hh HD) as Hc. split.
  - by apply updateGraph_hash_fails.
  - cbn [dependenciesChanged]. unfold bind at 1, get. rewrite Hf.
    by rewrite (bind_raise _ _ _ _ _ Hc).
Qed.

(** The edge list recorded for an unchanged file is the prior one. *)
Lemma unchanged_entry A hA l t l' :
  hashed_inv w t → _known_hashes t !! A = Some hA → disk_hash w A = Some hA →
  _known_graph t !! A = Some l → _graph t !! A = Some l' → l' = l.
Proof.
  intros (H1 & H2 & _ & _ & H5 & _) Hkh HdA Hkg Hg.
  destruct (H2 A ltac:(by eexists)) as [h Hh].
  assert (h = hA) as -> by (apply H1 in Hh; congruence).
  apply (H5 A l' hA l Hg Hh); [|done]. by apply own_change_same.
Qed.
End stale_run.

(** C9, as stated, fails.  In [stale_scan_world], [A] is unchanged and
    its reused edge list names the changed [C] and then the deleted
    [D]: the first query for [A] raises the [IOError] of hashing [D],
    but the next one returns "changed" normally ([None]), with [D]
    still in the edge list recorded for [A], because the scan stops at
    [C].  In [two_stale_world] the edge list names two deleted files,
    and the error raised is that of the first one only. *)
Lemma stale_edge_counterexample :
  ((wantModule stale_scan_world 3 (PyModule "A") stale_scan_start).1
     = Raise (IOError "D") ∧
   (wantModule stale_scan_world 3 (PyModule "A")
      (run stale_scan_world [WantModule 3 (PyModule "A")] stale_scan_start)).1
     = Ok None ∧
   _graph (wantModule stale_scan_world 3 (PyModule "A")
             (run stale_scan_world [WantModule 3 (PyModule "A")] stale_scan_start)).2
     !! "A" = Some ["C"; "D"] ∧
   read_bytes stale_scan_world "D" = None) ∧
  (_known_graph two_stale_start !! "A" = Some ["D"; "E"] ∧
   read_bytes two_stale_world "E" = None ∧
   (wantModule two_stale_world 3 (PyModule "A") two_stale_start).1
     = Raise (IOError "D")).
Proof. split_and!; by vm_compute. Qed.

(** C9, amended (stale reused edge).  [A] is unchanged and recorded in
    the prior graph with the edge list [l]; [D], named in [l], cannot be
    read.  At every point of a run that started with nothing visited:
    the unit of [A] is never answered [False] (skip); wherever the visit
    or the scan reaches [D], the [IOError] of hashing [D] escapes and
    nothing is changed; an edge list recorded for [A] is [l], with [D]
    still in it.  While [A] has no graph entry, the query for [A] never
    returns a value, whatever the recursion budget; it records [l] for
    [A]; and as soon as the edges listed before [D] are visited without
    an exception, it raises the [IOError] of hashing [D], from the state
    that visit ended in. *)
Theorem stale_reused_edge_raises (w : World) (A D : path) (hA : hash)
    (l : list path) (s : plugin) (cs : list call) (m : pyobject) :
  fresh s →
  _known_graph s !! A = Some l → D ∈ l →
  _known_hashes s !! A = Some hA → disk_hash w A = Some hA →
  read_bytes w D = None →
  getsourcefile w m = Returns (Some A) →
  (∀ fuel, (wantModule w fuel m (run w cs s)).1 ≠ Ok (Some false) ∧
           (wantClass w fuel m (run w cs s)).1 ≠ Ok (Some false)) ∧
  (∀ n parents,
     updateGraph w (S n) D (run w cs s) = (Raise (IOError D), run w cs s) ∧
     dependenciesChanged w (S n) D parents (run w cs s)
       = (Raise (IOError D), run w cs s)) ∧
  (∀ l', _graph (run w cs s) !! A = Some l' → l' = l) ∧
  (_graph (run w cs s) !! A = None →
   (fileChanged w A (run w cs s)).1 = Ok false ∧
   (∀ fuel v, (wantModule w fuel m (run w cs s)).1 ≠ Ok v) ∧
   (∀ fuel, 0 < fuel → _graph (wantModule w fuel m (run w cs s)).2 !! A = Some l) ∧
   (∀ n pre post s1 s',
      l = pre ++ D :: post →
      fileChanged w A (run w cs s) = (Ok false, s1) →
      for_ pre (updateGraph w (S n)) (set_graph (<[A := l]> (_graph s1)) s1)
        = (Ok tt, s') →
      wantModule w (S (S n)) m (run w cs s) = (Raise (IOError D), s'))).
Proof.
  intros Hs Hkg Hin Hkh HdA HD Hm.
  pose proof (run_hashed_inv w s cs Hs) as Hinv.
  pose proof (run_extends w s cs) as (_ & Ekg & Ekh & _).
  rewrite <- Ekg in Hkg. rewrite <- Ekh in Hkh.
  pose proof (run_verdict_inv w s cs Hs) as Hv.
  revert Hinv Hv Hkg Hkh. generalize (run w cs s). clear Ekg Ekh.
  intros t Hinv Hv Hkg Hkh.
  assert (A ≠ D) as Hne.
  { intros ->. unfold disk_hash in HdA. by rewrite HD in HdA. }
  split_and!.
  - assert (∀ fuel, (query w fuel A t).1 ≠ Ok false) as Hq.
    { intros fuel Hq.
      pose proof (query_keeps w _ _ (hashed_inv_query_invariant w) I fuel A t Hinv)
        as Hinv'.
      pose proof (query_verdict_inv w _ fuel A t Hv) as Hv'.
      pose proof (query_extends w fuel A t) as (_ & Ekg & Ekh & _).
      destruct (query w fuel A t) as [[[]|e|] t'] eqn:Heq; cbn [fst snd] in *;
        try done.
      apply query_memoizes in Heq.
      destruct Hv' as (_ & _ & H2 & _ & H4 & _). destruct (H2 A Heq) as [l' Hl'].
      rewrite <- Ekg in Hkg. rewrite <- Ekh in Hkh.
      pose proof (unchanged_entry w A hA l t' l' Hinv' Hkh HdA Hkg Hl') as ->.
      destruct (H4 A l D Heq Hl' Hin) as (h & Hd & _).
      unfold disk_hash in Hd. by rewrite HD in Hd. }
    intros fuel. rewrite wantModule_query, wantClass_query, Hm.
    specialize (Hq fuel). by destruct (query w fuel A t) as [[[]|e|] t'].
  - intros n parents. by apply unreadable_raises.
  - intros l'. by apply (unchanged_entry w A hA).
  - intros Hg.
    destruct (unreadable_unvisited w D t HD Hinv) as (HhD & HgD & _).
    assert (∃ s1, fileChanged w A t = (Ok false, s1) ∧ _graph s1 = _graph t ∧
                  _hashes s1 !! D = None ∧ _known_graph s1 = _known_graph t)
      as (s1 & Hfc & Hg1 & Hh1 & Hk1).
    { destruct (fileChanged_cases w t A)
        as [(h & Hh & ->) | [(h & Hh & Hd & ->) | (Hh & Hd & ->)]].
      - destruct Hinv as (H1 & _). apply H1 in Hh.
        assert (h = hA) as -> by congruence.
        rewrite (own_change_same t A hA Hkh). by exists t.
      - assert (h = hA) as -> by congruence.
        rewrite (own_change_same t A hA Hkh). eexists. split; [done|].
        split_and!; simpl_state; try done. by rewrite lookup_insert_ne.
      - unfold disk_hash in HdA. by rewrite Hd in HdA. }
    set (s2 := set_graph (<[A := l]> (_graph s1)) s1).
    assert (stale_inv A D l s2) as Hs2.
    { subst s2. split_and!; simpl_state.
      - done.
      - rewrite lookup_insert_ne by done. congruence.
      - by rewrite lookup_insert_eq. }
    pose proof (stale_inv_run_invariant w A D l HD) as HI.
    assert (∀ n, updateGraph w (S n) A t = for_ l (updateGraph w n) s2) as Hstep.
    { intros n. apply (updateGraph_reuse w n A t s1 l); [done..|congruence]. }
    assert (∀ fuel, wantModule w fuel m t =
              match updateGraph w fuel A t with
              | (Ok _, s') => answer ((dependenciesChanged w fuel A None) s')
              | (Raise e, s') => (Raise e, s')
              | (OutOfFuel, s') => (OutOfFuel, s')
              end) as Hwant.
    { intros fuel. rewrite wantModule_query, Hm. unfold query, bind.
      by destruct (updateGraph w fuel A t) as [[[]|e|] s']. }
    split_and!.
    + by rewrite Hfc.
    + intros [|n] v; rewrite Hwant; [done|]. rewrite Hstep.
      pose proof (for__stale w A D l HD n l s2 Hs2 Hin) as Hnot.
      destruct (for_ l (updateGraph w n) s2) as [[[]|e|] s']; cbn [fst] in *; [|done..].
      by destruct (Hnot ()).
    + intros [|n] Hn; [lia|]. rewrite Hwant, Hstep.
      pose proof (for__stale w A D l HD n l s2 Hs2 Hin) as Hnot.
      pose proof (for__preserves _ l (updateGraph w n)
                    (λ x, updateGraph_preserves w _ HI n x) s2 Hs2) as Hpres.
      destruct (for_ l (updateGraph w n) s2) as [[[]|e|] s']; cbn [fst snd] in *.
      * by destruct (Hnot ()).
      * apply Hpres.
      * apply Hpres.
    + intros n pre post s1' s' -> Hfc' Hpre.
      assert (s1' = s1) as -> by congruence.
      rewrite Hwant, Hstep. fold s2 in Hpre.
      rewrite for__app. rewrite (bind_ok _ _ _ _ _ Hpre). cbn [for_].
      pose proof (for__preserves _ pre (updateGraph w (S n))
                    (λ x, updateGraph_preserves w _ HI (S n) x) s2 Hs2) as Hpres.
      rewrite Hpre in Hpres. cbn [snd] in Hpres.
      by rewrite (bind_raise _ _ _ _ _ (updateGraph_stale w A D _ HD n s' Hpres)).
Qed.

(** C9 amended, at [stale_world] for the first query, and at
    [stale_scan_world] after a query that raised. *)
Lemma stale_reused_edge_raises_witness :
  ((wantModule stale_world 2 (PyModule "A") stale_start).1 = Raise (IOError "D") ∧
   _graph (wantModule stale_world 2 (PyModule "A") stale_start).2 !! "A"
     = Some ["D"] ∧
   _ignored_files (wantModule stale_world 2 (PyModule "A") stale_start).2 = ∅) ∧
  ((wantModule stale_scan_world 3 (PyModule "A")
      (run stale_scan_world [WantModule 3 (PyModule "A")] stale_scan_start)).1
     ≠ Ok (Some false) ∧
   dependenciesChanged stale_scan_world 1 "D" (Some ["A"])
     (run stale_scan_world [WantModule 3 (PyModule "A")] stale_scan_start)
   = (Raise (IOError "D"),
      run stale_scan_world [WantModule 3 (PyModule "A")] stale_scan_start)).
Proof.
  split.
  - destruct (stale_reused_edge_raises stale_world "A" "D" "a" ["D"] stale_start []
                (PyModule "A")) as (_ & _ & _ & Hfirst);
      [split_and!; reflexivity|reflexivity|set_solver|reflexivity..|].
    destruct Hfirst as (_ & _ & Hg & Hr); [reflexivity|].
    change (run stale_world [] stale_start) with stale_start in Hg, Hr.
    split_and!.
    + by rewrite (Hr 0 [] [] _ _ eq_refl eq_refl eq_refl).
    + apply Hg. lia.
    + by rewrite (Hr 0 [] [] _ _ eq_refl eq_refl eq_refl).
  - destruct (stale_reused_edge_raises stale_scan_world "A" "D" "a" ["C"; "D"]
                stale_scan_start [WantModule 3 (PyModule "A")] (PyModule "A"))
      as (Hskip & Hraise & _);
      [split_and!; reflexivity|reflexivity|set_solver|reflexivity..|].
    split; [apply (Hskip 3)|apply (Hraise 0 (Some ["A"]))].
Defined.

(** ** What the queries answer *)

Section want_closure.
Context (w : World).

Lemma closure_never_changed s cs D n p :
  fresh s → unchanged_closure w (_known_hashes s) (_known_graph s) D → p ∈ D →
  (query w n p (run w cs s)).1 ≠ Ok true.
Proof.
  intros Hs HD Hp.
  pose proof (settled_run w _ _ D HD s cs (settled_fresh w _ _ D s Hs eq_refl eq_refl))
    as Hrun.
  pose proof (query_keeps w _ _ (settled_query_invariant w _ _ D HD) I n p _ Hrun)
    as Hq.
  destruct (query w n p (run w cs s)) as [[b|e|] s'] eqn:Heq; cbn [fst snd] in *;
    try done.
  apply query_memoizes in Heq. destruct Hq as (_ & _ & _ & _ & H3).
  by rewrite (H3 p b Hp Heq).
Qed.

Lemma query_false_deps s cs n p s' :
  fresh s → query w n p (run w cs s) = (Ok false, s') →
  ∃ childs, _graph s' !! p = Some childs ∧
            ∀ c, c ∈ childs → unchanged_on_disk w (_known_hashes s) c.
Proof.
  intros Hs Hq.
  pose proof (query_verdict_inv w _ n p _ (run_verdict_inv w s cs Hs)) as Hinv.
  rewrite Hq in Hinv. cbn [snd] in Hinv. apply query_memoizes in Hq.
  destruct Hinv as (_ & _ & H2 & _ & H4 & _). destruct (H2 p Hq) as [childs Hg].
  exists childs. split; [done|]. intros c Hc. by eapply H4.
Qed.

Lemma query_false_closure s cs n p s' q :
  fresh s → all_unchanged w cs s →
  query w n p (run w cs s) = (Ok false, s') →
  reachable (_graph s') p q → unchanged_on_disk w (_known_hashes s) q.
Proof.
  intros Hs Hall Hq Hreach.
  pose proof (run_unchanged_closed w cs s Hs Hall) as Hc.
  pose proof (run_verdict_inv w s cs Hs) as Hv.
  pose proof (query_verdict_inv w _ n p _ Hv) as Hv'. rewrite Hq in Hv'.
  cbn [snd] in Hv'. destruct Hv' as (_ & _ & Hgr' & Hun & _).
  apply (query_closed_unchanged w n p _ s') in Hc;
    [|by destruct Hv as (_ & _ & ? & _)|done].
  apply query_memoizes in Hq. apply Hun.
  induction Hreach as [|a b c (l & Hl & Hb) _ IH]; [done|].
  apply IH. destruct Hc as [_ Hcl].
  by destruct (Hcl a l b Hq Hl Hb) as [?|?%elem_of_nil].
Qed.
End want_closure.

(** C8, as stated, fails.  A changed verdict is answered with [None],
    the value also given for an unknown source, and an unchanged
    verdict with [False], not [True]; for a built-in module the lookup
    of the source raises, and the [TypeError] escapes; and an answer
    [False] does not mean that nothing in the closure changed: in
    [diamond_world], after the query for ["A"], the unit of ["B"] is
    answered [False] although ["C"], which ["B"] reaches through ["A"],
    has changed on disk. *)
Lemma want_answer_counterexample :
  (getsourcefile chain_world (PyModule "C") = Returns (Some "C") ∧
   (query chain_world 3 "C" chain_start).1 = Ok true ∧
   (wantModule chain_world 3 (PyModule "C") chain_start).1 = Ok None ∧
   (wantClass chain_world 3 (PyClass "C" "T") chain_start).1 = Ok None) ∧
  (getsourcefile cycle_world (PyModule "A") = Returns (Some "A") ∧
   (query cycle_world 3 "A" cycle_start).1 = Ok false ∧
   (wantModule cycle_world 3 (PyModule "A") cycle_start).1 = Ok (Some false) ∧
   (wantClass cycle_world 3 (PyClass "A" "T") cycle_start).1 = Ok (Some false)) ∧
  (getsourcefile chain_world (PyModule "") = Returns None ∧
   (wantModule chain_world 3 (PyModule "") chain_start).1 = Ok None) ∧
  (getsourcefile chain_world (PyModule "sys") = LookupRaises (TypeError "built-in") ∧
   (wantModule chain_world 3 (PyModule "sys") chain_start).1
     = Raise (TypeError "built-in") ∧
   (wantClass chain_world 3 (PyClass "sys" "T") chain_start).1
     = Raise (TypeError "built-in")) ∧
  ((wantModule diamond_world 3 (PyModule "B")
      (run diamond_world [WantModule 3 (PyModule "A")] diamond_start)).1
     = Ok (Some false) ∧
   _graph (wantModule diamond_world 3 (PyModule "B")
             (run diamond_world [WantModule 3 (PyModule "A")] diamond_start)).2
     !! "B" = Some ["A"] ∧
   _graph (wantModule diamond_world 3 (PyModule "B")
             (run diamond_world [WantModule 3 (PyModule "A")] diamond_start)).2
     !! "A" = Some ["B"; "C"] ∧
   disk_hash diamond_world "C" = Some "c2" ∧
   _known_hashes diamond_start !! "C" = Some "c").
Proof. split_and!; by vm_compute. Qed.

(** C8, amended.  An exception of the source lookup escapes and leaves
    the state alone; with no known source, [wantModule] and [wantClass]
    answer [None] and leave the state alone; with source [p], they
    answer from the outcome of the query on [p]: [False] exactly when
    the verdict is "unchanged", [None] exactly when it is "changed", and
    never [True]; an exception of the query escapes.  At any point of a
    run that started with nothing visited: when [p] lies in a set of
    files that are all unchanged on disk and closed under the prior edge
    lists, the answer is never [None], and it is [False] given a
    recursion budget larger than that set, if no earlier call exceeded
    its budget; when the answer is [False], [p] and every path of its
    edge list are unchanged on disk, and so is every file reachable from
    [p] in the current graph provided every earlier query answered
    "unchanged". *)
Theorem want_answers (w : World) (fuel : nat) (m : pyobject) (s : plugin) :
  (wantModule w fuel m s =
     match getsourcefile w m with
     | LookupRaises e => (Raise e, s)
     | Returns None => (Ok None, s)
     | Returns (Some p) => answer (query w fuel p s)
     end ∧
   wantClass w fuel m s =
     match getsourcefile w m with
     | LookupRaises e => (Raise e, s)
     | Returns None => (Ok None, s)
     | Returns (Some p) => answer (query w fuel p s)
     end) ∧
  (∀ p c s', getsourcefile w m = Returns (Some p) → query w fuel p s = (Ok c, s') →
     ((wantModule w fuel m s).1 = Ok (Some false) ↔ c = false) ∧
     ((wantModule w fuel m s).1 = Ok None ↔ c = true) ∧
     (wantModule w fuel m s).1 ≠ Ok (Some true) ∧
     ((wantClass w fuel m s).1 = Ok (Some false) ↔ c = false) ∧
     ((wantClass w fuel m s).1 = Ok None ↔ c = true) ∧
     (wantClass w fuel m s).1 ≠ Ok (Some true)) ∧
  (∀ s0 cs p,
     fresh s0 → s = run w cs s0 → getsourcefile w m = Returns (Some p) →
     (∀ D, unchanged_closure w (_known_hashes s0) (_known_graph s0) D → p ∈ D →
        (wantModule w fuel m s).1 ≠ Ok None ∧
        (wantClass w fuel m s).1 ≠ Ok None ∧
        (within_budget w cs s0 → size D < fuel →
           (wantModule w fuel m s).1 = Ok (Some false) ∧
           (wantClass w fuel m s).1 = Ok (Some false))) ∧
     ((wantModule w fuel m s).1 = Ok (Some false) →
        (wantClass w fuel m s).1 = Ok (Some false) ∧
        unchanged_on_disk w (_known_hashes s0) p ∧
        (∃ childs, _graph (wantModule w fuel m s).2 !! p = Some childs ∧
                   ∀ c, c ∈ childs → unchanged_on_disk w (_known_hashes s0) c) ∧
        (all_unchanged w cs s0 →
           ∀ q, reachable (_graph (wantModule w fuel m s).2) p q →
                unchanged_on_disk w (_known_hashes s0) q))).
Proof.
  split_and!; [apply wantModule_query|apply wantClass_query| |].
  - intros p c s' Hm Hq. rewrite wantModule_query, wantClass_query, Hm, Hq.
    destruct c; cbn; naive_solver.
  - intros s0 cs p Hs -> Hm. rewrite wantModule_query, wantClass_query, Hm. split.
    + intros D HD Hp.
      pose proof (closure_never_changed w s0 cs D fuel p Hs HD Hp) as Hne.
      split_and!.
      * by destruct (query w fuel p (run w cs s0)) as [[[]|e|] s'].
      * by destruct (query w fuel p (run w cs s0)) as [[[]|e|] s'].
      * intros Hb Hn.
        pose proof (closure_query w _ _ D HD s0 cs fuel p Hs eq_refl eq_refl Hb Hp Hn)
          as Hq.
        by destruct (query w fuel p (run w cs s0)) as [[[]|e|] s'].
    + destruct (query w fuel p (run w cs s0)) as [[[]|e|] s'] eqn:Hq; cbn [answer fst snd];
        try done.
      intros _. split_and!; [done| | |].
      * by eapply query_false_own.
      * by eapply query_false_deps.
      * intros Hall q. by eapply query_false_closure.
Qed.

(** C8 amended, at the unchanged cycle of [cycle_world] and at the
    changed file of [chain_world]. *)
Lemma want_answers_witness :
  (wantModule cycle_world 3 (PyModule "B")
     (run cycle_world [WantModule 3 (PyModule "A")] cycle_start)).1 = Ok (Some false) ∧
  unchanged_on_disk cycle_world (_known_hashes cycle_start) "A" ∧
  (wantModule chain_world 3 (PyModule "C") chain_start).1 = Ok None.
Proof.
  destruct (want_answers cycle_world 3 (PyModule "B")
              (run cycle_world [WantModule 3 (PyModule "A")] cycle_start))
    as (_ & _ & Hrun).
  destruct (Hrun cycle_start [WantModule 3 (PyModule "A")] "B") as [Hskip Hsound];
    [split_and!; reflexivity|reflexivity|reflexivity|].
  destruct (Hskip {["A"; "B"]} cycle_unchanged_closure ltac:(set_solver))
    as (_ & _ & Hfalse).
  destruct Hfalse as [Hfalse _]; [split; [by vm_compute|done]|vm_compute; lia|].
  destruct (Hsound Hfalse) as (_ & _ & _ & Hclosure).
  split_and!; [exact Hfalse| |].
  - apply Hclosure; [split; [right; by vm_compute|done]|].
    eapply rtc_l; [|apply rtc_refl]. exists ["A"]. split; [by vm_compute|set_solver].
  - destruct (want_answers chain_world 3 (PyModule "C") chain_start) as (_ & Hval & _).
    destruct (Hval "C" true (query chain_world 3 "C" chain_start).2 eq_refl)
      as (_ & Hnone & _); [apply pair_eta_fst; by vm_compute|by apply Hnone].
Defined.
